(** * NomNom Studio: batch orchestration and credit ledger

    A shallow embedding of the server side of the repository:

    - [supabase/migrations/001_initial_schema.sql]: the tables, the
      [sync_job_completion] trigger, [get_available_credits] and
      [deduct_credits];
    - the Stripe webhook route (credit grants);
    - the batch submission route ([/api/process]);
    - the worker route ([/api/worker]) with [processImage] and
      [pollNanoBanana];
    - the ZIP bundle route ([/api/jobs/[id]/zip]).

    and of the parts of the client side that decide what is sent to
    these routes or shown of their results: the drop zone ([UploadZone]),
    the form of [DashboardClient] and [computeProgress] of the progress
    hook.

    Modelling conventions.  SQL [INT] columns are integers of [Z];
    PostgreSQL raises an error on overflow instead of wrapping, and every
    quantity below (plan grants of at most 500 credits, batches of at most
    20 images) stays far from the 32-bit bound, so overflow errors are left
    out of the model ([deduct_credits_within_int4] checks the charge).
    JavaScript numbers that go through [Math.round] are
    IEEE binary64 values ([PrimFloat]).  Calls of [supabase-js] do not
    throw: a failed statement returns an error object that the routes
    ignore unless they test it, and the model does the same.  A call of
    the Stripe API can reject; what it answers is part of a delivery to
    the webhook, its results being as the Stripe types declare them.  The blob
    store, the enhancement provider and the clock are outside the program:
    their answers are inputs of the handlers. *)

From Stdlib Require Import ZArith Lia Ascii String Uint63 PrimFloat FloatOps SpecFloat.
From stdpp Require Import gmap strings list sorting pretty.

Local Open Scope Z_scope.

(** ** Schema *)

Abbreviation uuid := N (only parsing).

Inductive job_status := queued | processing | completed | failed | cancelled.

#[global] Instance job_status_eq_dec : EqDecision job_status.
Proof. solve_decision. Defined.

Inductive plan_type := free | starter | pro | agency.

Inductive tx_source :=
  monthly_grant | topup_purchase | job_charge | refund | churn_bonus.

#[global] Instance tx_source_eq_dec : EqDecision tx_source.
Proof. solve_decision. Defined.

(** [profiles]: the subscription plan and the credit wallet. *)
Record profile := mk_profile {
  plan : plan_type;
  monthly_credits : Z;
  topup_credits : Z;
  credits_used_cycle : Z;
}.

(** [credit_transactions]: the audit trail, oldest entry first. *)
Record credit_transaction := mk_tx {
  tx_user_id : uuid;
  amount : Z;
  balance_after : Z;
  source : tx_source;
  reference_id : option string;
}.

(** [processing_jobs]; timestamps are clock readings. *)
Record processing_job := mk_job {
  job_user_id : uuid;
  total_images : Z;
  completed_count : Z;
  failed_count : Z;
  status : job_status;
  credits_charged : Z;
  started_at : option Z;
  completed_at : option Z;
  error_message : option string;
}.

(** [processed_images], without the primary key [id], which is the key of
    the table below; [progress_pct] is a nullable [SMALLINT]. *)
Record processed_image := mk_image {
  job_id : uuid;
  img_user_id : uuid;
  original_path : string;
  original_filename : string;
  output_path : option string;
  file_size_bytes : option Z;
  img_status : job_status;
  position : Z;
  progress_pct : option Z;
  output_signed_url : option string;
  output_signed_url_exp : option Z;
  img_error_message : option string;
}.

(** A row of [zip_bundles]. *)
Record zip_bundle := mk_bundle {
  zb_user_id : uuid;
  storage_path : string;
  signed_url : option string;
  signed_url_exp : option Z;
  zb_file_size_bytes : Z;
  image_count : Z;
}.

Inductive notification_type :=
  | job_completed | job_failed | credits_low | credits_depleted
  | subscription_renewed | subscription_cancelled | churn_discount_offered.

(** [notifications]; the title and body texts are left out. *)
Record notification := mk_notification {
  n_user_id : uuid;
  n_type : notification_type;
  n_job_id : option uuid;
}.

(** The database: rows of [profiles], [processing_jobs] and
    [processed_images] by primary key, append-only tables as lists in
    creation order.  [zip_bundles] is kept as what
    [.eq('job_id', id).single()] finds in it, the row of a job that has
    exactly one: the table is only read that way, and no statement of the
    repository succeeds in writing it (see [upsert_zip_bundle]). *)
Record Db := mk_db {
  profiles : gmap N profile;
  credit_transactions : list credit_transaction;
  processing_jobs : gmap N processing_job;
  processed_images : gmap N processed_image;
  zip_bundles : gmap N zip_bundle;
  notifications : list notification;
  stripe_events : gset string;
}.

Definition set_profiles (f : gmap N profile → gmap N profile) (db : Db) : Db :=
  mk_db (f (profiles db)) (credit_transactions db) (processing_jobs db)
        (processed_images db) (zip_bundles db) (notifications db)
        (stripe_events db).

Definition set_credit_transactions
    (f : list credit_transaction → list credit_transaction) (db : Db) : Db :=
  mk_db (profiles db) (f (credit_transactions db)) (processing_jobs db)
        (processed_images db) (zip_bundles db) (notifications db)
        (stripe_events db).

Definition set_processing_jobs
    (f : gmap N processing_job → gmap N processing_job) (db : Db) : Db :=
  mk_db (profiles db) (credit_transactions db) (f (processing_jobs db))
        (processed_images db) (zip_bundles db) (notifications db)
        (stripe_events db).

Definition set_processed_images
    (f : gmap N processed_image → gmap N processed_image) (db : Db) : Db :=
  mk_db (profiles db) (credit_transactions db) (processing_jobs db)
        (f (processed_images db)) (zip_bundles db) (notifications db)
        (stripe_events db).

Definition set_zip_bundles
    (f : gmap N zip_bundle → gmap N zip_bundle) (db : Db) : Db :=
  mk_db (profiles db) (credit_transactions db) (processing_jobs db)
        (processed_images db) (f (zip_bundles db)) (notifications db)
        (stripe_events db).

Definition set_notifications
    (f : list notification → list notification) (db : Db) : Db :=
  mk_db (profiles db) (credit_transactions db) (processing_jobs db)
        (processed_images db) (zip_bundles db) (f (notifications db))
        (stripe_events db).

Definition set_stripe_events (f : gset string → gset string) (db : Db) : Db :=
  mk_db (profiles db) (credit_transactions db) (processing_jobs db)
        (processed_images db) (zip_bundles db) (notifications db)
        (f (stripe_events db)).

(** ** Credit functions of the schema *)

(** What [supabase.rpc] hands back: [data], or an error with [data] null. *)
Inductive rpc_result (A : Type) :=
  | rpc_error
  | rpc_data (a : A).
Arguments rpc_error {A}.
Arguments rpc_data {A} a.

(** JavaScript truthiness of the [data] field of a boolean RPC. *)
Definition truthy (r : rpc_result bool) : bool :=
  match r with rpc_data true => true | _ => false end.

(** [get_available_credits(p_user_id)]: no row, no result. *)
Definition get_available_credits (db : Db) (p_user_id : uuid) : option Z :=
  p ← profiles db !! p_user_id;
  Some (monthly_credits p + topup_credits p).

(** [deduct_credits(p_user_id, p_amount)], one transaction.  Without a
    profile row the [SELECT ... INTO] leaves NULLs, the comparison is not
    true and the final [INSERT] breaks [balance_after NOT NULL]: the call
    fails and changes nothing. *)
Definition deduct_credits (db : Db) (p_user_id : uuid) (p_amount : Z)
  : rpc_result bool * Db :=
  match profiles db !! p_user_id with
  | None => (rpc_error, db)
  | Some p =>
      let v_monthly := monthly_credits p in
      let v_topup := topup_credits p in
      if v_monthly + v_topup <? p_amount then (rpc_data false, db)
      else
        let v_deduct_monthly := Z.min p_amount v_monthly in
        let v_deduct_topup := p_amount - v_deduct_monthly in
        let p' := mk_profile (plan p)
                    (monthly_credits p - v_deduct_monthly)
                    (topup_credits p - v_deduct_topup)
                    (credits_used_cycle p + p_amount) in
        let v_balance_after :=
          (v_monthly - v_deduct_monthly) + (v_topup - v_deduct_topup) in
        let db1 := set_profiles (insert p_user_id p') db in
        let db2 := set_credit_transactions
                     (λ l, l ++ [mk_tx p_user_id (- p_amount) v_balance_after
                                       job_charge None]) db1 in
        (rpc_data true, db2)
  end.

(** ** Stripe webhook: credit grants

    [PLAN_CREDITS] and [TOPUP_CREDITS] with the default price ids (the
    environment can rename the keys, not the amounts). *)

Record plan_config := mk_plan_config { pc_plan : plan_type; monthly : Z }.

Definition PLAN_CREDITS (priceId : string) : option plan_config :=
  if decide (priceId = "price_starter") then Some (mk_plan_config starter 20)
  else if decide (priceId = "price_pro") then Some (mk_plan_config pro 100)
  else if decide (priceId = "price_agency") then Some (mk_plan_config agency 500)
  else None.

Definition TOPUP_CREDITS (priceId : string) : option Z :=
  if decide (priceId = "price_topup_10") then Some 10
  else if decide (priceId = "price_topup_50") then Some 50
  else if decide (priceId = "price_topup_100") then Some 100
  else None.

(** A delivery to the route: the event with the fields the route reads
    and what the Stripe API answers while it is handled.  For an invoice,
    [inv_price] and [inv_user] come from the subscription that
    [stripe.subscriptions.retrieve] returns;
    [invoice_subscription_unavailable] is an invoice during whose handling
    that call rejects.  Two deliveries of one event carry the same
    [event_id]; what the API answers may differ between them. *)
Inductive stripe_event_object :=
  | invoice_payment_succeeded (billing_reason : string)
      (inv_price : option string) (inv_user : option uuid) (invoice_id : string)
  | checkout_session_completed (mode : string) (cs_user : option uuid)
      (cs_price : option string) (payment_intent : string)
  | customer_subscription_deleted (sub_user : option uuid)
  | unhandled_event
  | invoice_subscription_unavailable (billing_reason : string).

Record stripe_event := mk_event {
  event_id : string;
  event_object : stripe_event_object;
}.

(** [case 'invoice.payment_succeeded']: the monthly balance is set to the
    plan's grant and the cycle usage to 0.  Without a profile row the
    update matches nothing and the inserts break their foreign key. *)
Definition grant_monthly (db : Db) (userId : uuid) (config : plan_config)
    (invoice_id : string) : Db :=
  match profiles db !! userId with
  | None => db
  | Some p =>
      let p' := mk_profile (pc_plan config) (monthly config)
                           (topup_credits p) 0 in
      let db1 := set_profiles (insert userId p') db in
      let db2 := set_credit_transactions
                   (λ l, l ++ [mk_tx userId (monthly config) (monthly config)
                                     monthly_grant (Some invoice_id)]) db1 in
      set_notifications
        (λ l, l ++ [mk_notification userId subscription_renewed None]) db2
  end.

(** [case 'checkout.session.completed']: a top-up adds to [topup_credits]. *)
Definition grant_topup (db : Db) (userId : uuid) (credits : Z)
    (payment_intent : string) : Db :=
  match profiles db !! userId with
  | None => db
  | Some p =>
      let newTopup := topup_credits p + credits in
      let newBalance := monthly_credits p + newTopup in
      let p' := mk_profile (plan p) (monthly_credits p) newTopup
                           (credits_used_cycle p) in
      let db1 := set_profiles (insert userId p') db in
      let db2 := set_credit_transactions
                   (λ l, l ++ [mk_tx userId credits newBalance
                                     topup_purchase (Some payment_intent)]) db1 in
      set_notifications
        (λ l, l ++ [mk_notification userId subscription_renewed None]) db2
  end.

(** [case 'customer.subscription.deleted']: back to the free plan. *)
Definition subscription_deleted (db : Db) (userId : uuid) : Db :=
  match profiles db !! userId with
  | None => db
  | Some p =>
      let p' := mk_profile free 3 (topup_credits p) 0 in
      let db1 := set_profiles (insert userId p') db in
      set_notifications
        (λ l, l ++ [mk_notification userId churn_discount_offered None]) db1
  end.

Definition handle_event (db : Db) (o : stripe_event_object) : Db :=
  match o with
  | invoice_payment_succeeded reason price user invoice =>
      if bool_decide (reason = "subscription_create")
         || bool_decide (reason = "subscription_cycle")
      then
        match price ≫= PLAN_CREDITS, user with
        | Some config, Some userId => grant_monthly db userId config invoice
        | _, _ => db
        end
      else db
  | checkout_session_completed mode user price intent =>
      if bool_decide (mode = "payment") then
        match user, price with
        | Some userId, Some priceId =>
            match TOPUP_CREDITS priceId with
            | Some credits => grant_topup db userId credits intent
            | None => db
            end
        | _, _ => db
        end
      else db
  | customer_subscription_deleted user =>
      match user with
      | Some userId => subscription_deleted db userId
      | None => db
      end
  | unhandled_event => db
  | invoice_subscription_unavailable _ => db
  end.

(** Whether the [switch] throws.  Inside the [try] only the call of the
    Stripe API can: [stripe.subscriptions.retrieve], the first statement
    of the invoice case for the two billing reasons, before any write
    (what it returns has the fields of a [Stripe.Subscription], so the
    expressions built from them do not throw). *)
Definition handling_throws (o : stripe_event_object) : bool :=
  match o with
  | invoice_subscription_unavailable reason =>
      bool_decide (reason = "subscription_create")
      || bool_decide (reason = "subscription_cycle")
  | _ => false
  end.

(** The route after signature verification.  An event already in
    [stripe_events] is skipped.  Any other is handled and then recorded,
    both inside the [try]: when the handling throws, the [catch] answers
    500 and the event is not recorded. *)
Definition stripe_POST (db : Db) (event : stripe_event) : Db :=
  if decide (event_id event ∈ stripe_events db) then db
  else if handling_throws (event_object event) then db
  else set_stripe_events (λ s, {[event_id event]} ∪ s)
         (handle_event db (event_object event)).

(** ** Batch status synchronisation: [sync_job_completion] *)

(** The states of the trigger's [WHEN] clause. *)
Definition item_terminal (s : job_status) : bool :=
  match s with completed | failed => true | _ => false end.

(** The trigger function, for the updated row [NEW] at time [now]: one
    [SELECT ... INTO], then one [UPDATE] per [IF].  In the [SET] list of an
    [UPDATE] a column name is the row's value before the statement. *)
Definition sync_job_completion (now : Z) (NEW : processed_image) (db : Db)
  : Db :=
  match processing_jobs db !! job_id NEW with
  | None => db
  | Some j0 =>
      let v_total := total_images j0 in
      let v_completed := completed_count j0 in
      let v_failed := failed_count j0 in
      let db1 :=
        if decide (img_status NEW = completed) then
          set_processing_jobs
            (alter (λ j,
               let hit := bool_decide (completed_count j + 1 + v_failed = v_total) in
               mk_job (job_user_id j) (total_images j)
                      (completed_count j + 1) (failed_count j)
                      (if hit then completed else status j)
                      (credits_charged j) (started_at j)
                      (if hit then Some now else completed_at j)
                      (error_message j))
               (job_id NEW)) db
        else db in
      if decide (img_status NEW = failed) then
        set_processing_jobs
          (alter (λ j,
             let hit := bool_decide (v_completed + failed_count j + 1 = v_total) in
             mk_job (job_user_id j) (total_images j)
                    (completed_count j) (failed_count j + 1)
                    (if hit then completed else status j)
                    (credits_charged j) (started_at j)
                    (if hit then Some now else completed_at j)
                    (error_message j))
             (job_id NEW)) db1
      else db1
  end.

(** [trg_sync_job_on_image_complete]: [AFTER UPDATE OF status], for a row
    that enters a terminal state from a state that is not terminal. *)
Definition trigger_fires (OLD NEW : processed_image) : bool :=
  item_terminal (img_status NEW) && negb (item_terminal (img_status OLD)).

(** The four [update({...})] literals that the worker sends for an image. *)
Inductive image_update :=
  | upd_start
  | upd_progress (pct : option Z)
  | upd_completed (outputPath : string) (byteLength : Z)
      (signedUrl : option string) (exp : Z)
  | upd_failed (message : string).

Definition sets_status (u : image_update) : bool :=
  match u with upd_progress _ => false | _ => true end.

Definition apply_image_update (u : image_update) (r : processed_image)
  : processed_image :=
  match u with
  | upd_start =>
      mk_image (job_id r) (img_user_id r) (original_path r)
        (original_filename r) (output_path r) (file_size_bytes r)
        processing (position r) (Some 5)
        (output_signed_url r) (output_signed_url_exp r) (img_error_message r)
  | upd_progress pct =>
      mk_image (job_id r) (img_user_id r) (original_path r)
        (original_filename r) (output_path r) (file_size_bytes r)
        (img_status r) (position r) pct
        (output_signed_url r) (output_signed_url_exp r) (img_error_message r)
  | upd_completed outputPath byteLength signedUrl exp =>
      mk_image (job_id r) (img_user_id r) (original_path r)
        (original_filename r) (Some outputPath) (Some byteLength)
        completed (position r) (Some 100)
        signedUrl (Some exp) (img_error_message r)
  | upd_failed message =>
      mk_image (job_id r) (img_user_id r) (original_path r)
        (original_filename r) (output_path r) (file_size_bytes r)
        failed (position r) (progress_pct r)
        (output_signed_url r) (output_signed_url_exp r) (Some message)
  end.

(** [CHECK (progress_pct BETWEEN 0 AND 100)]; NULL passes a check. *)
Definition progress_check (r : processed_image) : bool :=
  match progress_pct r with
  | None => true
  | Some v => (0 <=? v) && (v <=? 100)
  end.

(** [db.from('processed_images').update(u).eq('id', id)]: a statement that
    breaks the check changes nothing; otherwise the row is replaced and
    the trigger runs when the statement sets [status]. *)
Definition update_processed_image (now : Z) (id : uuid) (u : image_update)
    (db : Db) : Db :=
  match processed_images db !! id with
  | None => db
  | Some OLD =>
      let NEW := apply_image_update u OLD in
      if progress_check NEW then
        let db1 := set_processed_images (insert id NEW) db in
        if sets_status u && trigger_fires OLD NEW
        then sync_job_completion now NEW db1
        else db1
      else db
  end.

(** ** Batch submission: [POST /api/process] *)

Definition MAX_FILES : Z := 20.
Definition MAX_FILE_SIZE_MB : Z := 50.
Definition ACCEPTED_TYPES : list string :=
  ["image/jpeg"; "image/jpg"; "image/png"; "image/webp"; "image/heic"].
Definition VIBE_KEYS : list string := ["natural_light"; "studio_light"].
Definition ASPECT_RATIO_KEYS : list string :=
  ["AUTO"; "1:1"; "3:4"; "4:3"; "4:5"; "5:4"; "9:16"; "16:9"; "2:3"; "3:2"].

Record file := mk_file { f_name : string; f_type : string; f_size : Z }.

(** What the route gets from outside the database: the storage answer for
    each upload (by index) and the keys the database generates. *)
Record process_env := mk_process_env {
  upload_error : nat → bool;
  new_job_id : uuid;
  new_image_id : nat → uuid;
}.

Inductive process_response :=
  | process_error (http_status : Z) (error : string)
  | process_ok (jobId : uuid) (creditsCharged : Z).

(** [file.name.split('.').pop().toLowerCase()], on ASCII names. *)
Fixpoint last_segment (acc s : string) : string :=
  match s with
  | EmptyString => acc
  | String c s' =>
      if Ascii.eqb c "."%char then last_segment EmptyString s'
      else last_segment (acc +:+ String c EmptyString) s'
  end.

Definition lower_ascii (c : Ascii.ascii) : Ascii.ascii :=
  let n := Ascii.N_of_ascii c in
  if ((65 <=? n) && (n <=? 90))%N then Ascii.ascii_of_N (n + 32) else c.

Fixpoint toLowerCase (s : string) : string :=
  match s with
  | EmptyString => EmptyString
  | String c s' => String (lower_ascii c) (toLowerCase s')
  end.

Definition upload_path (user job : uuid) (i : nat) (f : file) : string :=
  "uploads/" +:+ pretty user +:+ "/" +:+ pretty job +:+ "/original_"
    +:+ pretty (i + 1)%nat +:+ "." +:+ toLowerCase (last_segment EmptyString (f_name f)).

(** One element of [uploadResults]. *)
Record upload_result := mk_upload_result {
  ur_path : string;
  ur_filename : string;
  ur_error : bool;
  ur_position : Z;
}.

(** The validation loop: the first offending file decides the answer. *)
Fixpoint validate_files (files : list file) : option process_response :=
  match files with
  | [] => None
  | f :: rest =>
      if negb (bool_decide (f_type f ∈ ACCEPTED_TYPES)) then
        Some (process_error 400 ("Unsupported file type: " +:+ f_type f))
      else if MAX_FILE_SIZE_MB * 1024 * 1024 <? f_size f then
        Some (process_error 400 (f_name f +:+ " exceeds 50 MB."))
      else validate_files rest
  end.

(** The bulk [insert] of step 8: a key that is taken, or repeated, breaks
    the primary key and nothing is inserted. *)
Definition insert_images (rows : list (uuid * processed_image)) (db : Db)
  : Db :=
  if bool_decide (NoDup rows.*1)
     && bool_decide (Forall (λ k, processed_images db !! k = None) rows.*1)
  then set_processed_images (λ m, list_to_map rows ∪ m) db
  else db.

Definition set_job_status (s : job_status) (j : processing_job)
  : processing_job :=
  mk_job (job_user_id j) (total_images j) (completed_count j)
         (failed_count j) s (credits_charged j) (started_at j)
         (completed_at j) (error_message j).

Definition set_total_images (n : Z) (j : processing_job) : processing_job :=
  mk_job (job_user_id j) n (completed_count j) (failed_count j) (status j)
         (credits_charged j) (started_at j) (completed_at j)
         (error_message j).

(** The handler, steps 1 to 9.  The dispatch of step 9 is a separate
    invocation of the worker route with the returned [jobId]. *)
Definition process_POST (env : process_env) (user : option uuid)
    (files : list file) (vibe ratio : string) (db : Db)
  : process_response * Db :=
  match user with
  | None => (process_error 401 "Unauthorized", db)
  | Some user_id =>
  let n := Z.of_nat (length files) in
  if (n =? 0) || (MAX_FILES <? n) then
    (process_error 400 "Submit between 1 and 20 images.", db)
  else
  match validate_files files with
  | Some r => (r, db)
  | None =>
  if negb (bool_decide (vibe ∈ VIBE_KEYS)) then
    (process_error 400 "Invalid vibe.", db)
  else if negb (bool_decide (ratio ∈ ASPECT_RATIO_KEYS)) then
    (process_error 400 "Invalid aspect ratio.", db)
  else
  let profile := profiles db !! user_id in
  let available := default 0 (monthly_credits <$> profile)
                   + default 0 (topup_credits <$> profile) in
  if available <? n then
    (process_error 402
       ("Insufficient credits. You have " +:+ pretty available
        +:+ ", need " +:+ pretty n +:+ "."), db)
  else
  let '(deducted, db1) := deduct_credits db user_id n in
  if negb (truthy deducted) then
    (process_error 402 "Credit deduction failed.", db1)
  else
  match processing_jobs db1 !! new_job_id env with
  | Some _ => (process_error 500 "Failed to create job.", db1)
  | None =>
  let job_id := new_job_id env in
  let db2 := set_processing_jobs
               (insert job_id (mk_job user_id n 0 0 queued n None None None))
               db1 in
  let uploadResults :=
    imap (λ i f, mk_upload_result (upload_path user_id job_id i f) (f_name f)
                   (upload_error env i) (Z.of_nat i + 1)) files in
  let failedUploads := filter (λ r, ur_error r = true) uploadResults in
  if bool_decide (length failedUploads = length files) then
    (process_error 500 "All uploads failed. Credits refunded.",
     set_processing_jobs (alter (set_job_status failed) job_id) db2)
  else
  let successUploads := filter (λ r, ur_error r = false) uploadResults in
  let db3 :=
    insert_images
      (imap (λ k u, (new_image_id env k,
                     mk_image job_id user_id (ur_path u) (ur_filename u)
                       None None queued (ur_position u) (Some 0)
                       None None None)) successUploads) db2 in
  let db4 :=
    if bool_decide (0 < length failedUploads)%nat then
      set_processing_jobs
        (alter (set_total_images (Z.of_nat (length successUploads))) job_id) db3
    else db3 in
  (process_ok job_id (Z.of_nat (length successUploads)), db4)
  end end end.

(** ** JavaScript numbers used by the worker *)

(** An integer below 2^53 in absolute value as a binary64 number. *)
Definition number_of_Z (z : Z) : float :=
  if 0 <=? z then of_uint63 (Uint63.of_Z z)
  else (- of_uint63 (Uint63.of_Z (- z)))%float.

(** [Math.round]: the closest integer, a tie going towards +∞; NaN, the
    infinities and integers are returned as they are.  (A result of -0 is
    returned as +0; the worker only adds it to 40.) *)
Definition Math_round (x : float) : float :=
  match Prim2SF x with
  | S754_finite s m e =>
      if 0 <=? e then x
      else
        let k := 2 ^ (- e) in
        number_of_Z (if s then (k - 2 * Z.pos m) / (2 * k)
                     else (2 * Z.pos m + k) / (2 * k))
  | _ => x
  end.

(** [Math.min] of two numbers. *)
Definition Math_min (a b : float) : float :=
  if is_nan a || is_nan b then nan
  else if (b <? a)%float then b else a.

(** The value of a JSON number bound for an integer column: NaN and the
    infinities are serialised as [null].  The numbers sent below are
    integers. *)
Definition json_int (x : float) : option Z :=
  match Prim2SF x with
  | S754_zero _ => Some 0
  | S754_finite s m e =>
      let v := if 0 <=? e then Z.pos m * 2 ^ e else Z.pos m / 2 ^ (- e) in
      Some (if s then - v else v)
  | _ => None
  end.

(** ** The worker: [pollNanoBanana] and [processImage] *)

(** A poll response body ([NanoBananaProcessResponse]). *)
Record poll_body := mk_poll_body {
  nb_status : string;
  nb_progress : option float;
  nb_output_url : option string;
  nb_error : option string;
}.

(** One [fetch] of the poll URL: it rejects, or answers with [res.ok]
    false, or answers with a body. *)
Inductive poll_event :=
  | poll_throws (message : string)
  | poll_not_ok
  | poll_ok (data : poll_body).

(** Truthiness of an optional string: [undefined], [null] and the empty
    string are falsy. *)
Definition js_truthy (o : option string) : bool :=
  match o with
  | Some s => negb (bool_decide (s = EmptyString))
  | None => false
  end.

(** [Math.min(74, 40 + Math.round((data.progress ?? i / maxAttempts * 100) * 0.35))];
    the literal [0.35] is the binary64 number 0x1.6666666666666p-2. *)
Definition poll_progress (progress : option float) (i maxAttempts : nat)
  : option Z :=
  let fallback :=
    (number_of_Z (Z.of_nat i) / number_of_Z (Z.of_nat maxAttempts) * 100)%float in
  let progressPct :=
    (40 + Math_round (default fallback progress * 0x1.6666666666666p-2))%float in
  json_int (Math_min 74 progressPct).

(** What a run of the polling loop leaves behind: the updates sent, the
    number of iterations begun, the time slept, and either the returned
    output URL or the message of the thrown error. *)
Record poll_outcome := mk_poll_outcome {
  poll_updates : list image_update;
  poll_attempts : nat;
  poll_slept_ms : Z;
  poll_result : string + string;
}.

Definition poll_step (u : list image_update) (intervalMs : Z)
    (o : poll_outcome) : poll_outcome :=
  mk_poll_outcome (u ++ poll_updates o) (S (poll_attempts o))
                  (intervalMs + poll_slept_ms o) (poll_result o).

(** The [for] loop from index [i] with [left] iterations to go. *)
Fixpoint poll_loop (polls : nat → poll_event) (maxAttempts : nat)
    (intervalMs : Z) (left i : nat) : poll_outcome :=
  match left with
  | O => mk_poll_outcome [] 0 0 (inr "Nano Banana processing timed out")
  | S left' =>
      match polls i with
      | poll_throws message =>
          mk_poll_outcome [] 1 intervalMs (inr message)
      | poll_not_ok =>
          poll_step [] intervalMs
            (poll_loop polls maxAttempts intervalMs left' (S i))
      | poll_ok data =>
          let u := upd_progress (poll_progress (nb_progress data) i maxAttempts) in
          if bool_decide (nb_status data = "completed")
             && js_truthy (nb_output_url data)
          then mk_poll_outcome [u] 1 intervalMs
                 (inl (default EmptyString (nb_output_url data)))
          else if bool_decide (nb_status data = "failed")
          then mk_poll_outcome [u] 1 intervalMs
                 (inr (default "Nano Banana processing failed" (nb_error data)))
          else poll_step [u] intervalMs
                 (poll_loop polls maxAttempts intervalMs left' (S i))
      end
  end.

(** [pollNanoBanana] with its default [maxAttempts = 60] and
    [intervalMs = 5000]. *)
Definition pollNanoBanana (polls : nat → poll_event) : poll_outcome :=
  poll_loop polls 60 5000 60 0.
Arguments pollNanoBanana : simpl never.

(** A [fetch] whose body the worker reads. *)
Inductive fetch_result (A : Type) :=
  | fetch_throws (message : string)
  | fetch_not_ok (http_status : Z) (text : string)
  | fetch_ok (a : A).
Arguments fetch_throws {A} message.
Arguments fetch_not_ok {A} http_status text.
Arguments fetch_ok {A} a.

(** The outside answers while one image is processed.  The body of the
    submit response is read after the update to 40: [inl] is [nbData.id],
    [inr] the message of a [json()] that rejects. *)
Record image_env := mk_image_env {
  sign_original : option string;
  submit : fetch_result (string + string);
  polls : nat → poll_event;
  output_fetch : fetch_result Z;
  storeErr : option string;
  dlSigned : option string;
  date_now : Z;
}.

Definition output_path_of (user job : uuid) (position : Z) : string :=
  "outputs/" +:+ pretty user +:+ "/" +:+ pretty job +:+ "/enhanced_"
    +:+ pretty position +:+ ".jpg".

(** [processImage]: the updates it sends for its image, in order.  Every
    [throw] inside the [try] ends in the [catch], which sends the
    [failed] update. *)
Definition processImage (env : image_env) (user job : uuid) (position : Z)
  : list image_update :=
  upd_start ::
  if negb (js_truthy (sign_original env)) then
    [upd_failed "Could not sign original URL"]
  else
    upd_progress (Some 15) ::
    match submit env with
    | fetch_throws message => [upd_failed message]
    | fetch_not_ok st errText =>
        [upd_failed ("Nano Banana API error " +:+ pretty st +:+ ": " +:+ errText)]
    | fetch_ok (inr message) => [upd_progress (Some 40); upd_failed message]
    | fetch_ok (inl externalId) =>
        upd_progress (Some 40) ::
        let o := pollNanoBanana (polls env) in
        poll_updates o ++
        match poll_result o with
        | inr message => [upd_failed message]
        | inl outputUrl =>
            upd_progress (Some 75) ::
            match output_fetch env with
            | fetch_throws message => [upd_failed message]
            | fetch_not_ok _ _ =>
                [upd_failed "Failed to fetch Nano Banana output"]
            | fetch_ok byteLength =>
                match storeErr env with
                | Some message =>
                    [upd_failed ("Storage upload failed: " +:+ message)]
                | None =>
                    [upd_completed (output_path_of user job position)
                       byteLength (dlSigned env)
                       (date_now env + 86400 * 1000)]
                end
            end
        end
    end.

(** The [progress_pct] values of a run of updates, in order. *)
Definition progress_written (u : image_update) : option (option Z) :=
  match u with
  | upd_start => Some (Some 5)
  | upd_progress pct => Some pct
  | upd_completed _ _ _ _ => Some (Some 100)
  | upd_failed _ => None
  end.

Definition progress_values (us : list image_update) : list (option Z) :=
  omap progress_written us.

(** ** The worker route: [POST /api/worker] *)

Record worker_env := mk_worker_env {
  worker_now : Z;
  image_envs : uuid → image_env;
}.

Inductive worker_response :=
  | worker_error (http_status : Z) (error : string)
  | worker_ok (completed_n failed_n : Z).

(** [.order('position')] on rows with their keys. *)
Definition by_position (a b : uuid * processed_image) : Prop :=
  position a.2 ≤ position b.2.

#[global] Instance by_position_dec : RelDecision by_position.
Proof. intros a b. unfold by_position. apply _. Defined.

(** [.eq('job_id', jobId).order('position')]. *)
Definition job_images (db : Db) (jobId : uuid)
  : list (uuid * processed_image) :=
  merge_sort by_position
    (filter (λ kr, job_id kr.2 = jobId) (map_to_list (processed_images db))).

(** The updates of one [processImage] call, sent one after the other. *)
Definition run_image_updates (now : Z) (id : uuid) (us : list image_update)
    (db : Db) : Db :=
  foldl (λ d u, update_processed_image now id u d) db us.

Definition mark_processing (now : Z) (j : processing_job) : processing_job :=
  mk_job (job_user_id j) (total_images j) (completed_count j)
         (failed_count j) processing (credits_charged j) (Some now)
         (completed_at j) (error_message j).

Definition mark_no_images (j : processing_job) : processing_job :=
  mk_job (job_user_id j) (total_images j) (completed_count j)
         (failed_count j) failed (credits_charged j) (started_at j)
         (completed_at j) (Some "No images found").

(** The [for (const img of images)] loop over the rows loaded before it. *)
Definition process_images (env : worker_env) (user jobId : uuid)
    (images : list (uuid * processed_image)) (db : Db) : Db :=
  foldl (λ d img,
           run_image_updates (worker_now env) img.1
             (processImage (image_envs env img.1) user jobId (position img.2))
             d)
        db images.

Definition worker_POST (env : worker_env) (authorized : bool)
    (jobId : option uuid) (db : Db) : worker_response * Db :=
  if negb authorized then (worker_error 403 "Forbidden", db)
  else
  match jobId with
  | None => (worker_error 400 "jobId required", db)
  | Some jobId =>
  match processing_jobs db !! jobId with
  | None => (worker_error 404 "Job not found", db)
  | Some job =>
      let db1 := set_processing_jobs
                   (alter (mark_processing (worker_now env)) jobId) db in
      let images := job_images db1 jobId in
      if bool_decide (images = []) then
        (worker_error 400 "No images",
         set_processing_jobs (alter mark_no_images jobId) db1)
      else
        let db2 := process_images env (job_user_id job) jobId images db1 in
        let finalJob := processing_jobs db2 !! jobId in
        let completedCount := default 0 (completed_count <$> finalJob) in
        let failedCount := default 0 (failed_count <$> finalJob) in
        let db3 :=
          set_notifications
            (λ l, l ++ [mk_notification (job_user_id job)
                          (if 0 <? completedCount then job_completed
                           else job_failed)
                          (Some jobId)]) db2 in
        (worker_ok completedCount failedCount, db3)
  end end.

(** The batch states the specification calls terminal. *)
Definition batch_terminal (s : job_status) : bool :=
  match s with completed | failed | cancelled => true | _ => false end.

(** ** The bundle route: [POST /api/jobs/[id]/zip] *)

Abbreviation buffer := string (only parsing).

(** The outside answers while a bundle is built: per image the signed URL
    and the download, then the size of the generated ZIP, the upload to
    the [zips] bucket and its signed URL. *)
Record zip_env := mk_zip_env {
  zip_now : Z;
  outputs_signed : uuid → option string;
  output_res : uuid → fetch_result buffer;
  generateAsync : gmap string buffer → Z;
  uploadErr : bool;
  zips_signed : option string;
}.

Inductive zip_response :=
  | zip_error (http_status : Z) (error : string)
  | zip_rejects (message : string)
  | zip_ok (signedUrl filename : string).

(** [String(n).padStart(2, '0')]. *)
Definition padStart2 (s : string) : string :=
  match s with
  | EmptyString => "00"
  | String c EmptyString => String "0"%char s
  | _ => s
  end.

Fixpoint no_dot (s : string) : bool :=
  match s with
  | EmptyString => true
  | String c s' => negb (Ascii.eqb c "."%char) && no_dot s'
  end.

(** The match of [/\.[^.]+$/] removed: [None] when there is no match. *)
Fixpoint strip_ext (s : string) : option string :=
  match s with
  | EmptyString => None
  | String c s' =>
      match strip_ext s' with
      | Some p => Some (String c p)
      | None =>
          if Ascii.eqb c "."%char
             && negb (bool_decide (s' = EmptyString)) && no_dot s'
          then Some EmptyString else None
      end
  end.

Definition zip_entry_name (img : processed_image) : string :=
  padStart2 (pretty (position img)) +:+ "_nomnom_"
    +:+ default (original_filename img) (strip_ext (original_filename img))
    +:+ "_4k.jpg".

Definition zip_filename (jobId : uuid) : string :=
  "nomnom-batch-" +:+ substring 0 8 (pretty jobId) +:+ ".zip".

(** The callback of [batch.map]: an image without a signed URL, or whose
    download answers with [res.ok] false, is skipped; [folder.file] files
    the buffer under its name, replacing an entry of the same name.  A
    [fetch] that rejects makes [Promise.all] reject. *)
Definition add_image (env : zip_env) (folder : gmap string buffer)
    (img : uuid * processed_image) : string + gmap string buffer :=
  if negb (js_truthy (outputs_signed env img.1)) then inr folder
  else
    match output_res env img.1 with
    | fetch_throws message => inl message
    | fetch_not_ok _ _ => inr folder
    | fetch_ok buf => inr (<[zip_entry_name img.2 := buf]> folder)
    end.

Definition add_batch (env : zip_env) (folder : string + gmap string buffer)
    (batch : list (uuid * processed_image)) : string + gmap string buffer :=
  foldl (λ acc img,
           match acc with
           | inl message => inl message
           | inr f => add_image env f img
           end) folder batch.

Definition BATCH_SIZE : nat := 5.

(** [images.slice(i, i + BATCH_SIZE)] for [i = 0, BATCH_SIZE, ...]. *)
Fixpoint slices {A} (fuel : nat) (l : list A) : list (list A) :=
  match fuel, l with
  | O, _ | _, [] => []
  | S fuel', _ => take BATCH_SIZE l :: slices fuel' (drop BATCH_SIZE l)
  end.

Definition build_zip (env : zip_env) (images : list (uuid * processed_image))
  : string + gmap string buffer :=
  foldl (add_batch env) (inr ∅) (slices (length images) images).

(** [.eq('job_id', jobId).eq('status', 'completed').order('position')]. *)
Definition completed_images (db : Db) (jobId : uuid)
  : list (uuid * processed_image) :=
  merge_sort by_position
    (filter (λ kr, job_id kr.2 = jobId ∧ img_status kr.2 = completed)
            (map_to_list (processed_images db))).

Definition cached_bundle (now : Z) (existing : option zip_bundle)
  : option string :=
  match existing with
  | Some b =>
      match signed_url b, signed_url_exp b with
      | Some url, Some expiry =>
          if js_truthy (Some url) && (now + 60000 <? expiry) then Some url
          else None
      | _, _ => None
      end
  | None => None
  end.

Definition zip_path (user jobId : uuid) : string :=
  "zips/" +:+ pretty user +:+ "/" +:+ pretty jobId +:+ "/bundle.zip".

(** [ON CONFLICT (job_id)] needs a unique index or constraint on the
    column.  The schema declares
    [job_id UUID NOT NULL REFERENCES processing_jobs(id)] on [zip_bundles],
    and neither a [UNIQUE] nor an index on it. *)
Definition zip_bundles_job_id_unique : bool := false.

(** [db.from('zip_bundles').upsert(row, { onConflict: 'job_id' })]:
    without the unique index PostgreSQL refuses the statement (error
    42P10) whatever the table holds, and the route does not look at the
    error. *)
Definition upsert_zip_bundle (jobId : uuid) (bundle : zip_bundle) (db : Db)
  : Db :=
  if zip_bundles_job_id_unique then set_zip_bundles (insert jobId bundle) db
  else db.

(** The result of the route: the response, the database, the archive
    uploaded to the [zips] bucket if one was, and the row of the upsert
    statement if the route sent one. *)
Record zip_result := mk_zip_result {
  zr_response : zip_response;
  zr_db : Db;
  zr_stored : option (gmap string buffer);
  zr_upsert : option zip_bundle;
}.

Definition zip_POST (env : zip_env) (user : option uuid) (jobId : uuid)
    (db : Db) : zip_result :=
  match user with
  | None => mk_zip_result (zip_error 401 "Unauthorized") db None None
  | Some user_id =>
  match processing_jobs db !! jobId with
  | None => mk_zip_result (zip_error 404 "Job not found") db None None
  | Some job =>
  if negb (bool_decide (job_user_id job = user_id)) then
    mk_zip_result (zip_error 404 "Job not found") db None None
  else if negb (bool_decide (status job = completed)) then
    mk_zip_result (zip_error 409 "Job not yet completed") db None None
  else
  match cached_bundle (zip_now env) (zip_bundles db !! jobId) with
  | Some url => mk_zip_result (zip_ok url (zip_filename jobId)) db None None
  | None =>
  let images := completed_images db jobId in
  if bool_decide (images = []) then
    mk_zip_result (zip_error 404 "No completed images found") db None None
  else
  match build_zip env images with
  | inl message => mk_zip_result (zip_rejects message) db None None
  | inr folder =>
  let byteLength := generateAsync env folder in
  let zipPath := zip_path user_id jobId in
  if uploadErr env then
    mk_zip_result (zip_error 500 "Failed to store ZIP") db None None
  else
  match zips_signed env with
  | Some url =>
      if js_truthy (Some url) then
        let bundle := mk_bundle user_id zipPath (Some url)
                        (Some (zip_now env + 3600 * 1000)) byteLength
                        (Z.of_nat (length images)) in
        mk_zip_result (zip_ok url (zip_filename jobId))
          (upsert_zip_bundle jobId bundle db) (Some folder) (Some bundle)
      else mk_zip_result (zip_error 500 "Failed to create signed URL") db
             (Some folder) None
  | None => mk_zip_result (zip_error 500 "Failed to create signed URL") db
              (Some folder) None
  end end end end end.

(** ** Vocabulary of the ledger properties *)

(** The available balance of a user's wallet (0 without a profile). *)
Definition wallet_balance (db : Db) (u : uuid) : Z :=
  default 0 (get_available_credits db u).

(** The user's ledger entries, oldest first, and their signed total. *)
Definition ledger_of (db : Db) (u : uuid) : list credit_transaction :=
  filter (λ e, tx_user_id e = u) (credit_transactions db).

Definition ledger_sum (db : Db) (u : uuid) : Z :=
  foldr (λ e acc, amount e + acc) 0 (ledger_of db u).

(** Replaying entries from the balance [b]: every [balance_after] must be
    the balance before it plus the entry's amount; the result is the
    balance after the last entry. *)
Fixpoint replay (b : Z) (es : list credit_transaction) : option Z :=
  match es with
  | [] => Some b
  | e :: es' =>
      if bool_decide (b + amount e = balance_after e)
      then replay (balance_after e) es' else None
  end.

(** The operations on one wallet that the routes offer: the charge of a
    batch submission, and the two grants of the Stripe webhook. *)
Inductive wallet_op :=
  | op_charge (p_amount : Z)
  | op_monthly_grant (priceId invoice_id : string)
  | op_topup (priceId payment_intent : string).

Definition apply_op (u : uuid) (db : Db) (op : wallet_op) : Db :=
  match op with
  | op_charge p_amount => (deduct_credits db u p_amount).2
  | op_monthly_grant priceId invoice_id =>
      handle_event db
        (invoice_payment_succeeded "subscription_cycle" (Some priceId)
           (Some u) invoice_id)
  | op_topup priceId payment_intent =>
      handle_event db
        (checkout_session_completed "payment" (Some u) (Some priceId)
           payment_intent)
  end.

Definition run_ops (u : uuid) (ops : list wallet_op) (db : Db) : Db :=
  foldl (apply_op u) db ops.

Definition is_monthly_grant (op : wallet_op) : bool :=
  match op with op_monthly_grant _ _ => true | _ => false end.

(** A database with one new user: the defaults of [profiles]. *)
Definition fresh_db (u : uuid) : Db :=
  mk_db {[u := mk_profile free 0 0 0]} [] ∅ ∅ ∅ [] ∅.

(** A wallet with given balances and an empty ledger. *)
Definition wallet_db (u : uuid) (m t : Z) : Db :=
  mk_db {[u := mk_profile free m t 0]} [] ∅ ∅ ∅ [] ∅.

(** The range of an SQL [INT]. *)
Definition int4 (z : Z) : Prop := -2147483648 ≤ z ≤ 2147483647.

(** Both balances of the user's wallet are non-negative. *)
Definition wallet_nonneg (u : uuid) (db : Db) : Prop :=
  ∃ p, profiles db !! u = Some p
       ∧ 0 ≤ monthly_credits p ∧ 0 ≤ topup_credits p.

(** ** Vocabulary of the batch properties *)

(** The synchronisation as the specification words it: the counter of
    the item's terminal state goes up by one and the batch is completed,
    and stamped, when the counters then add up to [total_images]. *)
Definition count_item (now : Z) (s : job_status) (j : processing_job)
  : processing_job :=
  let cc := completed_count j + (if decide (s = completed) then 1 else 0) in
  let fc := failed_count j + (if decide (s = failed) then 1 else 0) in
  let hit := bool_decide (cc + fc = total_images j) in
  mk_job (job_user_id j) (total_images j) cc fc
         (if hit then completed else status j)
         (credits_charged j) (started_at j)
         (if hit then Some now else completed_at j)
         (error_message j).

(** ** Vocabulary of the polling properties *)

(** A response that ends the polling loop. *)
Definition terminal_response (data : poll_body) : bool :=
  bool_decide (nb_status data = "completed") && js_truthy (nb_output_url data)
  || bool_decide (nb_status data = "failed").

(** A poll after which the loop goes on: a provider response, with
    [res.ok] false or with a body that is not terminal. *)
Definition keeps_waiting (e : poll_event) : bool :=
  match e with
  | poll_throws _ => false
  | poll_not_ok => true
  | poll_ok data => negb (terminal_response data)
  end.

(** Order of two written values; a NULL is not compared. *)
Definition progress_le (a b : option Z) : Prop :=
  match a, b with
  | Some x, Some y => x ≤ y
  | _, _ => True
  end.

(** Every written value is at most every later one. *)
Definition nondecreasing (l : list (option Z)) : Prop :=
  StronglySorted progress_le l.

(** The value written at attempt [i] when no progress is reported. *)
Definition fallback_pct (i : nat) : Z := default 0 (poll_progress None i 60).

(** The row an update leaves behind: the updated row if it passes the
    check, the old row if the statement is refused. *)
Definition step_row (r : processed_image) (u : image_update)
  : processed_image :=
  if progress_check (apply_image_update u r) then apply_image_update u r
  else r.

(** The check run over the sixty fall-back values: each lies between 40
    and 74 and is at most the next one. *)
Definition fallback_ok (i : nat) : bool :=
  match poll_progress None i 60 with
  | Some v => (40 <=? v) && (v <=? 74) && (v <=? fallback_pct (S i))
  | None => false
  end.

(** A provider that answers every poll without a progress field and
    never finishes, and one whose reported progress falls from 50 to 10
    before it completes. *)
Definition silent_provider : image_env :=
  mk_image_env (Some "https://signed/original") (fetch_ok (inl "nb_1"))
    (λ _, poll_ok (mk_poll_body "processing" None None None))
    (fetch_ok 0) None None 0.

Definition falling_provider : image_env :=
  mk_image_env (Some "https://signed/original") (fetch_ok (inl "nb_1"))
    (λ i, match i with
          | O => poll_ok (mk_poll_body "processing" (Some 50%float) None None)
          | S O => poll_ok (mk_poll_body "processing" (Some 10%float) None None)
          | _ => poll_ok (mk_poll_body "completed" (Some 100%float)
                            (Some "https://nb/out.jpg") None)
          end)
    (fetch_ok 2048) None (Some "https://signed/output") 0.

(** ** Vocabulary of the submission properties *)

(** A submission that passes the validation of step 3. *)
Definition valid_submission (files : list file) (vibe ratio : string) : Prop :=
  1 ≤ Z.of_nat (length files) ≤ MAX_FILES ∧ validate_files files = None
  ∧ vibe ∈ VIBE_KEYS ∧ ratio ∈ ASPECT_RATIO_KEYS.

(** Five JPEG files, and a storage that refuses every upload. *)
Definition five_files : list file :=
  [mk_file "a.jpg" "image/jpeg" 1000; mk_file "b.jpg" "image/jpeg" 1000;
   mk_file "c.jpg" "image/jpeg" 1000; mk_file "d.jpg" "image/jpeg" 1000;
   mk_file "e.jpg" "image/jpeg" 1000].

Definition failing_storage : process_env :=
  mk_process_env (λ _, true) 7 (λ k, 100 + N.of_nat k)%N.

(** Two files, of which the storage refuses the second. *)
Definition two_files : list file :=
  [mk_file "a.jpg" "image/jpeg" 1000; mk_file "b.png" "image/png" 1000].

Definition half_failing_storage : process_env :=
  mk_process_env (λ i, bool_decide (i = 1%nat)) 7 (λ k, 100 + N.of_nat k)%N.

(** ** Vocabulary of the bundle properties *)

(** An image whose output reaches the archive: it got a signed URL and
    the download answered with [res.ok]. *)
Definition fetched (env : zip_env) (img : uuid * processed_image) : bool :=
  js_truthy (outputs_signed env img.1)
  && match output_res env img.1 with fetch_ok _ => true | _ => false end.

(** An image whose download rejects: it got a signed URL and [fetch]
    throws.  Without a signed URL the route does not call [fetch]. *)
Definition download_rejects (env : zip_env) (img : uuid * processed_image)
  : Prop :=
  js_truthy (outputs_signed env img.1) = true
  ∧ ∃ message, output_res env img.1 = fetch_throws message.

(** No download rejects. *)
Definition no_fetch_rejects (env : zip_env)
    (images : list (uuid * processed_image)) : Prop :=
  ∀ img, img ∈ images → ¬ download_rejects env img.

(** A completed batch of two images, and a bundle request during which
    the download of the second answers 404. *)
Definition two_image_db : Db :=
  mk_db {[1%N := mk_profile free 0 0 2]} []
        {[7%N := mk_job 1 2 2 0 completed 2 (Some 10) (Some 20) None]}
        {[21%N := mk_image 7 1 "uploads/1/7/original_1.jpg" "a.jpg"
                    (Some "outputs/1/7/enhanced_1.jpg") (Some 10) completed 1
                    (Some 100) None None None;
          22%N := mk_image 7 1 "uploads/1/7/original_2.jpg" "b.jpg"
                    (Some "outputs/1/7/enhanced_2.jpg") (Some 10) completed 2
                    (Some 100) None None None]}
        ∅ [] ∅.

Definition one_missing_output : zip_env :=
  mk_zip_env 1000 (λ _, Some "https://signed/output")
    (λ id, if bool_decide (id = 22%N) then fetch_not_ok 404 "Not Found"
           else fetch_ok "JPEG")
    (λ folder, 100 * Z.of_nat (size folder)) false
    (Some "https://signed/bundle").

(** A bundle request during which the download of the second image
    rejects. *)
Definition one_rejecting_output : zip_env :=
  mk_zip_env 1000 (λ _, Some "https://signed/output")
    (λ id, if bool_decide (id = 22%N) then fetch_throws "fetch failed"
           else fetch_ok "JPEG")
    (λ folder, 100 * Z.of_nat (size folder)) false
    (Some "https://signed/bundle").

(** ** Vocabulary of the worker properties *)

(** The last update of a [processImage] run: [completed] or [failed]. *)
Definition final_update (u : image_update) : bool :=
  match u with
  | upd_completed _ _ _ _ | upd_failed _ => true
  | _ => false
  end.

Definition progress_update (u : image_update) : bool :=
  match u with upd_progress _ => true | _ => false end.

(** A completed batch of one image, and a second run of the worker in
    which the blob store refuses to overwrite the stored output. *)
Definition finished_db : Db :=
  mk_db {[1%N := mk_profile free 0 0 1]} []
        {[7%N := mk_job 1 1 1 0 completed 1 (Some 10) (Some 20) None]}
        {[21%N := mk_image 7 1 "uploads/1/7/original_1.jpg" "a.jpg"
                    (Some "outputs/1/7/enhanced_1.jpg") (Some 2048) completed
                    1 (Some 100) (Some "https://signed/output") (Some 86420)
                    None]}
        ∅ [] ∅.

Definition second_run : worker_env :=
  mk_worker_env 50
    (λ _, mk_image_env (Some "https://signed/original") (fetch_ok (inl "nb_2"))
            (λ _, poll_ok (mk_poll_body "completed" (Some 100%float)
                             (Some "https://nb/out.jpg") None))
            (fetch_ok 2048) (Some "The resource already exists") None 50).

(** ** Vocabulary of the webhook properties *)

(** The user an event is about: the [user_id] of its metadata. *)
Definition event_user (o : stripe_event_object) : option uuid :=
  match o with
  | invoice_payment_succeeded _ _ user _ => user
  | checkout_session_completed _ user _ _ => user
  | customer_subscription_deleted user => user
  | unhandled_event => None
  | invoice_subscription_unavailable _ => None
  end.

(** The webhook route over a sequence of deliveries. *)
Definition stripe_deliveries (db : Db) (events : list stripe_event) : Db :=
  foldl stripe_POST db events.

(** ** Vocabulary of the frame properties *)

(** The tables for which image processing has no statement: wallets,
    ledger, bundles, notifications and recorded Stripe events agree. *)
Definition same_wallets (db db' : Db) : Prop :=
  profiles db' = profiles db ∧
  credit_transactions db' = credit_transactions db ∧
  zip_bundles db' = zip_bundles db ∧
  notifications db' = notifications db ∧
  stripe_events db' = stripe_events db.

(** ** Vocabulary of the image outcome *)

(** Every outside step of [processImage] succeeds: the original is signed,
    the provider accepts the submission and reports an output, the output
    downloads and the blob store takes it. *)
Definition image_succeeds (env : image_env) : Prop :=
  js_truthy (sign_original env) = true ∧
  (∃ externalId, submit env = fetch_ok (inl externalId)) ∧
  (∃ outputUrl, poll_result (pollNanoBanana (polls env)) = inl outputUrl) ∧
  (∃ byteLength, output_fetch env = fetch_ok byteLength) ∧
  storeErr env = None.

(** ** The dashboard form and the drop zone (client side) *)

(** [optimisticProfile] of [DashboardClient]: the profile shown while
    [creditOffset] credits are charged optimistically.  The numbers are
    integers far below 2^53, on which the JavaScript operations are
    exact. *)
Definition optimisticProfile (p : profile) (creditOffset : Z) : profile :=
  mk_profile (plan p)
    (Z.max 0 (monthly_credits p - creditOffset))
    (Z.max 0 (topup_credits p - Z.max 0 (creditOffset - monthly_credits p)))
    (credits_used_cycle p + creditOffset).

Definition canSubmit (p : profile) (files : list file) (isPending : bool)
  : bool :=
  let totalCredits := monthly_credits p + topup_credits p in
  (0 <? Z.of_nat (length files))
  && (Z.of_nat (length files) <=? totalCredits)
  && negb isPending.

(** The state around [UploadZone]: the [files] of the form, which
    [onChange] replaces, and the zone's [error]. *)
Record upload_zone := mk_upload_zone {
  zone_files : list file;
  zone_error : option string;
}.

(** [validate]: the accepted files and the error lines, both in order. *)
Definition validate (incoming : list file) : list file * list string :=
  foldl (λ acc f,
           if negb (bool_decide (f_type f ∈ ACCEPTED_TYPES)) then
             (acc.1, acc.2 ++ [f_name f +:+ ": unsupported format"])
           else if MAX_FILE_SIZE_MB * 1024 * 1024 <? f_size f then
             (acc.1, acc.2 ++ [f_name f +:+ ": exceeds 50 MB"])
           else (acc.1 ++ [f], acc.2))
        ([], []) incoming.

(** [errors.join(' · ')]. *)
Fixpoint join (sep : string) (l : list string) : string :=
  match l with
  | [] => EmptyString
  | [s] => s
  | s :: rest => s +:+ sep +:+ join sep rest
  end.

Definition addFiles (st : upload_zone) (incoming : list file) : upload_zone :=
  let '(valid, errors) := validate incoming in
  if negb (bool_decide (length errors = 0%nat)) then
    mk_upload_zone (zone_files st) (Some (join " · " errors))
  else
    let merged := zone_files st ++ valid in
    if MAX_FILES <? Z.of_nat (length merged) then
      mk_upload_zone (take (Z.to_nat MAX_FILES) merged)
        (Some "Maximum 20 images per batch.")
    else mk_upload_zone merged None.

(** [files.filter((_, i) => i !== index)]. *)
Definition removeFile (st : upload_zone) (index : nat) : upload_zone :=
  mk_upload_zone (delete index (zone_files st)) None.

(** What changes the [files] of the form: a drop or a selection, the
    removal of one file, and [setFiles([])] of "Clear all" and of a
    submission that went through. *)
Inductive zone_op :=
  | zone_add (incoming : list file)
  | zone_remove (index : nat)
  | zone_clear.

Definition zone_step (st : upload_zone) (op : zone_op) : upload_zone :=
  match op with
  | zone_add incoming => addFiles st incoming
  | zone_remove index => removeFile st index
  | zone_clear => mk_upload_zone [] (zone_error st)
  end.

Definition empty_zone : upload_zone := mk_upload_zone [] None.

(** ** The progress hook (client side) *)

(** [computeProgress] of [useJobProgress].  The sum runs over integers,
    on which the additions of JavaScript are exact; the division and
    [Math.round] are those of binary64. *)
Definition computeProgress (job : option processing_job)
    (images : list processed_image) : float :=
  match job with
  | None => 0
  | Some job =>
      if decide (status job = completed) then 100
      else if decide (status job = queued) then 0
      else if bool_decide (length images = 0%nat) then 5
      else
        let total := length images in
        let sumPct :=
          foldl (λ acc img,
                   if decide (img_status img = completed) then acc + 100
                   else if decide (img_status img = failed) then acc + 100
                   else acc + default 0 (progress_pct img))
                0 images in
        Math_round (number_of_Z sumPct / number_of_Z (Z.of_nat total))
  end.

(** What an image counts for in the mean: 100 once it is terminal, its
    progress before, 0 while that is NULL. *)
Definition image_pct (img : processed_image) : Z :=
  if item_terminal (img_status img) then 100
  else default 0 (progress_pct img).

Definition sum_pct (images : list processed_image) : Z :=
  foldr (λ img acc, image_pct img + acc) 0 images.

(** The check run over every sum that [total] images can reach: rounding
    the quotient gives the mean rounded to the nearest integer, a half
    going up. *)
Definition mean_ok (total : nat) : bool :=
  forallb (λ s,
             match json_int (Math_round (number_of_Z (Z.of_nat s)
                                         / number_of_Z (Z.of_nat total))) with
             | Some v =>
                 v =? (2 * Z.of_nat s + Z.of_nat total) / (2 * Z.of_nat total)
             | None => false
             end)
          (seq 0 (100 * total + 1)).

(** ** Submission from the dashboard (client side) *)

(** The state of [DashboardClient] that a submission touches. *)
Record dashboard := mk_dashboard {
  d_files : list file;
  d_creditOffset : Z;
  d_activeJobIds : list uuid;
  d_submitError : option string;
}.

(** [handleSubmit] with the outcome of [fetch('/api/process')]: [inl] is
    the message of a [fetch] that rejects, [inr] the response of the
    route, whose [error] is the message thrown when [res.ok] is false. *)
Definition handleSubmit (p : profile) (isPending : bool)
    (outcome : string + process_response) (st : dashboard) : dashboard :=
  if negb (canSubmit p (d_files st) isPending) then st
  else
    let charged := Z.of_nat (length (d_files st)) in
    let offset := d_creditOffset st + charged in
    match outcome with
    | inr (process_ok jobId _) =>
        mk_dashboard [] offset (jobId :: d_activeJobIds st) None
    | inr (process_error _ error) =>
        mk_dashboard (d_files st) (offset - charged) (d_activeJobIds st)
          (Some error)
    | inl message =>
        mk_dashboard (d_files st) (offset - charged) (d_activeJobIds st)
          (Some message)
    end.

(** ** Vocabulary of the reported progress *)

(** The value written for a response that reports the integer progress
    [p]; the attempt number plays no part once a progress is reported. *)
Definition reported_pct (p : Z) : Z :=
  default 0 (poll_progress (Some (number_of_Z p)) 0 60).

(** The check run over the reports 0 to 100: the value written lies
    between 40 and 74 and is at most the one for the next report. *)
Definition reported_ok (p : nat) : bool :=
  match poll_progress (Some (number_of_Z (Z.of_nat p))) 0 60 with
  | Some v => (40 <=? v) && (v <=? 74) && (v <=? reported_pct (Z.of_nat (S p)))
  | None => false
  end.

(** A provider that reports 10, then 20, then completes at 100. *)
Definition rising_provider : image_env :=
  mk_image_env (Some "https://signed/original") (fetch_ok (inl "nb_1"))
    (λ i, match i with
          | O => poll_ok (mk_poll_body "processing" (Some 10%float) None None)
          | S O => poll_ok (mk_poll_body "processing" (Some 20%float) None None)
          | _ => poll_ok (mk_poll_body "completed" (Some 100%float)
                            (Some "https://nb/out.jpg") None)
          end)
    (fetch_ok 2048) None (Some "https://signed/output") 0.

(** * Properties *)

(** ** Credit ledger *)

Section ledger.
Implicit Types (db : Db) (u : uuid) (p : profile).

Lemma deduct_credits_rejects db u p a :
  profiles db !! u = Some p →
  monthly_credits p + topup_credits p < a →
  deduct_credits db u a = (rpc_data false, db).
Proof.
  intros Hp Hlt. unfold deduct_credits. rewrite Hp.
  destruct (Z.ltb_spec (monthly_credits p + topup_credits p) a); [done|lia].
Qed.

Lemma deduct_credits_accepts db u p a :
  profiles db !! u = Some p →
  a ≤ monthly_credits p + topup_credits p →
  deduct_credits db u a =
    (rpc_data true,
     set_credit_transactions
       (λ l, l ++ [mk_tx u (- a)
                     ((monthly_credits p - Z.min a (monthly_credits p))
                      + (topup_credits p - (a - Z.min a (monthly_credits p))))
                     job_charge None])
       (set_profiles
          (insert u (mk_profile (plan p)
                       (monthly_credits p - Z.min a (monthly_credits p))
                       (topup_credits p - (a - Z.min a (monthly_credits p)))
                       (credits_used_cycle p + a))) db)).
Proof.
  intros Hp Hle. unfold deduct_credits. rewrite Hp.
  destruct (Z.ltb_spec (monthly_credits p + topup_credits p) a); [lia|done].
Qed.

(** On a wallet within the [INT] range every intermediate value of an
    accepted charge is within the range: no overflow error is left out. *)
Lemma deduct_credits_within_int4 db u p a :
  profiles db !! u = Some p →
  0 ≤ monthly_credits p → 0 ≤ topup_credits p → 0 ≤ credits_used_cycle p →
  int4 (monthly_credits p + topup_credits p) →
  int4 (credits_used_cycle p + a) →
  0 ≤ a ≤ monthly_credits p + topup_credits p →
  ∃ db' p' e,
    deduct_credits db u a = (rpc_data true, db') ∧
    profiles db' !! u = Some p' ∧ last (credit_transactions db') = Some e ∧
    int4 (Z.min a (monthly_credits p)) ∧
    int4 (a - Z.min a (monthly_credits p)) ∧
    int4 (monthly_credits p') ∧ int4 (topup_credits p') ∧
    int4 (credits_used_cycle p') ∧ int4 (amount e) ∧ int4 (balance_after e).
Proof.
  unfold int4. intros Hp Hm Ht Hu Hsum Hused Ha.
  rewrite (deduct_credits_accepts db u p a Hp) by lia.
  eexists _, _, _. split; [reflexivity|]. simpl.
  split; [apply lookup_insert_eq|]. split; [apply last_snoc|]. simpl. lia.
Qed.
End ledger.

(** C6: a charge of more than the available balance returns failure and
    leaves the whole database, hence both balances, the cycle usage and
    the ledger, as it was. *)
Theorem deduct_credits_insufficient (db : Db) (u : uuid) (v a : Z) :
  get_available_credits db u = Some v →
  v < a →
  deduct_credits db u a = (rpc_data false, db).
Proof.
  unfold get_available_credits. intros Hv Hlt.
  destruct (profiles db !! u) as [p|] eqn:Hp; simplify_eq/=.
  by apply (deduct_credits_rejects db u p).
Qed.

Lemma deduct_credits_insufficient_witness :
  get_available_credits (wallet_db 1 2 0) 1 = Some 2 ∧
  deduct_credits (wallet_db 1 2 0) 1 5 = (rpc_data false, wallet_db 1 2 0).
Proof.
  split; [reflexivity|].
  apply (deduct_credits_insufficient (wallet_db 1 2 0) 1 2 5); [reflexivity|lia].
Defined.

(** C7: a charge of [a] against balances [m] and [t] with [a ≤ m + t]
    succeeds, takes [min a m] from the monthly balance and the rest from
    the top-up balance, adds [a] to the cycle usage, appends exactly one
    entry with amount [- a] whose [balance_after] is the new available
    balance, keeps non-negative balances non-negative, and touches no
    other wallet. *)
Theorem deduct_credits_monthly_first (db : Db) (u : uuid) (p : profile) (a : Z) :
  profiles db !! u = Some p →
  a ≤ monthly_credits p + topup_credits p →
  ∃ db' p' e,
    deduct_credits db u a = (rpc_data true, db') ∧
    profiles db' !! u = Some p' ∧
    monthly_credits p' = monthly_credits p - Z.min a (monthly_credits p) ∧
    topup_credits p' = topup_credits p - (a - Z.min a (monthly_credits p)) ∧
    credits_used_cycle p' = credits_used_cycle p + a ∧
    credit_transactions db' = credit_transactions db ++ [e] ∧
    tx_user_id e = u ∧ amount e = - a ∧ source e = job_charge ∧
    balance_after e = monthly_credits p' + topup_credits p' ∧
    balance_after e = wallet_balance db' u ∧
    (0 ≤ monthly_credits p → 0 ≤ topup_credits p →
     0 ≤ monthly_credits p' ∧ 0 ≤ topup_credits p') ∧
    (∀ u', u' ≠ u → profiles db' !! u' = profiles db !! u').
Proof.
  intros Hp Hle. rewrite (deduct_credits_accepts db u p a Hp Hle).
  eexists _, _, _. split; [reflexivity|].
  split; [apply lookup_insert_eq|].
  unfold wallet_balance, get_available_credits; simpl.
  rewrite lookup_insert_eq; simpl.
  repeat split; try lia.
  intros u' Hu'. by apply lookup_insert_ne.
Qed.

Lemma deduct_credits_monthly_first_witness :
  ∃ db' p' e,
    deduct_credits (wallet_db 1 3 4) 1 5 = (rpc_data true, db') ∧
    profiles db' !! 1%N = Some p' ∧
    monthly_credits p' = 0 ∧ topup_credits p' = 2 ∧
    credits_used_cycle p' = 5 ∧
    credit_transactions db' = [e] ∧ amount e = -5 ∧ balance_after e = 2.
Proof.
  destruct (deduct_credits_monthly_first (wallet_db 1 3 4) 1
              (mk_profile free 3 4 0) 5)
    as (db' & p' & e & H1 & H2 & H3 & H4 & H5 & H6 & H7 & H8 & H9 & H10 & _).
  - reflexivity.
  - simpl. lia.
  - exists db', p', e. simpl in *. repeat split; try assumption; lia.
Defined.

Section ledger_sequences.
Implicit Types (db : Db) (u : uuid) (op : wallet_op).

Lemma ledger_of_snoc db db' u e :
  credit_transactions db' = credit_transactions db ++ [e] →
  tx_user_id e = u →
  ledger_of db' u = ledger_of db u ++ [e].
Proof.
  intros He Hu. unfold ledger_of. rewrite He, filter_app. f_equal.
  rewrite filter_cons, decide_True by done. done.
Qed.

Lemma replay_snoc b es e :
  replay b (es ++ [e]) =
  b' ← replay b es;
  if bool_decide (b' + amount e = balance_after e)
  then Some (balance_after e) else None.
Proof.
  revert b. induction es as [|e' es IH]; intros b; simpl.
  - by destruct (bool_decide _).
  - destruct (bool_decide _); [apply IH|done].
Qed.

Lemma replay_total b es b' :
  replay b es = Some b' →
  b' = b + foldr (λ e acc, amount e + acc) 0 es.
Proof.
  revert b. induction es as [|e es IH]; intros b; simpl.
  - intros [= <-]. lia.
  - case_bool_decide as He; [|done]. intros H%IH. lia.
Qed.

Lemma topup_credits_positive priceId credits :
  TOPUP_CREDITS priceId = Some credits → 0 < credits.
Proof.
  unfold TOPUP_CREDITS. repeat case_decide; intros [= <-]; lia.
Qed.

Lemma plan_credits_positive priceId config :
  PLAN_CREDITS priceId = Some config → 0 < monthly config.
Proof.
  unfold PLAN_CREDITS. repeat case_decide; intros [= <-]; simpl; lia.
Qed.

(** What a charge does to the database, whatever its outcome. *)
Lemma charge_cases db u p a :
  profiles db !! u = Some p →
  (deduct_credits db u a).2 = db ∨
  a ≤ monthly_credits p + topup_credits p ∧
  (deduct_credits db u a).2 =
    set_credit_transactions
      (λ l, l ++ [mk_tx u (- a)
                    ((monthly_credits p - Z.min a (monthly_credits p))
                     + (topup_credits p - (a - Z.min a (monthly_credits p))))
                    job_charge None])
      (set_profiles
         (insert u (mk_profile (plan p)
                      (monthly_credits p - Z.min a (monthly_credits p))
                      (topup_credits p - (a - Z.min a (monthly_credits p)))
                      (credits_used_cycle p + a))) db).
Proof.
  intros Hp.
  destruct (Z.lt_ge_cases (monthly_credits p + topup_credits p) a).
  - left. by rewrite (deduct_credits_rejects db u p a).
  - right. split; [done|]. by rewrite (deduct_credits_accepts db u p a).
Qed.

Lemma apply_op_nonneg db u op :
  wallet_nonneg u db → wallet_nonneg u (apply_op u db op).
Proof.
  intros (p & Hp & Hm & Ht). destruct op as [a|priceId inv|priceId intent].
  - simpl. destruct (charge_cases db u p a Hp) as [->|[Hle ->]].
    + by exists p.
    + eexists. simpl. rewrite lookup_insert_eq. split; [done|]. simpl. lia.
  - simpl. destruct (PLAN_CREDITS priceId) as [config|] eqn:Hc; simpl;
      [|by exists p].
    unfold grant_monthly. rewrite Hp. eexists. simpl.
    rewrite lookup_insert_eq. split; [done|]. simpl.
    apply plan_credits_positive in Hc. lia.
  - simpl. destruct (TOPUP_CREDITS priceId) as [credits|] eqn:Hc;
      [|by exists p].
    unfold grant_topup. rewrite Hp. eexists. simpl.
    rewrite lookup_insert_eq. split; [done|]. simpl.
    apply topup_credits_positive in Hc. lia.
Qed.

Lemma replay_app b es1 es2 :
  replay b (es1 ++ es2) = b' ← replay b es1; replay b' es2.
Proof.
  revert b. induction es1 as [|e es1 IH]; intros b; simpl; [done|].
  destruct (bool_decide _); [apply IH|done].
Qed.

(** What one operation appends to the user's ledger: nothing or one
    entry, never a refund; and for a charge or a top-up the entry takes
    the balance before the operation to the balance after it. *)
Lemma apply_op_appends db u op :
  ∃ new, ledger_of (apply_op u db op) u = ledger_of db u ++ new ∧
    Forall (λ e, source e ≠ refund) new ∧
    (is_monthly_grant op = false →
     replay (wallet_balance db u) new
     = Some (wallet_balance (apply_op u db op) u)).
Proof.
  assert (∀ db', db' = db →
            ∃ new, ledger_of db' u = ledger_of db u ++ new ∧
              Forall (λ e, source e ≠ refund) new ∧
              (is_monthly_grant op = false →
               replay (wallet_balance db u) new
               = Some (wallet_balance db' u))) as Hsame.
  { intros db' ->. exists []. by rewrite app_nil_r. }
  unfold wallet_balance, get_available_credits in *.
  destruct op as [a|priceId inv|priceId intent]; simpl.
  - destruct (profiles db !! u) as [p|] eqn:Hp.
    + destruct (charge_cases db u p a Hp) as [->|[Hle ->]];
        [by apply Hsame|].
      eexists [_]. split; [by erewrite (ledger_of_snoc db)|].
      split; [by repeat constructor|]. intros _. simpl.
      rewrite lookup_insert_eq. simpl.
      rewrite bool_decide_true by lia. f_equal.
    + apply Hsame. unfold deduct_credits. by rewrite Hp.
  - destruct (PLAN_CREDITS priceId) as [config|]; simpl; [|by apply Hsame].
    unfold grant_monthly.
    destruct (profiles db !! u) as [p|] eqn:Hp;
      [|apply Hsame; by rewrite ?Hp].
    eexists [_]. split; [by erewrite (ledger_of_snoc db)|].
    split; [by repeat constructor|done].
  - destruct (TOPUP_CREDITS priceId) as [credits|]; [|by apply Hsame].
    unfold grant_topup.
    destruct (profiles db !! u) as [p|] eqn:Hp;
      [|apply Hsame; by rewrite ?Hp].
    eexists [_]. split; [by erewrite (ledger_of_snoc db)|].
    split; [by repeat constructor|]. intros _. simpl.
    rewrite lookup_insert_eq. simpl.
    rewrite bool_decide_true by lia. f_equal.
Qed.

Lemma run_ops_appends db u ops :
  ∃ new, ledger_of (run_ops u ops db) u = ledger_of db u ++ new ∧
    Forall (λ e, source e ≠ refund) new ∧
    (Forall (λ op, is_monthly_grant op = false) ops →
     replay (wallet_balance db u) new
     = Some (wallet_balance (run_ops u ops db) u)).
Proof.
  revert db. induction ops as [|op ops IH]; intros db.
  { exists []. by rewrite app_nil_r. }
  destruct (apply_op_appends db u op) as (new1 & Hl1 & Hs1 & Hr1).
  destruct (IH (apply_op u db op)) as (new2 & Hl2 & Hs2 & Hr2).
  exists (new1 ++ new2). simpl. split; [by rewrite Hl2, Hl1, app_assoc|].
  split; [by apply Forall_app|].
  intros [Hop Hops]%Forall_cons.
  by rewrite replay_app, (Hr1 Hop), <-(Hr2 Hops).
Qed.

(** A monthly grant for a known price on an existing wallet. *)
Lemma apply_op_monthly_grant db u p priceId invoice config :
  PLAN_CREDITS priceId = Some config →
  profiles db !! u = Some p →
  let db' := apply_op u db (op_monthly_grant priceId invoice) in
  profiles db' !! u
  = Some (mk_profile (pc_plan config) (monthly config) (topup_credits p) 0) ∧
  ∃ e, ledger_of db' u = ledger_of db u ++ [e] ∧
       amount e = monthly config ∧ source e = monthly_grant.
Proof.
  intros Hc Hp. simpl. rewrite Hc. simpl. unfold grant_monthly. rewrite Hp.
  simpl. rewrite lookup_insert_eq. split; [done|].
  eexists. split; [by erewrite (ledger_of_snoc db)|done].
Qed.
End ledger_sequences.

(** C3, amended: over every sequence of charges, monthly grants and
    top-ups on one wallet, balances that start non-negative stay
    non-negative, and no entry appended to the ledger is a refund: the
    code has no refund operation.  Over every sequence of charges and
    top-ups, whatever the wallet and the ledger were before, the entries
    appended replay from the starting balance to the final one: each has
    [balance_after] equal to the balance at the moment it was appended,
    and the final balance is the starting balance plus the sum of their
    signed amounts, which is the sum of all entries for a wallet that
    started empty.  A monthly grant does not add to the balance: it sets
    the monthly balance to the plan's amount and the cycle usage to 0 and
    records that amount as the entry's amount. *)
Theorem ledger_replays_charges_and_topups (u : uuid) (ops : list wallet_op)
    (db : Db) :
  let db' := run_ops u ops db in
  (wallet_nonneg u db → wallet_nonneg u db') ∧
  (∃ new,
     ledger_of db' u = ledger_of db u ++ new ∧
     Forall (λ e, source e ≠ refund) new ∧
     (Forall (λ op, is_monthly_grant op = false) ops →
      replay (wallet_balance db u) new = Some (wallet_balance db' u) ∧
      wallet_balance db' u
      = wallet_balance db u + foldr (λ e acc, amount e + acc) 0 new ∧
      (ledger_of db u = [] → wallet_balance db u = 0 →
       wallet_balance db' u = ledger_sum db' u))) ∧
  (∀ p priceId invoice config,
     PLAN_CREDITS priceId = Some config →
     profiles db !! u = Some p →
     let db1 := apply_op u db (op_monthly_grant priceId invoice) in
     profiles db1 !! u
     = Some (mk_profile (pc_plan config) (monthly config)
               (topup_credits p) 0) ∧
     ∃ e, ledger_of db1 u = ledger_of db u ++ [e] ∧
          amount e = monthly config ∧ source e = monthly_grant).
Proof.
  intros db'. subst db'. split; [|split].
  - revert db. induction ops as [|op ops IH]; intros db Hnn; [done|].
    simpl. apply IH. by apply apply_op_nonneg.
  - destruct (run_ops_appends db u ops) as (new & Hl & Hs & Hr).
    exists new. split; [exact Hl|]. split; [exact Hs|].
    intros Hops. specialize (Hr Hops). split; [exact Hr|].
    pose proof (replay_total _ _ _ Hr) as Htot. split; [exact Htot|].
    intros Hempty Hzero. unfold ledger_sum. rewrite Hl, Hempty. simpl.
    rewrite Htot, Hzero. lia.
  - intros p priceId invoice config Hc Hp.
    by apply apply_op_monthly_grant.
Qed.

Lemma ledger_replays_charges_and_topups_witness :
  let ops := [op_topup "price_topup_10" "pi_1"; op_charge 4;
              op_charge 20; op_topup "price_topup_50" "pi_2"; op_charge 7] in
  let used := run_ops 1 [op_monthly_grant "price_starter" "in_1"; op_charge 5;
                         op_monthly_grant "price_starter" "in_2"]
                (fresh_db 1) in
  wallet_nonneg 1 (run_ops 1 ops (fresh_db 1)) ∧
  wallet_balance (run_ops 1 ops (fresh_db 1)) 1
  = ledger_sum (run_ops 1 ops (fresh_db 1)) 1 ∧
  ledger_sum (run_ops 1 ops (fresh_db 1)) 1 = 49 ∧
  wallet_balance used 1 = 20 ∧
  wallet_balance (run_ops 1 ops used) 1 = 20 + 29.
Proof.
  intros ops used.
  destruct (ledger_replays_charges_and_topups 1 ops (fresh_db 1))
    as (H1 & (new & Hl & _ & H2) & _).
  destruct H2 as (_ & _ & H3); [subst ops; repeat constructor|].
  destruct (ledger_replays_charges_and_topups 1 ops used)
    as (_ & (new' & Hl' & _ & H4) & _).
  destruct H4 as (_ & H5 & _); [subst ops; repeat constructor|].
  assert (wallet_balance used 1 = 20) as Hused by (vm_compute; reflexivity).
  split.
  { apply H1. exists (mk_profile free 0 0 0). split; [reflexivity|simpl; lia]. }
  split; [exact (H3 eq_refl eq_refl)|].
  split; [vm_compute; reflexivity|]. split; [exact Hused|].
  rewrite H5, Hused. f_equal.
  vm_compute in Hl'. injection Hl' as <-. reflexivity.
Defined.

(** C3 as stated fails on monthly grants: two renewals of the starter
    plan leave a balance of 20 against a ledger total of 40, and a renewal
    after a top-up records [balance_after = 20] on a wallet holding 30. *)
Lemma monthly_grant_breaks_ledger_sum :
  let db := run_ops 1 [op_monthly_grant "price_starter" "in_1";
                       op_monthly_grant "price_starter" "in_2"]
                    (fresh_db 1) in
  let db2 := run_ops 1 [op_topup "price_topup_10" "pi_1";
                        op_monthly_grant "price_starter" "in_1"]
                     (fresh_db 1) in
  wallet_balance db 1 = 20 ∧ ledger_sum db 1 = 40 ∧
  wallet_balance db 1 ≠ ledger_sum db 1 ∧
  wallet_balance db2 1 = 30 ∧
  balance_after <$> last (ledger_of db2 1) = Some 20.
Proof. vm_compute. repeat split; congruence. Qed.

(** ** Batch status synchronisation *)

Section sync.
Implicit Types (db : Db) (j : processing_job) (r : processed_image).

Lemma alter_absent {A} (f : A → A) (m : gmap N A) i :
  m !! i = None → alter f i m = m.
Proof.
  intros Hi. apply map_eq. intros k. rewrite lookup_alter.
  case_decide; [subst; by rewrite Hi|done].
Qed.

(** The trigger function is [count_item] on the job of the row. *)
Lemma sync_job_completion_counts now NEW db :
  item_terminal (img_status NEW) = true →
  sync_job_completion now NEW db =
  set_processing_jobs (alter (count_item now (img_status NEW)) (job_id NEW)) db.
Proof.
  intros Hterm. unfold sync_job_completion.
  destruct (processing_jobs db !! job_id NEW) as [j0|] eqn:Hj.
  - destruct (img_status NEW) eqn:Hs; try discriminate Hterm; simpl;
      unfold set_processing_jobs; simpl; f_equal;
      apply map_eq; intros k; rewrite !lookup_alter;
      (case_decide; [subst k; rewrite Hj; simpl; f_equal|done]);
      unfold count_item; simpl; rewrite ?Z.add_0_r.
    + done.
    + by rewrite (bool_decide_ext
                    (completed_count j0 + (failed_count j0 + 1) = total_images j0)
                    (completed_count j0 + failed_count j0 + 1 = total_images j0))
        by lia.
  - unfold set_processing_jobs. rewrite alter_absent by done. by destruct db.
Qed.

Lemma apply_image_update_job_id u r :
  job_id (apply_image_update u r) = job_id r.
Proof. by destruct u. Qed.

(** An accepted update is the row replaced, then [count_item] on its
    job when the row enters a terminal state. *)
Lemma update_processed_image_accepted now id u db OLD :
  processed_images db !! id = Some OLD →
  progress_check (apply_image_update u OLD) = true →
  update_processed_image now id u db =
  let NEW := apply_image_update u OLD in
  let db1 := set_processed_images (insert id NEW) db in
  if trigger_fires OLD NEW
  then set_processing_jobs
         (alter (count_item now (img_status NEW)) (job_id OLD)) db1
  else db1.
Proof.
  intros Hid Hck. unfold update_processed_image. rewrite Hid, Hck. simpl.
  destruct (trigger_fires OLD (apply_image_update u OLD)) eqn:Hf.
  - assert (sets_status u = true) as ->.
    { destruct u; try done. unfold trigger_fires in Hf. simpl in Hf.
      by destruct (item_terminal (img_status OLD)). }
    simpl. rewrite sync_job_completion_counts.
    + by rewrite apply_image_update_job_id.
    + unfold trigger_fires in Hf. by apply andb_true_iff in Hf as [? _].
  - by rewrite andb_false_r.
Qed.
End sync.

(** C5: an update that takes an item from a state that is not terminal
    into [completed] or [failed] raises the matching counter of its batch
    by one and leaves the other alone; the batch becomes [completed], with
    [completed_at] stamped, when the counters then add up to
    [total_images], and keeps its status and stamp when they do not.  Any
    other update of an item, one of an already terminal item included,
    leaves the batch as it is. *)
Theorem terminal_transition_counted_once (now : Z) (id : uuid)
    (u : image_update) (db : Db) (OLD : processed_image) (j : processing_job) :
  processed_images db !! id = Some OLD →
  progress_check OLD = true →
  processing_jobs db !! job_id OLD = Some j →
  let NEW := apply_image_update u OLD in
  let db' := update_processed_image now id u db in
  ∃ j', processing_jobs db' !! job_id OLD = Some j' ∧
    if item_terminal (img_status NEW) && negb (item_terminal (img_status OLD))
    then
      processed_images db' !! id = Some NEW ∧
      completed_count j' =
        completed_count j + (if decide (img_status NEW = completed) then 1 else 0) ∧
      failed_count j' =
        failed_count j + (if decide (img_status NEW = failed) then 1 else 0) ∧
      completed_count j' + failed_count j' =
        completed_count j + failed_count j + 1 ∧
      total_images j' = total_images j ∧
      (completed_count j' + failed_count j' = total_images j →
       status j' = completed ∧ completed_at j' = Some now) ∧
      (completed_count j' + failed_count j' ≠ total_images j →
       status j' = status j ∧ completed_at j' = completed_at j)
    else j' = j.
Proof.
  intros Hid Hck Hj NEW db'. subst NEW db'.
  destruct (progress_check (apply_image_update u OLD)) eqn:Hck'.
  - rewrite (update_processed_image_accepted now id u db OLD Hid Hck').
    cbv zeta. unfold trigger_fires.
    destruct (item_terminal (img_status (apply_image_update u OLD))
              && negb (item_terminal (img_status OLD))) eqn:Hf.
    + simpl. rewrite lookup_alter_eq, Hj. simpl. eexists. split; [done|].
      rewrite lookup_insert_eq. apply andb_true_iff in Hf as [Hterm _].
      unfold count_item; simpl.
      generalize dependent (img_status (apply_image_update u OLD)).
      intros s Hterm. destruct s; try discriminate Hterm; simpl.
      all: split; [done|]; split; [lia|]; split; [lia|]; split; [lia|].
      all: split; [done|]; split; intros Hsum.
      all: first [rewrite !bool_decide_true by lia
                 |rewrite !bool_decide_false by lia]; done.
    + simpl. by exists j.
  - unfold update_processed_image. rewrite Hid, Hck'. exists j. split; [done|].
    destruct u; unfold progress_check in *; simpl in *; try congruence;
      try (by vm_compute in Hck').
    by destruct (item_terminal (img_status OLD)).
Qed.

Lemma terminal_transition_counted_once_witness :
  let r := mk_image 7 1 "uploads/1/7/original_2.jpg" "b.jpg" None None
                    processing 2 (Some 40) None None None in
  let db := mk_db {[1%N := mk_profile free 0 0 2]} []
                  {[7%N := mk_job 1 2 1 0 processing 2 (Some 10) None None]}
                  {[21%N := r]} ∅ [] ∅ in
  let db' := update_processed_image 99 21 (upd_failed "timed out") db in
  ∃ j', processing_jobs db' !! 7%N = Some j' ∧
        completed_count j' = 1 ∧ failed_count j' = 1 ∧
        status j' = completed ∧ completed_at j' = Some 99.
Proof.
  intros r db db'.
  destruct (terminal_transition_counted_once 99 21 (upd_failed "timed out") db r
              (mk_job 1 2 1 0 processing 2 (Some 10) None None))
    as (j' & Hj' & H); [reflexivity..|].
  simpl in H. destruct H as (_ & Hc & Hf & Hs & _ & Hhit & _).
  exists j'. split; [exact Hj'|].
  destruct Hhit as [? ?]; [lia|]. repeat split; [lia|lia|done|done].
Defined.

(** ** Polling *)

Section polling.
Implicit Types (polls : nat → poll_event) (o : poll_outcome).

(** The loop never begins more iterations than it has left, and sleeps
    [intervalMs] in each. *)
Lemma poll_loop_bounded polls maxAttempts intervalMs left i :
  (poll_attempts (poll_loop polls maxAttempts intervalMs left i) ≤ left)%nat ∧
  poll_slept_ms (poll_loop polls maxAttempts intervalMs left i)
  = intervalMs * Z.of_nat
                   (poll_attempts (poll_loop polls maxAttempts intervalMs left i)).
Proof.
  revert i. induction left as [|left IH]; intros i; simpl; [lia|].
  destruct (polls i) as [m| |data]; simpl.
  - lia.
  - destruct (IH (S i)) as [? ->]. lia.
  - repeat case_match; simpl; try lia; destruct (IH (S i)) as [? ->]; lia.
Qed.

(** With only responses that keep the loop waiting it runs to the end. *)
Lemma poll_loop_exhausts polls maxAttempts intervalMs left i :
  (∀ k, (i ≤ k < i + left)%nat → keeps_waiting (polls k) = true) →
  poll_attempts (poll_loop polls maxAttempts intervalMs left i) = left ∧
  poll_result (poll_loop polls maxAttempts intervalMs left i)
  = inr "Nano Banana processing timed out".
Proof.
  revert i. induction left as [|left IH]; intros i Hw; simpl; [done|].
  assert (keeps_waiting (polls i) = true) as Hi by (apply Hw; lia).
  assert (∀ k, (S i ≤ k < S i + left)%nat → keeps_waiting (polls k) = true)
    as Hrest by (intros k ?; apply Hw; lia).
  destruct (IH (S i) Hrest) as [Hn Hr].
  destruct (polls i) as [m| |data]; simpl in *; [done|by rewrite Hn|].
  unfold terminal_response in Hi.
  apply negb_true_iff, orb_false_iff in Hi as [-> ->]. simpl.
  by rewrite Hn.
Qed.

Lemma pollNanoBanana_eq polls :
  pollNanoBanana polls = poll_loop polls 60 5000 60 0.
Proof. reflexivity. Qed.

Lemma pollNanoBanana_bounded polls :
  (poll_attempts (pollNanoBanana polls) ≤ 60)%nat ∧
  poll_slept_ms (pollNanoBanana polls)
  = 5000 * Z.of_nat (poll_attempts (pollNanoBanana polls)).
Proof. rewrite pollNanoBanana_eq. apply poll_loop_bounded. Qed.

Lemma pollNanoBanana_exhausts polls :
  (∀ i, (i < 60)%nat → keeps_waiting (polls i) = true) →
  poll_attempts (pollNanoBanana polls) = 60%nat ∧
  poll_result (pollNanoBanana polls) = inr "Nano Banana processing timed out".
Proof.
  intros Hw. rewrite pollNanoBanana_eq. apply poll_loop_exhausts.
  intros k ?. apply Hw. lia.
Qed.
End polling.

Section rows.
Implicit Types (db : Db) (r : processed_image) (u : image_update).

Lemma step_row_check r u :
  progress_check r = true → progress_check (step_row r u) = true.
Proof. intros Hr. unfold step_row. by case_match. Qed.

Lemma step_row_job_id r u : job_id (step_row r u) = job_id r.
Proof. unfold step_row. case_match; [apply apply_image_update_job_id|done]. Qed.

(** An update replaces its row by [step_row] and touches no other row. *)
Lemma update_processed_image_rows now id u db r :
  processed_images db !! id = Some r →
  processed_images (update_processed_image now id u db)
  = <[id := step_row r u]> (processed_images db).
Proof.
  intros Hid. unfold step_row.
  destruct (progress_check (apply_image_update u r)) eqn:Hck.
  - rewrite (update_processed_image_accepted now id u db r Hid Hck).
    cbv zeta. by case_match.
  - unfold update_processed_image. rewrite Hid, Hck. by rewrite insert_id.
Qed.

Lemma run_image_updates_rows now id us db r :
  processed_images db !! id = Some r →
  processed_images (run_image_updates now id us db)
  = <[id := foldl step_row r us]> (processed_images db).
Proof.
  revert db r. induction us as [|u us IH]; intros db r Hid; simpl.
  - by rewrite insert_id.
  - unfold run_image_updates in *. simpl.
    rewrite (IH _ (step_row r u)).
    + rewrite (update_processed_image_rows now id u db r Hid).
      by rewrite insert_insert_eq.
    + rewrite (update_processed_image_rows now id u db r Hid).
      apply lookup_insert_eq.
Qed.

Lemma foldl_step_row_check r us :
  progress_check r = true → progress_check (foldl step_row r us) = true.
Proof.
  revert r. induction us as [|u us IH]; intros r Hr; simpl; [done|].
  by apply IH, step_row_check.
Qed.

Lemma foldl_step_row_job_id r us :
  job_id (foldl step_row r us) = job_id r.
Proof.
  revert r. induction us as [|u us IH]; intros r; simpl; [done|].
  by rewrite IH, step_row_job_id.
Qed.

Lemma foldl_step_row_snoc r us u :
  foldl step_row r (us ++ [u]) = step_row (foldl step_row r us) u.
Proof. by rewrite foldl_app. Qed.

(** A [failed] update is never refused by the check. *)
Lemma step_row_failed r message :
  progress_check r = true →
  step_row r (upd_failed message) = apply_image_update (upd_failed message) r.
Proof. intros Hr. unfold step_row. simpl. unfold progress_check in *. simpl. by rewrite Hr. Qed.
End rows.

(** C8: when every one of the 60 polls gets a provider response that is
    not terminal, [pollNanoBanana] sleeps 60 times 5000 ms, makes 60
    attempts and throws the time-out error, and the item ends [failed]
    with that message; and whatever the responses, the loop makes at most
    60 attempts, five seconds apart. *)
Theorem polling_times_out (env : image_env) (externalId : string)
    (now : Z) (id user job : uuid) (db : Db) (r : processed_image) :
  js_truthy (sign_original env) = true →
  submit env = fetch_ok (inl externalId) →
  (∀ i, (i < 60)%nat → keeps_waiting (polls env i) = true) →
  processed_images db !! id = Some r →
  progress_check r = true →
  let o := pollNanoBanana (polls env) in
  let db' := run_image_updates now id (processImage env user job (position r)) db in
  poll_attempts o = 60%nat ∧
  poll_slept_ms o = 60 * 5000 ∧
  poll_result o = inr "Nano Banana processing timed out" ∧
  (∃ r', processed_images db' !! id = Some r' ∧
         img_status r' = failed ∧
         img_error_message r' = Some "Nano Banana processing timed out") ∧
  (∀ polls', (poll_attempts (pollNanoBanana polls') ≤ 60)%nat ∧
             poll_slept_ms (pollNanoBanana polls')
             = 5000 * Z.of_nat (poll_attempts (pollNanoBanana polls'))).
Proof.
  intros Hsign Hsubmit Hwait Hid Hck o db'. subst o db'.
  destruct (pollNanoBanana_exhausts (polls env) Hwait) as [Hn Hr].
  destruct (pollNanoBanana_bounded (polls env)) as [_ Hs].
  split; [exact Hn|]. split; [rewrite Hs, Hn; lia|]. split; [exact Hr|].
  split; [|intros polls'; apply pollNanoBanana_bounded].
  rewrite (run_image_updates_rows now id _ db r Hid), lookup_insert_eq.
  eexists. split; [reflexivity|].
  unfold processImage. rewrite Hsign, Hsubmit.
  clear Hn Hs. revert Hr. generalize (pollNanoBanana (polls env)).
  intros o Hr. rewrite Hr. simpl. rewrite foldl_app. simpl.
  match goal with
  | |- context [step_row ?X (upd_failed _)] =>
      assert (progress_check X = true) as HX
        by (apply foldl_step_row_check; repeat apply step_row_check; exact Hck);
      revert HX; generalize X
  end.
  intros r0 Hr0. rewrite (step_row_failed r0 _ Hr0). split; reflexivity.
Qed.

Lemma polling_times_out_witness :
  let env := mk_image_env (Some "https://signed/original") (fetch_ok (inl "nb_1"))
               (λ _, poll_ok (mk_poll_body "processing" None None None))
               (fetch_ok 0) None None 0 in
  let r := mk_image 7 1 "uploads/1/7/original_1.jpg" "a.jpg" None None
                    queued 1 (Some 0) None None None in
  let db := mk_db ∅ [] ∅ {[21%N := r]} ∅ [] ∅ in
  poll_attempts (pollNanoBanana (polls env)) = 60%nat ∧
  poll_slept_ms (pollNanoBanana (polls env)) = 300000 ∧
  ∃ r', processed_images
          (run_image_updates 0 21 (processImage env 1 7 1) db) !! 21%N
        = Some r' ∧
        img_status r' = failed ∧
        img_error_message r' = Some "Nano Banana processing timed out".
Proof.
  intros env r db.
  destruct (polling_times_out env "nb_1" 0 21 1 7 db r)
    as (H1 & H2 & _ & H4 & _);
    [reflexivity|reflexivity|intros; reflexivity|reflexivity|reflexivity|].
  split; [exact H1|]. split; [exact H2|exact H4].
Defined.

Section progress.
Implicit Types (polls : nat → poll_event).

Lemma fallback_table : forallb fallback_ok (seq 0 60) = true.
Proof. vm_compute. reflexivity. Qed.

Lemma fallback_pct_spec i :
  (i < 60)%nat →
  poll_progress None i 60 = Some (fallback_pct i) ∧
  40 ≤ fallback_pct i ≤ 74 ∧ fallback_pct i ≤ fallback_pct (S i).
Proof.
  intros Hi.
  assert (fallback_ok i = true) as Hok.
  { eapply forallb_forall; [exact fallback_table|]. apply in_seq. lia. }
  unfold fallback_ok in Hok. unfold fallback_pct at 1 2 3 4.
  destruct (poll_progress None i 60) as [v|]; [|done]. simpl.
  apply andb_true_iff in Hok as [Hok H3].
  apply andb_true_iff in Hok as [H1 H2].
  split; [done|]. lia.
Qed.

Lemma fallback_pct_mono i k :
  (i ≤ k < 60)%nat → fallback_pct i ≤ fallback_pct k.
Proof.
  intros [Hik Hk]. induction Hik as [|k Hik IH]; [lia|].
  etrans; [apply IH; lia|]. apply fallback_pct_spec. lia.
Qed.

(** Every update of the polling loop is the formula of the source on a
    response body. *)
Lemma poll_loop_updates polls maxAttempts intervalMs left i u :
  u ∈ poll_updates (poll_loop polls maxAttempts intervalMs left i) →
  ∃ k data, (i ≤ k < i + left)%nat ∧ polls k = poll_ok data ∧
            u = upd_progress (poll_progress (nb_progress data) k maxAttempts).
Proof.
  revert i u. induction left as [|left IH]; intros i u; simpl.
  { by intros ?%elem_of_nil. }
  assert (∀ u', u' ∈ poll_updates (poll_loop polls maxAttempts intervalMs left (S i)) →
                ∃ k data, (i ≤ k < i + S left)%nat ∧ polls k = poll_ok data ∧
                  u' = upd_progress (poll_progress (nb_progress data) k maxAttempts))
    as IH'.
  { intros u' (k & data & ? & ? & ?)%IH. exists k, data. split; [lia|done]. }
  destruct (polls i) as [m| |data] eqn:Hp; simpl.
  - by intros ?%elem_of_nil.
  - apply IH'.
  - repeat case_match; simpl; rewrite ?elem_of_cons, ?elem_of_nil;
      (intros [->|Hu]; [exists i, data; split; [lia|done]|]);
      [done|done|by apply IH'].
Qed.

Lemma progress_values_cons u us :
  progress_values (u :: us) =
  match progress_written u with
  | Some v => v :: progress_values us
  | None => progress_values us
  end.
Proof. reflexivity. Qed.

Lemma progress_values_app us1 us2 :
  progress_values (us1 ++ us2) = progress_values us1 ++ progress_values us2.
Proof. apply omap_app. Qed.

(** Without reported progress the values of the loop are fall-back
    values of increasing attempts. *)
Lemma poll_loop_fallback polls intervalMs left i :
  (i + left = 60)%nat →
  (∀ k data, polls k = poll_ok data → nb_progress data = None) →
  let vals := progress_values
                (poll_updates (poll_loop polls 60 intervalMs left i)) in
  nondecreasing vals ∧
  ∀ x, x ∈ vals → ∃ k, (i ≤ k < 60)%nat ∧ x = Some (fallback_pct k).
Proof.
  intros Hsum Hnp. revert i Hsum.
  induction left as [|left IH]; intros i Hsum; simpl.
  { split; [constructor|]. by intros x ?%elem_of_nil. }
  destruct (IH (S i)) as [IHs IHe]; [lia|].
  assert (∀ x, x ∈ progress_values
                 (poll_updates (poll_loop polls 60 intervalMs left (S i))) →
               ∃ k, (i ≤ k < 60)%nat ∧ x = Some (fallback_pct k)) as IHe'.
  { intros x (k & ? & ?)%IHe. exists k. split; [lia|done]. }
  destruct (polls i) as [m| |data] eqn:Hp; simpl.
  - split; [constructor|]. by intros x ?%elem_of_nil.
  - done.
  - rewrite (Hnp i data Hp).
    destruct (fallback_pct_spec i) as (-> & _ & _); [lia|].
    assert (∀ x, x ∈ [Some (fallback_pct i)] →
                 ∃ k, (i ≤ k < 60)%nat ∧ x = Some (fallback_pct k)) as Hone.
    { intros x ->%list_elem_of_singleton. exists i. split; [lia|done]. }
    repeat case_match; simpl; unfold progress_values; simpl;
      try (split; [repeat constructor|exact Hone]).
    split.
    + apply StronglySorted_cons. split; [|exact IHs].
      apply Forall_forall. intros x (k & ? & ->)%IHe. simpl.
      apply fallback_pct_mono. lia.
    + intros x [->|Hx]%elem_of_cons; [apply Hone; left|by apply IHe'].
Qed.

(** The checkpoints 5, 15 and 40, values between 40 and 74 in order,
    then checkpoints from 75 on. *)
Lemma checkpoints_sorted vals tail :
  nondecreasing vals →
  (∀ x, x ∈ vals → ∃ v, x = Some v ∧ 40 ≤ v ≤ 74) →
  nondecreasing tail →
  (∀ x, x ∈ tail → ∃ v, x = Some v ∧ 75 ≤ v) →
  nondecreasing (Some 5 :: Some 15 :: Some 40 :: vals ++ tail).
Proof.
  unfold nondecreasing. intros Hv Hvb Ht Htb.
  assert (∀ x, x ∈ vals ++ tail → ∃ v, x = Some v ∧ 40 ≤ v) as Hall.
  { intros x [(v & -> & ?)%Hvb|(v & -> & ?)%Htb]%elem_of_app;
      exists v; split; (done || lia). }
  rewrite !StronglySorted_cons, StronglySorted_app, !Forall_cons, !Forall_forall.
  repeat split; simpl; try lia; try done.
  - intros x (v & -> & ?)%Hall. simpl. lia.
  - intros x (v & -> & ?)%Hall. simpl. lia.
  - intros x (v & -> & ?)%Hall. simpl. lia.
  - intros x1 x2 (v1 & -> & ?)%Hvb (v2 & -> & ?)%Htb. simpl. lia.
Qed.

Lemma pollNanoBanana_fallback polls :
  (∀ k data, polls k = poll_ok data → nb_progress data = None) →
  nondecreasing (progress_values (poll_updates (pollNanoBanana polls))) ∧
  ∀ x, x ∈ progress_values (poll_updates (pollNanoBanana polls)) →
       ∃ v, x = Some v ∧ 40 ≤ v ≤ 74.
Proof.
  intros Hnp. rewrite pollNanoBanana_eq.
  destruct (poll_loop_fallback polls 5000 60 0 eq_refl Hnp) as [Hs He].
  split; [exact Hs|].
  intros x (k & Hk & ->)%He. exists (fallback_pct k). split; [done|].
  apply fallback_pct_spec. lia.
Qed.
End progress.

(** C9, amended: every value written while polling is the source's
    [Math.min(74, 40 + Math.round(p * 0.35))] for a response body, [p]
    being the reported progress or else [i / 60 * 100]; and when no
    response reports a progress, the values written for an item over the
    whole of [processImage] never decrease. *)
Theorem progress_nondecreasing_without_reports (env : image_env)
    (user job : uuid) (pos : Z) :
  (∀ u, u ∈ poll_updates (pollNanoBanana (polls env)) →
        ∃ i data, (i < 60)%nat ∧ polls env i = poll_ok data ∧
                  u = upd_progress (poll_progress (nb_progress data) i 60)) ∧
  ((∀ i data, polls env i = poll_ok data → nb_progress data = None) →
   nondecreasing (progress_values (processImage env user job pos))).
Proof.
  split.
  - intros u Hu. rewrite pollNanoBanana_eq in Hu.
    apply poll_loop_updates in Hu as (k & data & ? & ? & ?).
    exists k, data. split; [lia|done].
  - intros Hnp.
    destruct (pollNanoBanana_fallback (polls env) Hnp) as [Hs Hb].
    unfold processImage. revert Hs Hb.
    generalize (pollNanoBanana (polls env)). intros o Hs Hb.
    assert (∀ tail,
              nondecreasing tail →
              (∀ x, x ∈ tail → ∃ v, x = Some v ∧ 75 ≤ v) →
              nondecreasing (Some 5 :: Some 15 :: Some 40
                             :: progress_values (poll_updates o) ++ tail))
      as Hfull by (intros; by apply checkpoints_sorted).
    assert (nondecreasing [Some 75; Some 100]) as H2.
    { repeat constructor. simpl. lia. }
    assert (nondecreasing [Some 75]) as H1 by repeat constructor.
    assert (nondecreasing []) as H0 by constructor.
    assert (∀ x : option Z, x ∈ [Some 75; Some 100] → ∃ v, x = Some v ∧ 75 ≤ v)
      as Hge2.
    { intros x [->|Hx]%elem_of_cons; [exists 75; split; [done|lia]|].
      apply list_elem_of_singleton in Hx as ->. exists 100. split; [done|lia]. }
    assert (∀ x : option Z, x ∈ [Some 75] → ∃ v, x = Some v ∧ 75 ≤ v) as Hge1.
    { intros x Hx. apply Hge2. by apply elem_of_cons; left;
        apply list_elem_of_singleton in Hx. }
    assert (∀ x : option Z, x ∈ [] → ∃ v, x = Some v ∧ 75 ≤ v) as Hge0.
    { by intros x ?%elem_of_nil. }
    destruct (js_truthy (sign_original env)); simpl;
      [|repeat constructor].
    destruct (submit env) as [m|st txt|[ext|m]]; simpl;
      [repeat constructor; simpl; lia..| |repeat constructor; simpl; lia].
    rewrite progress_values_app.
    destruct (poll_result o) as [url|m]; simpl.
    + destruct (output_fetch env) as [m|st txt|len]; simpl;
        [by apply Hfull..|].
      destruct (storeErr env); simpl; by apply Hfull.
    + by apply Hfull.
Qed.

Lemma progress_nondecreasing_without_reports_witness :
  nondecreasing (progress_values (processImage silent_provider 1 7 1)).
Proof.
  apply (progress_nondecreasing_without_reports silent_provider 1 7 1).
  intros i data H. injection H as <-. reflexivity.
Defined.

(** C9 as stated fails when the provider reports a falling progress: the
    values written are 5, 15, 40, 58, 44, 74, 75, 100. *)
Lemma reported_progress_can_fall :
  progress_values (processImage falling_provider 1 7 1)
  = [Some 5; Some 15; Some 40; Some 58; Some 44; Some 74; Some 75; Some 100]
  ∧ ¬ nondecreasing (progress_values (processImage falling_provider 1 7 1)).
Proof.
  assert (progress_values (processImage falling_provider 1 7 1)
          = [Some 5; Some 15; Some 40; Some 58; Some 44; Some 74; Some 75;
             Some 100]) as E by (vm_compute; reflexivity).
  split; [exact E|]. rewrite E. unfold nondecreasing. intros H.
  do 3 apply StronglySorted_inv in H as [H _].
  apply StronglySorted_inv in H as [_ H].
  apply Forall_cons in H as [H _]. simpl in H. lia.
Qed.

(** ** Batch submission *)

Section submission.
Implicit Types (db : Db) (env : process_env) (files : list file).

(** Steps 1 to 3 of the route on a valid submission: every guard passes. *)
Ltac pass_validation Hval :=
  unfold process_POST;
  match goal with
  | |- context [(?n =? 0) || (MAX_FILES <? ?n)] =>
      replace ((n =? 0) || (MAX_FILES <? n)) with false
        by (symmetry; apply orb_false_iff; split;
            [apply Z.eqb_neq|apply Z.ltb_ge]; lia)
  end;
  rewrite Hval, !bool_decide_true by done.

(** Whatever the uploads do, a valid and funded submission leaves the
    wallet charged with the number of files requested: the only ledger
    entry added is the charge, and the job records that count. *)
Lemma process_POST_charges_requested_count env user_id files vibe ratio db p :
  valid_submission files vibe ratio →
  profiles db !! user_id = Some p →
  Z.of_nat (length files) ≤ monthly_credits p + topup_credits p →
  processing_jobs db !! new_job_id env = None →
  let n := Z.of_nat (length files) in
  let db' := (process_POST env (Some user_id) files vibe ratio db).2 in
  credit_transactions db'
  = credit_transactions db
    ++ [mk_tx user_id (- n)
          ((monthly_credits p - Z.min n (monthly_credits p))
           + (topup_credits p - (n - Z.min n (monthly_credits p))))
          job_charge None] ∧
  wallet_balance db' user_id = monthly_credits p + topup_credits p - n ∧
  credits_charged <$> processing_jobs db' !! new_job_id env = Some n.
Proof.
  intros ([Hn1 Hn2] & Hval & Hv & Hr) Hp Hfunds Hfresh n db'.
  subst db'. pass_validation Hval. fold n. simpl. rewrite Hp. simpl.
  replace (monthly_credits p + topup_credits p <? n) with false
    by (symmetry; apply Z.ltb_ge; lia).
  rewrite (deduct_credits_accepts db user_id p n Hp Hfunds). simpl.
  rewrite Hfresh.
  unfold wallet_balance, get_available_credits.
  case_bool_decide; simpl.
  - rewrite lookup_insert_eq. simpl. rewrite lookup_alter_eq, lookup_insert_eq.
    split; [done|]. split; [lia|done].
  - unfold insert_images.
    case_bool_decide; case_match; simpl;
      rewrite ?lookup_insert_eq, ?lookup_alter_eq; simpl;
      rewrite ?lookup_insert_eq; simpl; (split; [done|]; split; [lia|done]).
Qed.

(** A valid submission of more images than the wallet holds is rejected
    with status 402 before any write. *)
Lemma process_POST_insufficient env user_id files vibe ratio db :
  valid_submission files vibe ratio →
  wallet_balance db user_id < Z.of_nat (length files) →
  ∃ message,
    process_POST env (Some user_id) files vibe ratio db
    = (process_error 402 message, db).
Proof.
  intros ([Hn1 Hn2] & Hval & Hv & Hr) Hlt.
  pass_validation Hval.
  assert ((default 0 (monthly_credits <$> profiles db !! user_id)
           + default 0 (topup_credits <$> profiles db !! user_id)
           <? Z.of_nat (length files)) = true) as Hav.
  { apply Z.ltb_lt. unfold wallet_balance, get_available_credits in Hlt.
    destruct (profiles db !! user_id); simpl in *; lia. }
  cbv zeta. simpl negb. cbv iota. rewrite Hav. by eexists.
Qed.
End submission.

(** C1 at its failing input: five requested images, every upload refused.
    The batch is marked [failed] and the answer says the credits were
    refunded, yet the wallet stays debited by 5 and the ledger holds the
    charge alone. *)
Theorem all_uploads_failed_keeps_charge :
  let run := process_POST failing_storage (Some 1%N) five_files
               "natural_light" "AUTO" (wallet_db 1 5 0) in
  run.1 = process_error 500 "All uploads failed. Credits refunded." ∧
  status <$> processing_jobs run.2 !! 7%N = Some failed ∧
  total_images <$> processing_jobs run.2 !! 7%N = Some 5 ∧
  processed_images run.2 = ∅ ∧
  wallet_balance (wallet_db 1 5 0) 1 = 5 ∧
  wallet_balance run.2 1 = 0 ∧
  credit_transactions run.2 = [mk_tx 1 (-5) 0 job_charge None] ∧
  ledger_sum run.2 1 = -5.
Proof. vm_compute. repeat split. Qed.

(** C4 at its failing input: two requested images, one stored.  The
    answer reports one credit charged and the batch counts one image, yet
    the wallet is debited by 2 and [credits_charged] is 2. *)
Theorem partial_upload_charges_requested_count :
  let run := process_POST half_failing_storage (Some 1%N) two_files
               "natural_light" "AUTO" (wallet_db 1 5 0) in
  run.1 = process_ok 7 1 ∧
  total_images <$> processing_jobs run.2 !! 7%N = Some 1 ∧
  credits_charged <$> processing_jobs run.2 !! 7%N = Some 2 ∧
  size (processed_images run.2) = 1%nat ∧
  wallet_balance run.2 1 = 3 ∧
  credit_transactions run.2 = [mk_tx 1 (-2) 3 job_charge None].
Proof. vm_compute. repeat split. Qed.

(** ** Bundle *)

Section bundle.
Implicit Types (env : zip_env) (images : list (uuid * processed_image)).

Lemma concat_slices {A} fuel (l : list A) :
  (length l ≤ fuel)%nat → concat (slices fuel l) = l.
Proof.
  revert l. induction fuel as [|fuel IH]; intros l Hl.
  - destruct l; [done|simpl in Hl; lia].
  - destruct l as [|x l]; [done|].
  simpl. f_equal. rewrite IH; [apply take_drop|].
  rewrite length_drop. simpl in Hl. lia.
Qed.

Lemma add_batch_app env acc l1 l2 :
  add_batch env acc (l1 ++ l2) = add_batch env (add_batch env acc l1) l2.
Proof. unfold add_batch. apply foldl_app. Qed.

(** The batches only bound the number of downloads in flight. *)
Lemma build_zip_unbatched env images :
  build_zip env images = add_batch env (inr ∅) images.
Proof.
  unfold build_zip. rewrite <-(concat_slices (length images) images) at 3 by done.
  generalize (slices (length images) images) (inr ∅ : string + gmap string string).
  intros bs. induction bs as [|b bs IH]; intros acc; simpl; [done|].
  by rewrite IH, add_batch_app.
Qed.

Lemma add_batch_cons env folder img l :
  add_batch env (inr folder) (img :: l)
  = add_batch env (add_image env folder img) l.
Proof. reflexivity. Qed.

(** Without a rejecting download the archive is built; it holds at most
    one entry per fetched image, and only entries of fetched images. *)
Lemma add_batch_size env folder l :
  no_fetch_rejects env l →
  ∃ folder', add_batch env (inr folder) l = inr folder' ∧
    (size folder' ≤ size folder + length (filter (λ i, fetched env i = true) l))%nat ∧
    (∀ name, is_Some (folder' !! name) →
       is_Some (folder !! name) ∨
       ∃ img, img ∈ l ∧ fetched env img = true ∧ name = zip_entry_name img.2).
Proof.
  revert folder. induction l as [|img l IH]; intros folder Hno.
  { exists folder. split; [done|]. split; [simpl; lia|]. by left. }
  assert (no_fetch_rejects env l) as Hno'.
  { intros i Hi. apply Hno. by right. }
  assert (∀ (f' : gmap string string) name,
            (is_Some (f' !! name) →
             is_Some (folder !! name) ∨
             ∃ i, i ∈ l ∧ fetched env i = true ∧ name = zip_entry_name i.2) →
            is_Some (f' !! name) →
            is_Some (folder !! name) ∨
            ∃ i, i ∈ img :: l ∧ fetched env i = true ∧ name = zip_entry_name i.2)
    as Hweak.
  { intros f' name H Hs. destruct (H Hs) as [?|(i & ? & ? & ?)]; [by left|].
    right. exists i. split; [by right|done]. }
  rewrite add_batch_cons, filter_cons. unfold add_image.
  destruct (js_truthy (outputs_signed env img.1)) eqn:Hs; simpl.
  - destruct (output_res env img.1) as [m|st txt|buf] eqn:Hres.
    + exfalso. apply (Hno img); [by left|]. split; [done|by exists m].
    + rewrite decide_False by (unfold fetched; rewrite Hs, Hres; done).
      destruct (IH folder Hno') as (folder' & -> & Hsz & Hnames).
      exists folder'. split; [done|]. split; [done|].
      intros name. apply Hweak, Hnames.
    + assert (fetched env img = true) as Hf
        by (unfold fetched; rewrite Hs, Hres; done).
      rewrite decide_True by done.
      destruct (IH (<[zip_entry_name img.2 := buf]> folder) Hno')
        as (folder' & -> & Hsz & Hnames).
      exists folder'. split; [done|]. split.
      * rewrite map_size_insert in Hsz. simpl.
        destruct (folder !! zip_entry_name img.2); simpl in Hsz; lia.
      * intros name Hname.
        destruct (Hnames name Hname) as [Hin|(i & ? & ? & ?)].
        -- apply lookup_insert_is_Some in Hin as [<-|[_ Hin]]; [|by left].
           right. exists img. split; [by left|done].
        -- right. exists i. split; [by right|done].
  - rewrite decide_False by (unfold fetched; rewrite Hs; done).
    destruct (IH folder Hno') as (folder' & -> & Hsz & Hnames).
    exists folder'. split; [done|]. split; [done|].
    intros name. apply Hweak, Hnames.
Qed.

Lemma add_batch_inl env message l :
  add_batch env (inl message) l = inl message.
Proof. induction l as [|img l IH]; [done|exact IH]. Qed.

(** A download that rejects makes the build reject. *)
Lemma add_batch_rejects env folder l :
  (∃ img, img ∈ l ∧ download_rejects env img) →
  ∃ message, add_batch env (inr folder) l = inl message.
Proof.
  revert folder. induction l as [|img l IH]; intros folder (i & Hi & Hrej).
  { by apply elem_of_nil in Hi. }
  rewrite add_batch_cons.
  destruct (add_image env folder img) as [m|folder'] eqn:Himg.
  { exists m. apply add_batch_inl. }
  apply elem_of_cons in Hi as [->|Hi]; [|apply IH; by exists i].
  exfalso. destruct Hrej as (Hs & m & Hres).
  unfold add_image in Himg. by rewrite Hs, Hres in Himg.
Qed.
End bundle.

(** C10, amended: when the bundle of a completed batch is rebuilt, an
    image without a signed URL or with a download that answers without
    [ok] is left out without an error: if no download rejects, the archive
    is stored, the answer is a success, and the record that the route
    submits for upsert counts the completed images queried, while the
    archive holds at most one file per fetched image, hence fewer files
    than [image_count] as soon as one image was left out.  A download
    that rejects fails the request: nothing is stored and no record is
    submitted. *)
Theorem bundle_counts_queried_images (env : zip_env) (user jobId : uuid)
    (db : Db) (job : processing_job) :
  processing_jobs db !! jobId = Some job →
  job_user_id job = user →
  status job = completed →
  cached_bundle (zip_now env) (zip_bundles db !! jobId) = None →
  completed_images db jobId ≠ [] →
  let images := completed_images db jobId in
  let res := zip_POST env (Some user) jobId db in
  (no_fetch_rejects env images →
   uploadErr env = false →
   js_truthy (zips_signed env) = true →
   ∃ url folder bundle,
     zr_response res = zip_ok url (zip_filename jobId) ∧
     zr_stored res = Some folder ∧
     zr_upsert res = Some bundle ∧
     image_count bundle = Z.of_nat (length images) ∧
     (∀ name, is_Some (folder !! name) →
        ∃ img, img ∈ images ∧ fetched env img = true
               ∧ name = zip_entry_name img.2) ∧
     (size folder ≤ length (filter (λ i, fetched env i = true) images))%nat ∧
     ((∃ img, img ∈ images ∧ fetched env img = false) →
      Z.of_nat (size folder) < image_count bundle)) ∧
  ((∃ img, img ∈ images ∧ download_rejects env img) →
   ∃ message,
     zr_response res = zip_rejects message ∧
     zr_stored res = None ∧ zr_upsert res = None ∧ zr_db res = db).
Proof.
  intros Hjob Huser Hstatus Hcache Hne images res.
  subst res. unfold zip_POST. rewrite Hjob, Hcache.
  rewrite !bool_decide_true by done. simpl.
  rewrite bool_decide_false by done. fold images.
  rewrite build_zip_unbatched. split.
  - intros Hno Hup Hsigned.
    destruct (add_batch_size env ∅ images Hno) as (folder & -> & Hsz & Hnames).
    rewrite Hup. destruct (zips_signed env) as [url|]; [|done].
    simpl in Hsigned |- *. rewrite Hsigned. simpl. eexists url, folder, _.
    split; [done|]. split; [done|]. split; [done|].
    simpl. split; [done|]. rewrite map_size_empty in Hsz. simpl in Hsz.
    split.
    { intros name Hname. destruct (Hnames name Hname) as [Hin|?]; [|done].
      rewrite lookup_empty in Hin. by destruct Hin. }
    split; [done|]. intros (img & Himg & Hf).
    assert (length (filter (λ i, fetched env i = true) images)
            < length images)%nat.
    { apply (length_filter_lt _ _ img); [done|]. by rewrite Hf. }
    lia.
  - intros Hrej.
    destruct (add_batch_rejects env ∅ images Hrej) as (message & ->).
    by exists message.
Qed.

Lemma bundle_counts_queried_images_witness :
  let res := zip_POST one_missing_output (Some 1%N) 7 two_image_db in
  ∃ url folder bundle,
    zr_response res = zip_ok url (zip_filename 7) ∧
    zr_stored res = Some folder ∧
    zr_upsert res = Some bundle ∧
    image_count bundle = 2 ∧ size folder = 1%nat.
Proof.
  intros res.
  destruct (bundle_counts_queried_images one_missing_output 1 7 two_image_db
              (mk_job 1 2 2 0 completed 2 (Some 10) (Some 20) None))
    as [H _];
    [vm_compute; reflexivity|reflexivity|reflexivity|vm_compute; reflexivity|
     by vm_compute|].
  destruct H as (url & folder & bundle & H1 & H2 & H3 & H4 & _);
    [|reflexivity|reflexivity|].
  - intros img Himg [_ [m Hm]]. revert Hm. unfold one_missing_output. simpl.
    case_bool_decide; discriminate.
  - exists url, folder, bundle.
    split; [exact H1|]. split; [exact H2|]. split; [exact H3|].
    split; [rewrite H4; vm_compute; reflexivity|].
    assert (size <$> zr_stored (zip_POST one_missing_output (Some 1%N) 7
                                  two_image_db) = Some 1%nat) as Hs
      by (vm_compute; reflexivity).
    rewrite H2 in Hs. simpl in Hs. congruence.
Defined.

(** C10 as stated fails when the fetch of an output rejects: the request
    of a completed batch of two images, the download of the second
    rejecting, is not answered with a success and stores no archive. *)
Lemma rejecting_download_fails_bundle :
  let res := zip_POST one_rejecting_output (Some 1%N) 7 two_image_db in
  status <$> processing_jobs two_image_db !! 7%N = Some completed ∧
  length (completed_images two_image_db 7) = 2%nat ∧
  output_res one_rejecting_output 22 = fetch_throws "fetch failed" ∧
  zr_response res = zip_rejects "fetch failed" ∧
  zr_stored res = None ∧
  zr_upsert res = None.
Proof. vm_compute. repeat split. Qed.

(** ** Worker *)

Section worker.
Implicit Types (db : Db) (r : processed_image) (u : image_update)
  (j : processing_job).

(** What an update does to [processing_jobs]. *)
Lemma update_processed_image_jobs now id u db r :
  processed_images db !! id = Some r →
  processing_jobs (update_processed_image now id u db)
  = if progress_check (apply_image_update u r)
       && trigger_fires r (apply_image_update u r)
    then alter (count_item now (img_status (apply_image_update u r)))
               (job_id r) (processing_jobs db)
    else processing_jobs db.
Proof.
  intros Hid. destruct (progress_check (apply_image_update u r)) eqn:Hck.
  - rewrite (update_processed_image_accepted now id u db r Hid Hck).
    cbv zeta. simpl. by case_match.
  - unfold update_processed_image. by rewrite Hid, Hck.
Qed.

(** Progress updates keep the status of the row and the jobs. *)
Lemma run_progress_updates now id mids db r :
  processed_images db !! id = Some r →
  forallb progress_update mids = true →
  processing_jobs (run_image_updates now id mids db) = processing_jobs db ∧
  img_status (foldl step_row r mids) = img_status r.
Proof.
  revert db r. induction mids as [|u mids IH]; intros db r Hid Hm; [done|].
  simpl in Hm. apply andb_true_iff in Hm as [Hu Hm].
  destruct u as [|pct| |]; try discriminate Hu.
  unfold run_image_updates in *. simpl.
  destruct (IH (update_processed_image now id (upd_progress pct) db)
               (step_row r (upd_progress pct))) as [-> ->]; [|done|].
  - rewrite (update_processed_image_rows now id _ db r Hid).
    apply lookup_insert_eq.
  - rewrite (update_processed_image_jobs now id _ db r Hid).
    split.
    + unfold trigger_fires. simpl.
      destruct (item_terminal (img_status r)); by rewrite ?andb_false_r.
    + unfold step_row. by case_match.
Qed.

Lemma poll_loop_progress_updates polls maxAttempts intervalMs left i :
  forallb progress_update
    (poll_updates (poll_loop polls maxAttempts intervalMs left i)) = true.
Proof.
  revert i. induction left as [|left IH]; intros i; simpl; [done|].
  destruct (polls i); simpl; [done|apply IH|].
  repeat case_match; simpl; try done; apply IH.
Qed.

(** [processImage] sends the start update, progress updates, and one
    final update. *)
Lemma processImage_shape (env : image_env) (user job : uuid) (pos : Z) :
  ∃ mids final,
    processImage env user job pos = upd_start :: mids ++ [final] ∧
    forallb progress_update mids = true ∧ final_update final = true.
Proof.
  unfold processImage.
  pose proof (poll_loop_progress_updates (polls env) 60 5000 60 0) as Hp.
  rewrite <-pollNanoBanana_eq in Hp. revert Hp.
  generalize (pollNanoBanana (polls env)). intros o Hp.
  destruct (js_truthy (sign_original env)); simpl;
    [|by eexists [], _].
  destruct (submit env) as [m|st txt|[ext|m]];
    [by eexists [_], _..| |by eexists [_; _], _].
  destruct (poll_result o) as [url|m].
  - destruct (output_fetch env) as [m|st txt|len];
      [| |destruct (storeErr env)];
      (eexists (_ :: _ :: poll_updates o ++ [_]), _;
       split; [simpl; by rewrite <-app_assoc|];
       split; [simpl; rewrite forallb_app, Hp; done|done]).
  - eexists (_ :: _ :: poll_updates o), _. split; [done|].
    split; [simpl; exact Hp|done].
Qed.

Lemma final_update_terminal r u :
  final_update u = true →
  progress_check r = true →
  progress_check (apply_image_update u r) = true ∧
  item_terminal (img_status (apply_image_update u r)) = true.
Proof.
  intros Hu Hr. destruct u; try discriminate Hu; simpl; [done|].
  unfold progress_check in *. simpl. by rewrite Hr.
Qed.

(** One run of [processImage] on a row: the row ends terminal and the
    job of the row is counted once. *)
Lemma run_processImage now id (env : image_env) user job pos db r j :
  processed_images db !! id = Some r →
  progress_check r = true →
  processing_jobs db !! job_id r = Some j →
  let db' := run_image_updates now id (processImage env user job pos) db in
  ∃ r', processed_images db' = <[id := r']> (processed_images db) ∧
        job_id r' = job_id r ∧
        item_terminal (img_status r') = true ∧
        progress_check r' = true ∧
        processing_jobs db'
        = alter (count_item now (img_status r')) (job_id r) (processing_jobs db).
Proof.
  intros Hid Hck Hj db'. subst db'.
  destruct (processImage_shape env user job pos)
    as (mids & final & -> & Hmids & Hfinal).
  set (r1 := step_row r upd_start).
  set (db1 := update_processed_image now id upd_start db).
  assert (processed_images db1 !! id = Some r1) as Hid1.
  { unfold db1. rewrite (update_processed_image_rows now id _ db r Hid).
    apply lookup_insert_eq. }
  assert (processing_jobs db1 = processing_jobs db) as Hjobs1.
  { unfold db1. by rewrite (update_processed_image_jobs now id _ db r Hid). }
  assert (img_status r1 = processing ∧ job_id r1 = job_id r
          ∧ progress_check r1 = true) as (Hs1 & Hj1 & Hck1).
  { unfold r1, step_row. simpl. done. }
  set (r2 := foldl step_row r1 mids).
  set (db2 := run_image_updates now id mids db1).
  destruct (run_progress_updates now id mids db1 r1 Hid1 Hmids)
    as [Hjobs2 Hs2].
  fold db2 in Hjobs2. fold r2 in Hs2.
  assert (processed_images db2 !! id = Some r2) as Hid2.
  { unfold db2. rewrite (run_image_updates_rows now id mids db1 r1 Hid1).
    apply lookup_insert_eq. }
  assert (progress_check r2 = true) as Hck2
    by (by apply foldl_step_row_check).
  assert (job_id r2 = job_id r) as Hj2.
  { unfold r2. by rewrite foldl_step_row_job_id. }
  destruct (final_update_terminal r2 final Hfinal Hck2) as [Hck3 Hterm].
  exists (apply_image_update final r2).
  change (run_image_updates now id (upd_start :: mids ++ [final]) db)
    with (foldl (λ d u, update_processed_image now id u d) db1 (mids ++ [final])).
  rewrite foldl_app. simpl. fold (run_image_updates now id mids db1). fold db2.
  rewrite (update_processed_image_rows now id final db2 r2 Hid2).
  rewrite (update_processed_image_jobs now id final db2 r2 Hid2).
  unfold step_row. rewrite Hck3. unfold trigger_fires. rewrite Hterm, Hs2, Hs1.
  simpl. rewrite apply_image_update_job_id, Hj2, Hjobs2, Hjobs1.
  split; [|done].
  unfold db2. rewrite (run_image_updates_rows now id mids db1 r1 Hid1).
  unfold db1. rewrite (update_processed_image_rows now id _ db r Hid).
  by rewrite !insert_insert_eq.
Qed.

(** Counting an item of a batch whose counters already reached
    [total_images] leaves its status alone. *)
Lemma count_item_past_total now s j :
  item_terminal s = true →
  total_images j ≤ completed_count j + failed_count j →
  let j' := count_item now s j in
  completed_count j' + failed_count j'
  = completed_count j + failed_count j + 1 ∧
  total_images j' = total_images j ∧ started_at j' = started_at j ∧
  status j' = status j.
Proof.
  intros Hs Hge. destruct s; try discriminate Hs; unfold count_item; simpl;
    rewrite bool_decide_false by lia; repeat split; lia.
Qed.

Lemma count_item_counts now s j :
  item_terminal s = true →
  let j' := count_item now s j in
  completed_count j' + failed_count j'
  = completed_count j + failed_count j + 1 ∧
  total_images j' = total_images j ∧ started_at j' = started_at j.
Proof.
  intros Hs. destruct s; try discriminate Hs; unfold count_item; simpl;
    repeat split; lia.
Qed.

(** The loop of the worker over the rows of one job. *)
Lemma process_images_counts (env : worker_env) user jobId
    (images : list (uuid * processed_image)) db j :
  NoDup images.*1 →
  (∀ img, img ∈ images →
          processed_images db !! img.1 = Some img.2 ∧ job_id img.2 = jobId
          ∧ progress_check img.2 = true) →
  processing_jobs db !! jobId = Some j →
  let db' := process_images env user jobId images db in
  ∃ j', processing_jobs db' !! jobId = Some j' ∧
        total_images j' = total_images j ∧
        started_at j' = started_at j ∧
        completed_count j' + failed_count j'
        = completed_count j + failed_count j + Z.of_nat (length images) ∧
        (total_images j ≤ completed_count j + failed_count j →
         status j' = status j) ∧
        (∀ img, img ∈ images →
                ∃ r', processed_images db' !! img.1 = Some r'
                      ∧ item_terminal (img_status r') = true) ∧
        (∀ id, id ∉ images.*1 →
               processed_images db' !! id = processed_images db !! id).
Proof.
  revert db j. induction images as [|[id r] images IH]; intros db j Hnd Hrows Hj.
  { exists j. simpl. repeat split; try done; try lia.
    by intros img ?%elem_of_nil. }
  simpl in Hnd. apply NoDup_cons in Hnd as [Hid Hnd].
  destruct (Hrows (id, r)) as (Hr & Hjr & Hck); [left|]. simpl in Hr, Hjr, Hck.
  cbv zeta. unfold process_images. simpl.
  fold (process_images env user jobId images).
  rewrite <-Hjr in Hj.
  destruct (run_processImage (worker_now env) id (image_envs env id) user jobId
              (position r) db r j Hr Hck Hj)
    as (r1 & Hrows1 & Hjr1 & Hterm1 & Hck1 & Hjobs1).
  rewrite Hjr in Hj, Hjobs1.
  set (db1 := run_image_updates (worker_now env) id
                (processImage (image_envs env id) user jobId (position r)) db)
    in *.
  assert (processing_jobs db1 !! jobId
          = Some (count_item (worker_now env) (img_status r1) j)) as Hj1.
  { by rewrite Hjobs1, lookup_alter_eq, Hj. }
  destruct (IH db1 (count_item (worker_now env) (img_status r1) j) Hnd)
    as (j' & Hj' & Htot & Hst & Hsum & Hstat & Hterm & Hframe); [|exact Hj1|].
  { intros img Himg. destruct (Hrows img) as (H1 & H2 & H3); [by right|].
    split; [|done]. rewrite Hrows1, lookup_insert_ne; [done|].
    intros ->. apply Hid. by apply list_elem_of_fmap_2. }
  destruct (count_item_counts (worker_now env) (img_status r1) j Hterm1)
    as (Hc1 & Hc2 & Hc3).
  exists j'. split; [exact Hj'|]. split; [congruence|]. split; [congruence|].
  split; [rewrite Hsum, Hc1; simpl length; lia|]. split; [|split].
  - intros Hge.
    destruct (count_item_past_total (worker_now env) (img_status r1) j Hterm1 Hge)
      as (_ & _ & _ & Hs1).
    rewrite Hstat; [done|]. rewrite Hc2, Hc1. lia.
  - intros img [->|Himg]%elem_of_cons; [|by apply Hterm].
    exists r1. split; [|done]. simpl.
    rewrite Hframe by done. rewrite Hrows1. apply lookup_insert_eq.
  - intros id' Hid'. simpl in Hid'. apply not_elem_of_cons in Hid' as [Hne Hid'].
    rewrite Hframe by done. rewrite Hrows1. by apply lookup_insert_ne.
Qed.

(** The rows that the worker loads for a job. *)
Lemma elem_of_job_images db jobId img :
  img ∈ job_images db jobId ↔
  processed_images db !! img.1 = Some img.2 ∧ job_id img.2 = jobId.
Proof.
  unfold job_images. rewrite merge_sort_Permutation, list_elem_of_filter.
  destruct img as [id r]. rewrite elem_of_map_to_list. simpl. tauto.
Qed.

Lemma NoDup_job_images db jobId : NoDup (job_images db jobId).*1.
Proof.
  unfold job_images. rewrite merge_sort_Permutation.
  eapply sublist_NoDup; [apply (NoDup_fst_map_to_list (processed_images db))|].
  apply fmap_sublist, sublist_filter.
Qed.
End worker.

(** C2, amended: the worker does not look at the status of the batch.
    For every batch it finds, terminal or not, it sets the status to
    [processing] and stamps [started_at]; a batch without items is then
    marked [failed] with "No images found"; otherwise every item is
    processed again and ends terminal, the counters grow by the number of
    items, and a batch whose counters had already reached [total_images]
    is left in [processing]. *)
Theorem worker_ignores_batch_status (env : worker_env) (jobId : uuid)
    (db : Db) (job : processing_job) :
  processing_jobs db !! jobId = Some job →
  map_Forall (λ _ r, progress_check r = true) (processed_images db) →
  let images := job_images db jobId in
  let res := worker_POST env true (Some jobId) db in
  (images = [] →
   res.1 = worker_error 400 "No images" ∧
   processing_jobs res.2 !! jobId
   = Some (mark_no_images (mark_processing (worker_now env) job))) ∧
  (images ≠ [] →
   ∃ j', processing_jobs res.2 !! jobId = Some j' ∧
         res.1 = worker_ok (completed_count j') (failed_count j') ∧
         started_at j' = Some (worker_now env) ∧
         completed_count j' + failed_count j'
         = completed_count job + failed_count job + Z.of_nat (length images) ∧
         (total_images job ≤ completed_count job + failed_count job →
          status j' = processing) ∧
         (∀ id r, processed_images db !! id = Some r → job_id r = jobId →
                  ∃ r', processed_images res.2 !! id = Some r'
                        ∧ item_terminal (img_status r') = true)).
Proof.
  intros Hjob Hck images res. subst res. unfold worker_POST. simpl.
  rewrite Hjob.
  set (db1 := set_processing_jobs
                (alter (mark_processing (worker_now env)) jobId) db).
  change (job_images db1 jobId) with images.
  assert (processing_jobs db1 !! jobId
          = Some (mark_processing (worker_now env) job)) as Hjob1.
  { unfold db1. simpl. by rewrite lookup_alter_eq, Hjob. }
  split.
  - intros ->. rewrite bool_decide_true by done. simpl.
    split; [done|]. by rewrite !lookup_alter_eq, Hjob.
  - intros Hne. rewrite bool_decide_false by done.
    destruct (process_images_counts env (job_user_id job) jobId images db1
                (mark_processing (worker_now env) job))
      as (j' & Hj' & Htot & Hst & Hsum & Hstat & Hterm & _).
    + apply NoDup_job_images.
    + intros img [Hrow Hj]%elem_of_job_images. split; [exact Hrow|].
      split; [exact Hj|]. eapply map_Forall_lookup_1 in Hck; [exact Hck|exact Hrow].
    + exact Hjob1.
    + exists j'. simpl. rewrite Hj'. simpl.
      split; [done|]. split; [done|]. split; [exact Hst|].
      split; [exact Hsum|]. split; [exact Hstat|].
      intros id r Hrow Hj.
      apply (Hterm (id, r)). by apply elem_of_job_images.
Qed.

Lemma worker_ignores_batch_status_witness :
  let res := worker_POST second_run true (Some 7%N) finished_db in
  ∃ j', processing_jobs res.2 !! 7%N = Some j' ∧
        res.1 = worker_ok (completed_count j') (failed_count j') ∧
        started_at j' = Some 50 ∧
        completed_count j' + failed_count j' = 2 ∧
        status j' = processing.
Proof.
  intros res.
  destruct (worker_ignores_batch_status second_run 7 finished_db
              (mk_job 1 1 1 0 completed 1 (Some 10) (Some 20) None))
    as [_ H]; [vm_compute; reflexivity| |].
  - apply map_Forall_lookup. intros id r Hr.
    assert (id = 21%N ∧ progress_pct r = Some 100) as [-> Hp].
    { unfold finished_db in Hr. simpl in Hr.
      apply lookup_singleton_Some in Hr as [<- <-]. done. }
    unfold progress_check. by rewrite Hp.
  - destruct H as (j' & H1 & H2 & H3 & H4 & H5 & _); [by vm_compute|].
    exists j'. split; [exact H1|]. split; [exact H2|]. split; [exact H3|].
    split; [|apply H5; simpl; lia].
    rewrite H4. vm_compute. reflexivity.
Defined.

(** C2 as stated fails: a second run of the worker on a completed batch
    resets it to [processing], processes its completed item again, which
    ends [failed], and counts it a second time. *)
Lemma worker_rerun_changes_completed_batch :
  let res := worker_POST second_run true (Some 7%N) finished_db in
  status <$> processing_jobs finished_db !! 7%N = Some completed ∧
  batch_terminal completed = true ∧
  res.1 = worker_ok 1 1 ∧
  status <$> processing_jobs res.2 !! 7%N = Some processing ∧
  completed_count <$> processing_jobs res.2 !! 7%N = Some 1 ∧
  failed_count <$> processing_jobs res.2 !! 7%N = Some 1 ∧
  total_images <$> processing_jobs res.2 !! 7%N = Some 1 ∧
  img_status <$> processed_images finished_db !! 21%N = Some completed ∧
  img_status <$> processed_images res.2 !! 21%N = Some failed ∧
  res.2 ≠ finished_db.
Proof.
  assert (status <$> processing_jobs
            (worker_POST second_run true (Some 7%N) finished_db).2 !! 7%N
          = Some processing) as Hs by (vm_compute; reflexivity).
  cbv zeta. repeat split; try (vm_compute; reflexivity).
  intros Heq. rewrite Heq in Hs. vm_compute in Hs. discriminate Hs.
Qed.

(** * Further properties of the code *)

(** ** Stripe webhook *)

Section webhook.
Implicit Types (db : Db) (event : stripe_event) (o : stripe_event_object).

Lemma handle_event_stripe_events db o :
  stripe_events (handle_event db o) = stripe_events db.
Proof.
  destruct o as [reason price user invoice|mode user price intent|user| |reason]; simpl;
    repeat case_match; try done;
    unfold grant_monthly, grant_topup, subscription_deleted;
    by case_match.
Qed.

(** A delivery whose handling does not throw is recorded. *)
Lemma stripe_POST_recorded db event :
  handling_throws (event_object event) = false →
  event_id event ∈ stripe_events (stripe_POST db event).
Proof.
  intros Hno. unfold stripe_POST. case_decide; [done|]. rewrite Hno.
  simpl. set_solver.
Qed.

Lemma stripe_POST_keeps_events db event id :
  id ∈ stripe_events db → id ∈ stripe_events (stripe_POST db event).
Proof.
  intros Hid. unfold stripe_POST. case_decide; [done|].
  case_match; [done|]. simpl.
  rewrite handle_event_stripe_events. set_solver.
Qed.

Lemma stripe_deliveries_recorded db events event :
  event ∈ events →
  handling_throws (event_object event) = false →
  event_id event ∈ stripe_events (stripe_deliveries db events).
Proof.
  intros Hin Hno. unfold stripe_deliveries. revert db Hin.
  induction events as [|e events IH]; intros db; [by intros ?%elem_of_nil|].
  intros [->|Hin]%elem_of_cons; simpl; [|by apply IH].
  generalize (stripe_POST_recorded db e Hno). generalize (stripe_POST db e).
  clear. induction events as [|e' events IH]; intros db' Hid; [done|].
  simpl. by apply IH, stripe_POST_keeps_events.
Qed.

(** What an event leaves alone: the batch tables, and the wallet and
    ledger of every user it is not about. *)
Lemma handle_event_frame db o u :
  event_user o ≠ Some u →
  profiles (handle_event db o) !! u = profiles db !! u ∧
  ledger_of (handle_event db o) u = ledger_of db u.
Proof.
  intros Hu.
  destruct o as [reason price user invoice|mode user price intent|user| |reason];
    simpl in *; repeat case_match; try done; simplify_eq;
    unfold grant_monthly, grant_topup, subscription_deleted;
    case_match; try done; simpl;
    (split; [apply lookup_insert_ne; congruence|]);
    try done;
    unfold ledger_of; simpl; rewrite filter_app, filter_cons, filter_nil;
    rewrite decide_False by (simpl; congruence); by rewrite app_nil_r.
Qed.
End webhook.

(** X1: a delivery is skipped once an earlier delivery of the same event
    went through.  After any sequence of deliveries in which one of an
    event was handled without a throw, a further delivery with that event
    id changes nothing, whatever it carries.  A delivery whose handling
    throws (the subscription cannot be retrieved) writes nothing and is
    not recorded, so a later delivery of the event is handled as a first
    one. *)
Theorem stripe_redelivery_skipped (db : Db) (events : list stripe_event)
    (first again : stripe_event) :
  (first ∈ events →
   handling_throws (event_object first) = false →
   event_id again = event_id first →
   stripe_POST (stripe_deliveries db events) again
   = stripe_deliveries db events) ∧
  (handling_throws (event_object first) = true →
   stripe_POST db first = db ∧
   stripe_POST (stripe_POST db first) again = stripe_POST db again).
Proof.
  split.
  - intros Hin Hno Hid. unfold stripe_POST. rewrite Hid.
    by rewrite decide_True by by apply stripe_deliveries_recorded.
  - intros Hthrows.
    assert (stripe_POST db first = db) as Heq.
    { unfold stripe_POST. case_decide; [done|]. by rewrite Hthrows. }
    by rewrite Heq.
Qed.

Lemma stripe_redelivery_skipped_witness :
  let failed := mk_event "evt_1"
                  (invoice_subscription_unavailable "subscription_cycle") in
  let renewal := mk_event "evt_1"
                   (invoice_payment_succeeded "subscription_cycle"
                      (Some "price_starter") (Some 1%N) "in_1") in
  stripe_POST (fresh_db 1) failed = fresh_db 1 ∧
  stripe_POST (stripe_deliveries (fresh_db 1) [failed; renewal]) renewal
  = stripe_deliveries (fresh_db 1) [failed; renewal].
Proof.
  intros failed renewal. split.
  - destruct (stripe_redelivery_skipped (fresh_db 1) [] failed failed)
      as [_ H].
    apply H. reflexivity.
  - destruct (stripe_redelivery_skipped (fresh_db 1) [failed; renewal]
                renewal renewal) as [H _].
    apply H; [|reflexivity|reflexivity].
    apply elem_of_cons. right. apply elem_of_cons. by left.
Defined.

(** X2: an event changes neither the batch tables nor the bundles, and
    leaves the wallet and the ledger of every user other than the one
    named in its metadata as they were. *)
Theorem stripe_event_touches_one_wallet (db : Db) (event : stripe_event)
    (u : uuid) :
  event_user (event_object event) ≠ Some u →
  profiles (stripe_POST db event) !! u = profiles db !! u ∧
  ledger_of (stripe_POST db event) u = ledger_of db u ∧
  processing_jobs (stripe_POST db event) = processing_jobs db ∧
  processed_images (stripe_POST db event) = processed_images db ∧
  zip_bundles (stripe_POST db event) = zip_bundles db.
Proof.
  intros Hu. unfold stripe_POST. case_decide; [done|].
  destruct (handling_throws (event_object event)); [done|].
  destruct (handle_event_frame db (event_object event) u Hu) as [Hp Hl].
  split; [exact Hp|]. split; [exact Hl|].
  destruct (event_object event)
    as [reason price user invoice|mode user price intent|user| |reason];
    simpl; repeat case_match; try done;
    unfold grant_monthly, grant_topup, subscription_deleted;
    by case_match.
Qed.

Lemma stripe_event_touches_one_wallet_witness :
  let db := mk_db {[1%N := mk_profile free 3 0 0; 2%N := mk_profile pro 40 5 60]}
                  [] ∅ ∅ ∅ [] ∅ in
  let event := mk_event "evt_9" (customer_subscription_deleted (Some 2%N)) in
  profiles (stripe_POST db event) !! 1%N = Some (mk_profile free 3 0 0) ∧
  profiles (stripe_POST db event) !! 2%N = Some (mk_profile free 3 5 0).
Proof.
  intros db event. split; [|vm_compute; reflexivity].
  destruct (stripe_event_touches_one_wallet db event 1) as [H _].
  - simpl. discriminate.
  - rewrite H. vm_compute. reflexivity.
Defined.

(** ** Charges *)

(** X3: two charges in a row leave the wallet as one charge of their sum
    does: the same balances and the same cycle usage. *)
Theorem deduct_credits_twice (db : Db) (u : uuid) (p : profile) (a b : Z) :
  profiles db !! u = Some p →
  0 ≤ a → 0 ≤ b →
  a + b ≤ monthly_credits p + topup_credits p →
  let first := deduct_credits db u a in
  let second := deduct_credits first.2 u b in
  let both := deduct_credits db u (a + b) in
  first.1 = rpc_data true ∧ second.1 = rpc_data true ∧
  both.1 = rpc_data true ∧
  profiles second.2 = profiles both.2.
Proof.
  intros Hp Ha Hb Hsum first second both. subst first second both.
  rewrite (deduct_credits_accepts db u p a Hp) by lia.
  rewrite (deduct_credits_accepts db u p (a + b) Hp) by lia. simpl.
  erewrite deduct_credits_accepts; [|apply lookup_insert_eq|simpl; lia].
  simpl. split; [done|]. split; [done|]. split; [done|].
  rewrite insert_insert_eq. f_equal. f_equal; lia.
Qed.

Lemma deduct_credits_twice_witness :
  profiles (deduct_credits (deduct_credits (wallet_db 1 3 4) 1 2).2 1 4).2
  = profiles (deduct_credits (wallet_db 1 3 4) 1 6).2.
Proof.
  apply (deduct_credits_twice (wallet_db 1 3 4) 1 (mk_profile free 3 4 0) 2 4);
    [reflexivity|lia|lia|simpl; lia].
Defined.

(** ** Batch submission: validation and the order of the writes *)

Section validation.
Implicit Types (files : list file).

Lemma validate_files_error files r :
  validate_files files = Some r → ∃ message, r = process_error 400 message.
Proof.
  induction files as [|f files IH]; [done|]. simpl.
  repeat case_match; [intros [= <-]; by eexists..|exact IH].
Qed.

(** The bulk insert of image rows writes to [processed_images] alone. *)
Lemma insert_images_frame rows db :
  profiles (insert_images rows db) = profiles db ∧
  credit_transactions (insert_images rows db) = credit_transactions db ∧
  processing_jobs (insert_images rows db) = processing_jobs db ∧
  zip_bundles (insert_images rows db) = zip_bundles db ∧
  notifications (insert_images rows db) = notifications db.
Proof. unfold insert_images. by case_match. Qed.
End validation.

(** X4: the validation loop lets a list of files through exactly when
    every file has an accepted type and at most 50 MB. *)
Theorem validate_files_passes (files : list file) :
  validate_files files = None ↔
  Forall (λ f, f_type f ∈ ACCEPTED_TYPES ∧ f_size f ≤ 52428800) files.
Proof.
  induction files as [|f files IH]; [by split; [constructor|]|].
  simpl. rewrite Forall_cons, <-IH.
  case_bool_decide as Ht; simpl.
  - destruct (Z.ltb_spec (MAX_FILE_SIZE_MB * 1024 * 1024) (f_size f)) as [Hs|Hs];
      unfold MAX_FILE_SIZE_MB in Hs.
    + split; [done|]. intros [[_ ?] _]. lia.
    + split; [intros ?; repeat split; (done || lia)|by intros [_ ?]].
  - split; [done|]. by intros [[? _] _].
Qed.

(** X5: the route writes nothing before it has charged.  Either it
    answers 400, 401 or 402 and the database is as it was, or the
    submission was valid and funded and the ledger has gained exactly the
    charge of the number of files; and since the funds were checked first,
    the answer "Credit deduction failed." never comes in a run on its
    own. *)
Theorem process_POST_charges_before_writing (env : process_env)
    (user : option uuid) (files : list file) (vibe ratio : string) (db : Db) :
  let res := process_POST env user files vibe ratio db in
  res.1 ≠ process_error 402 "Credit deduction failed." ∧
  ((res.2 = db ∧
    ∃ st message, res.1 = process_error st message
                  ∧ (st = 400 ∨ st = 401 ∨ st = 402)) ∨
   (∃ user_id p e,
      user = Some user_id ∧ profiles db !! user_id = Some p ∧
      valid_submission files vibe ratio ∧
      Z.of_nat (length files) ≤ monthly_credits p + topup_credits p ∧
      credit_transactions res.2 = credit_transactions db ++ [e] ∧
      tx_user_id e = user_id ∧ amount e = - Z.of_nat (length files) ∧
      source e = job_charge)).
Proof.
  intros res. subst res. unfold process_POST.
  destruct user as [user_id|]; [|split; [done|left; split; [done|eauto 6]]].
  set (n := Z.of_nat (length files)).
  destruct ((n =? 0) || (MAX_FILES <? n)) eqn:Hn;
    [split; [done|left; split; [done|eauto 6]]|].
  apply orb_false_iff in Hn as [Hn0%Z.eqb_neq Hn20%Z.ltb_ge].
  destruct (validate_files files) as [r|] eqn:Hval.
  { destruct (validate_files_error files r Hval) as [message ->].
    split; [done|left; split; [done|eauto 6]]. }
  case_bool_decide as Hv; simpl;
    [|split; [done|left; split; [done|eauto 6]]].
  case_bool_decide as Hr; simpl;
    [|split; [done|left; split; [done|eauto 6]]].
  destruct (profiles db !! user_id) as [p|] eqn:Hp; simpl.
  - destruct (Z.ltb_spec (monthly_credits p + topup_credits p) n) as [Hlt|Hge].
    { split; [by intros [=]|left; split; [done|eauto 6]]. }
    rewrite (deduct_credits_accepts db user_id p n Hp Hge). simpl.
    assert (valid_submission files vibe ratio) as Hvalid.
    { unfold valid_submission. fold n. repeat split; (done || lia). }
    repeat case_match; simpl;
      rewrite ?(proj1 (proj2 (insert_images_frame _ _)));
      (split; [done|right; eexists user_id, p, _;
               repeat split; (done || lia)]).
  - change (0 + 0) with 0.
    destruct (Z.ltb_spec 0 n) as [Hlt|Hge]; [|lia].
    split; [by intros [=]|left; split; [done|eauto 6]].
Qed.

(** ** Worker: what image processing leaves alone *)

Section worker_frame.
Implicit Types (db : Db) (u : image_update).

Lemma update_processed_image_wallets now id u db :
  same_wallets db (update_processed_image now id u db).
Proof.
  unfold same_wallets, update_processed_image, sync_job_completion.
  repeat case_match; done.
Qed.

Lemma foldl_same_wallets {A} (f : Db → A → Db) (l : list A) db :
  (∀ d a, same_wallets d (f d a)) → same_wallets db (foldl f db l).
Proof.
  intros Hf. revert db. induction l as [|a l IH]; intros db; [done|].
  simpl. destruct (IH (f db a)) as (H1 & H2 & H3 & H4 & H5).
  destruct (Hf db a) as (G1 & G2 & G3 & G4 & G5).
  unfold same_wallets. by rewrite H1, H2, H3, H4, H5.
Qed.

Lemma process_images_wallets (env : worker_env) user jobId images db :
  same_wallets db (process_images env user jobId images db).
Proof.
  apply foldl_same_wallets. intros d img.
  apply foldl_same_wallets. intros d' u.
  apply update_processed_image_wallets.
Qed.
End worker_frame.

(** X6: the worker has no refund.  Whatever the images of the batch do,
    a call of the worker changes no wallet, no ledger entry, no bundle and
    no recorded Stripe event; and it adds a notification, one, for the
    owner of the batch, only when it answers with the counts. *)
Theorem worker_POST_leaves_wallets (env : worker_env) (authorized : bool)
    (jobId : option uuid) (db : Db) :
  let res := worker_POST env authorized jobId db in
  profiles res.2 = profiles db ∧
  credit_transactions res.2 = credit_transactions db ∧
  zip_bundles res.2 = zip_bundles db ∧
  stripe_events res.2 = stripe_events db ∧
  ((notifications res.2 = notifications db ∧
    ∃ st message, res.1 = worker_error st message) ∨
   (∃ id job c f,
      jobId = Some id ∧ processing_jobs db !! id = Some job ∧
      res.1 = worker_ok c f ∧
      notifications res.2
      = notifications db
        ++ [mk_notification (job_user_id job)
              (if 0 <? c then job_completed else job_failed) (Some id)])).
Proof.
  intros res. subst res. unfold worker_POST.
  destruct authorized; simpl; [|repeat split; eauto].
  destruct jobId as [id|]; [|repeat split; eauto].
  destruct (processing_jobs db !! id) as [job|] eqn:Hjob;
    [|repeat split; eauto].
  case_bool_decide as Himg; simpl; [repeat split; eauto|].
  set (db1 := set_processing_jobs
                (alter (mark_processing (worker_now env)) id) db).
  destruct (process_images_wallets env (job_user_id job) id
              (job_images db1 id) db1) as (H1 & H2 & H3 & H4 & H5).
  rewrite H1, H2, H3, H4, H5. repeat split; try done.
  right. by eexists id, job, _, _.
Qed.

(** X7: one update of an image row moves the counters of a batch by at
    most one step.  For every batch, owner, [total_images],
    [credits_charged] and [started_at] stay, no counter goes down, the two
    counters together grow by at most one, and the status changes only to
    [completed], and only when the counters then add up to
    [total_images]. *)
Theorem image_update_moves_counters_once (now : Z) (id : uuid)
    (u : image_update) (db : Db) (jobId : uuid) (j : processing_job) :
  processing_jobs db !! jobId = Some j →
  ∃ j', processing_jobs (update_processed_image now id u db) !! jobId = Some j' ∧
    job_user_id j' = job_user_id j ∧ total_images j' = total_images j ∧
    credits_charged j' = credits_charged j ∧ started_at j' = started_at j ∧
    completed_count j ≤ completed_count j' ∧
    failed_count j ≤ failed_count j' ∧
    completed_count j' + failed_count j'
    ≤ completed_count j + failed_count j + 1 ∧
    (status j' = status j ∨
     (status j' = completed ∧
      completed_count j' + failed_count j' = total_images j')).
Proof.
  intros Hj.
  assert (∃ j', Some j = Some j' ∧
    job_user_id j' = job_user_id j ∧ total_images j' = total_images j ∧
    credits_charged j' = credits_charged j ∧ started_at j' = started_at j ∧
    completed_count j ≤ completed_count j' ∧
    failed_count j ≤ failed_count j' ∧
    completed_count j' + failed_count j'
    ≤ completed_count j + failed_count j + 1 ∧
    (status j' = status j ∨
     (status j' = completed ∧
      completed_count j' + failed_count j' = total_images j'))) as Hsame.
  { exists j. do 5 (split; [done|]). do 3 (split; [lia|]). by left. }
  destruct (processed_images db !! id) as [r|] eqn:Hr.
  2:{ unfold update_processed_image. by rewrite Hr, Hj. }
  rewrite (update_processed_image_jobs now id u db r Hr).
  case_match; [|by rewrite Hj].
  destruct (decide (job_id r = jobId)) as [->|Hne].
  2:{ rewrite lookup_alter_ne by done. by rewrite Hj. }
  rewrite lookup_alter_eq, Hj. simpl. eexists. split; [done|].
  unfold count_item. simpl.
  do 4 (split; [done|]).
  repeat case_decide; try congruence; case_bool_decide; simpl;
    do 3 (split; [lia|]); (by left) || (right; split; [done|lia]).
Qed.

Lemma image_update_moves_counters_once_witness :
  let r := mk_image 7 1 "uploads/1/7/original_2.jpg" "b.jpg" None None
                    processing 2 (Some 40) None None None in
  let db := mk_db {[1%N := mk_profile free 0 0 2]} []
                  {[7%N := mk_job 1 2 1 0 processing 2 (Some 10) None None]}
                  {[21%N := r]} ∅ [] ∅ in
  ∃ j', processing_jobs
          (update_processed_image 99 21 (upd_failed "timed out") db) !! 7%N
        = Some j' ∧
        total_images j' = 2 ∧
        completed_count j' + failed_count j' ≤ 2.
Proof.
  intros r db.
  destruct (image_update_moves_counters_once 99 21 (upd_failed "timed out")
              db 7 (mk_job 1 2 1 0 processing 2 (Some 10) None None))
    as (j' & H1 & _ & H2 & _ & _ & _ & _ & H3 & _); [reflexivity|].
  exists j'. split; [exact H1|]. split; [exact H2|]. simpl in H3. lia.
Defined.

(** ** Polling: the first response that ends the loop *)

Section first_terminal.

Lemma poll_loop_first_terminal polls maxAttempts intervalMs left i k data :
  (k < left)%nat →
  (∀ m, (i ≤ m < i + k)%nat → keeps_waiting (polls m) = true) →
  polls (i + k)%nat = poll_ok data →
  terminal_response data = true →
  let o := poll_loop polls maxAttempts intervalMs left i in
  poll_attempts o = S k ∧
  poll_result o
  = (if bool_decide (nb_status data = "completed")
        && js_truthy (nb_output_url data)
     then inl (default EmptyString (nb_output_url data))
     else inr (default "Nano Banana processing failed" (nb_error data))) ∧
  last (poll_updates o)
  = Some (upd_progress (poll_progress (nb_progress data) (i + k) maxAttempts)).
Proof.
  revert left i. induction k as [|k IH]; intros left i Hk Hwait Hpoll Hterm.
  - destruct left as [|left]; [lia|]. simpl.
    rewrite Nat.add_0_r in Hpoll. rewrite Hpoll, Nat.add_0_r.
    unfold terminal_response in Hterm.
    destruct (bool_decide (nb_status data = "completed")
              && js_truthy (nb_output_url data)); [done|].
    simpl in Hterm. by rewrite Hterm.
  - destruct left as [|left]; [lia|].
    destruct (IH left (S i)) as (Ha & Hres & Hlast); [lia| |by rewrite <-Hpoll; f_equal; lia|done|].
    { intros m Hm. apply Hwait. lia. }
    replace (S i + k)%nat with (i + S k)%nat in Hlast by lia.
    assert (keeps_waiting (polls i) = true) as Hi by (apply Hwait; lia).
    simpl. destruct (polls i) as [m| |d]; simpl in Hi; [done| |].
    + simpl. by rewrite Ha, Hres.
    + unfold terminal_response in Hi. apply negb_true_iff in Hi.
      apply orb_false_iff in Hi as [-> ->]. simpl.
      rewrite Ha, Hres. split; [done|]. split; [done|].
      rewrite last_cons. by rewrite Hlast.
Qed.
End first_terminal.

(** X8: polling stops at the first response that is terminal.  When the
    polls before attempt [k] all keep the loop waiting and the response of
    attempt [k] is terminal, the loop has slept [k + 1] times 5 s; it
    returns the output URL if the response is [completed] with a URL, and
    otherwise throws the error of the response, or "Nano Banana processing
    failed" when the response has none. *)
Theorem polling_stops_at_first_terminal (polls : nat → poll_event) (k : nat)
    (data : poll_body) :
  (k < 60)%nat →
  (∀ m, (m < k)%nat → keeps_waiting (polls m) = true) →
  polls k = poll_ok data →
  terminal_response data = true →
  let o := pollNanoBanana polls in
  poll_attempts o = S k ∧
  poll_slept_ms o = 5000 * (Z.of_nat k + 1) ∧
  poll_result o
  = (if bool_decide (nb_status data = "completed")
        && js_truthy (nb_output_url data)
     then inl (default EmptyString (nb_output_url data))
     else inr (default "Nano Banana processing failed" (nb_error data))) ∧
  last (poll_updates o)
  = Some (upd_progress (poll_progress (nb_progress data) k 60)).
Proof.
  intros Hk Hwait Hpoll Hterm o. subst o.
  destruct (pollNanoBanana_bounded polls) as [_ Hslept].
  destruct (poll_loop_first_terminal polls 60 5000 60 0 k data)
    as (Ha & Hres & Hlast); [done| |done|done|].
  { intros m Hm. apply Hwait. lia. }
  rewrite <-pollNanoBanana_eq in Ha, Hres, Hlast.
  revert Hslept Ha Hres Hlast. generalize (pollNanoBanana polls).
  intros o Hslept Ha Hres Hlast.
  split; [exact Ha|]. split; [rewrite Hslept, Ha; lia|].
  split; [exact Hres|exact Hlast].
Qed.

Lemma polling_stops_at_first_terminal_witness :
  let polls := λ i : nat,
    if bool_decide (i = 2%nat)
    then poll_ok (mk_poll_body "completed" None (Some "https://nb/out.jpg") None)
    else poll_ok (mk_poll_body "completed" None None None) in
  poll_attempts (pollNanoBanana polls) = 3%nat ∧
  poll_slept_ms (pollNanoBanana polls) = 15000 ∧
  poll_result (pollNanoBanana polls) = inl "https://nb/out.jpg".
Proof.
  intros polls.
  destruct (polling_stops_at_first_terminal polls 2
              (mk_poll_body "completed" None (Some "https://nb/out.jpg") None))
    as (H1 & H2 & H3 & _); [lia| |reflexivity|reflexivity|].
  - intros m Hm. destruct m as [|[|m]]; [reflexivity|reflexivity|lia].
  - split; [exact H1|]. split; [exact H2|exact H3].
Defined.

(** ** Worker: the outcome of one image *)

Section image_outcome.
Implicit Types (db : Db) (r : processed_image) (u : image_update).

(** Start and progress updates leave the output columns alone. *)
Lemma foldl_step_row_output r mids :
  forallb progress_update mids = true →
  output_path (foldl step_row r mids) = output_path r ∧
  file_size_bytes (foldl step_row r mids) = file_size_bytes r ∧
  img_error_message (foldl step_row r mids) = img_error_message r.
Proof.
  revert r. induction mids as [|u mids IH]; intros r Hm; [done|].
  simpl in Hm. apply andb_true_iff in Hm as [Hu Hm].
  destruct u as [|pct| |]; try discriminate Hu. simpl.
  destruct (IH (step_row r (upd_progress pct)) Hm) as (-> & -> & ->).
  unfold step_row. by case_match.
Qed.

(** The last update of [processImage] is [completed], with the columns of
    the stored output, exactly when every outside step succeeds. *)
Lemma processImage_last (env : image_env) (user job : uuid) (pos : Z) :
  ∃ final, last (processImage env user job pos) = Some final ∧
    match final with
    | upd_completed outputPath byteLength signedUrl exp =>
        image_succeeds env ∧
        outputPath = output_path_of user job pos ∧
        output_fetch env = fetch_ok byteLength ∧
        signedUrl = dlSigned env ∧ exp = date_now env + 86400000
    | upd_failed _ => ¬ image_succeeds env
    | _ => False
    end.
Proof.
  unfold processImage, image_succeeds.
  generalize (pollNanoBanana (polls env)). intros o.
  destruct (js_truthy (sign_original env)); simpl;
    [|eexists; split; [done|]; by intros [? _]].
  destruct (submit env) as [m|st txt|[ext|m]];
    [eexists; split; [done|]; by intros (_ & [? ?] & _)..| |
     eexists; split; [done|]; by intros (_ & [? ?] & _)].
  rewrite !last_cons, last_app.
  destruct (poll_result o) as [url|m]; simpl;
    [|eexists; split; [done|]; by intros (_ & _ & [? ?] & _)].
  destruct (output_fetch env) as [m|st txt|len]; simpl;
    [eexists; split; [done|]; by intros (_ & _ & _ & [? ?] & _)..|].
  destruct (storeErr env) as [m|]; simpl;
    [eexists; split; [done|]; by intros (_ & _ & _ & _ & ?)|].
  eexists. split; [done|]. repeat split; eauto.
Qed.
End image_outcome.

(** X9: what one run of [processImage] leaves in the row.  The row ends
    [completed] exactly when signing, submission, polling, download and
    storing all succeeded, and [failed] otherwise.  A completed row holds
    the output path, the size of the download, the signed URL and an
    expiry 24 h after the clock; a failed row keeps its output columns and
    gets an error message.  The batch of the row counts the image once,
    under the matching counter. *)
Theorem processImage_outcome (env : image_env) (now : Z) (id user job : uuid)
    (db : Db) (r : processed_image) (j : processing_job) :
  processed_images db !! id = Some r →
  progress_check r = true →
  processing_jobs db !! job_id r = Some j →
  let db' := run_image_updates now id
               (processImage env user job (position r)) db in
  ∃ r' j', processed_images db' !! id = Some r' ∧
    processing_jobs db' !! job_id r = Some j' ∧
    (image_succeeds env →
       img_status r' = completed ∧ progress_pct r' = Some 100 ∧
       output_path r' = Some (output_path_of user job (position r)) ∧
       fetch_ok <$> file_size_bytes r' = Some (output_fetch env) ∧
       output_signed_url r' = dlSigned env ∧
       output_signed_url_exp r' = Some (date_now env + 86400000) ∧
       completed_count j' = completed_count j + 1 ∧
       failed_count j' = failed_count j) ∧
    (¬ image_succeeds env →
       img_status r' = failed ∧ is_Some (img_error_message r') ∧
       output_path r' = output_path r ∧
       file_size_bytes r' = file_size_bytes r ∧
       completed_count j' = completed_count j ∧
       failed_count j' = failed_count j + 1).
Proof.
  intros Hid Hck Hj db'.
  destruct (run_processImage now id env user job (position r) db r j Hid Hck Hj)
    as (r' & Hrows & _ & _ & _ & Hjobs).
  fold db' in Hrows, Hjobs.
  assert (processed_images db' !! id = Some r') as Hr'
    by (rewrite Hrows; apply lookup_insert_eq).
  exists r', (count_item now (img_status r') j).
  split; [exact Hr'|]. split; [by rewrite Hjobs, lookup_alter_eq, Hj|].
  clear Hjobs Hrows.
  assert (r' = foldl step_row r (processImage env user job (position r)))
    as ->.
  { unfold db' in Hr'.
    rewrite (run_image_updates_rows now id _ db r Hid), lookup_insert_eq in Hr'.
    congruence. }
  clear Hr' db'.
  destruct (processImage_shape env user job (position r))
    as (mids & final & Heq & Hmids & Hfinal).
  destruct (processImage_last env user job (position r))
    as (final' & Hlast & Hspec).
  rewrite Heq in Hlast |- *.
  rewrite app_comm_cons, last_snoc in Hlast. injection Hlast as <-.
  simpl. rewrite foldl_app. simpl.
  set (r2 := foldl step_row (step_row r upd_start) mids).
  destruct (foldl_step_row_output (step_row r upd_start) mids Hmids)
    as (Hop & Hfs & Hem).
  fold r2 in Hop, Hfs, Hem.
  assert (progress_check r2 = true) as Hck2.
  { apply foldl_step_row_check. by apply step_row_check. }
  assert (step_row r upd_start = apply_image_update upd_start r) as Hstart
    by done.
  rewrite Hstart in Hop, Hfs, Hem. simpl in Hop, Hfs, Hem.
  destruct final as [|pct|outputPath byteLength signedUrl exp|message];
    try done.
  - destruct Hspec as (Hok & -> & Hfetch & -> & ->).
    assert (step_row r2 (upd_completed (output_path_of user job (position r))
                           byteLength (dlSigned env) (date_now env + 86400000))
            = apply_image_update
                (upd_completed (output_path_of user job (position r))
                   byteLength (dlSigned env) (date_now env + 86400000)) r2)
      as -> by done.
    simpl. split; [|done]. intros _. rewrite Hfetch.
    unfold count_item. simpl. repeat split; eauto; lia.
  - rewrite (step_row_failed r2 message Hck2). simpl.
    split; [done|]. intros _. unfold count_item. simpl.
    repeat split; eauto; lia.
Qed.

Lemma processImage_outcome_witness :
  let r := mk_image 7 1 "uploads/1/7/original_1.jpg" "a.jpg" None None
                    queued 1 (Some 0) None None None in
  let db := mk_db ∅ []
                  {[7%N := mk_job 1 1 0 0 processing 1 (Some 10) None None]}
                  {[21%N := r]} ∅ [] ∅ in
  let db' := run_image_updates 50 21 (processImage falling_provider 1 7 1) db in
  ∃ r' j', processed_images db' !! 21%N = Some r' ∧
           processing_jobs db' !! 7%N = Some j' ∧
           img_status r' = completed ∧
           output_path r' = Some "outputs/1/7/enhanced_1.jpg" ∧
           completed_count j' = 1.
Proof.
  intros r db db'.
  destruct (processImage_outcome falling_provider 50 21 1 7 db r
              (mk_job 1 1 0 0 processing 1 (Some 10) None None))
    as (r' & j' & H1 & H2 & H3 & _); [reflexivity|reflexivity|reflexivity|].
  exists r', j'. split; [exact H1|]. split; [exact H2|].
  destruct H3 as (Hs & _ & Hp & _ & _ & _ & Hc & _).
  - unfold image_succeeds. split; [reflexivity|].
    split; [by eexists|]. split; [eexists; vm_compute; reflexivity|].
    split; [by eexists|reflexivity].
  - split; [exact Hs|]. split; [exact Hp|exact Hc].
Defined.

(** ** Bundle: who is served, and what a request leaves behind *)

Section bundle_requests.

(** The route writes no table. *)
Lemma zip_POST_db (env : zip_env) (user : option uuid) (jobId : uuid)
    (db : Db) :
  zr_db (zip_POST env user jobId db) = db.
Proof. unfold zip_POST. by repeat case_match. Qed.

(** A cache hit needs a record whose expiry is ahead of the clock. *)
Lemma cached_bundle_Some now existing url :
  cached_bundle now existing = Some url ↔
  ∃ b expiry, existing = Some b ∧ signed_url b = Some url ∧
              signed_url_exp b = Some expiry ∧ url ≠ EmptyString ∧
              now + 60000 < expiry.
Proof.
  unfold cached_bundle. split.
  - destruct existing as [b|]; [|done].
    destruct (signed_url b) as [u|] eqn:Hurl; [|done].
    destruct (signed_url_exp b) as [e|] eqn:Hexp; [|done]. simpl.
    case_bool_decide as Hne; simpl; [done|].
    destruct (Z.ltb_spec (now + 60000) e); [|done].
    intros [= ->]. by exists b, e.
  - intros (b & e & -> & -> & -> & Hne & Hlt). simpl.
    rewrite bool_decide_false by done. simpl.
    by destruct (Z.ltb_spec (now + 60000) e); [|lia].
Qed.

Lemma cached_bundle_later now1 now2 existing :
  now1 ≤ now2 →
  cached_bundle now1 existing = None → cached_bundle now2 existing = None.
Proof.
  intros Hle Hnone.
  destruct (cached_bundle now2 existing) as [url|] eqn:Hc; [|done].
  apply cached_bundle_Some in Hc as (b & e & -> & Hu & He & Hne & Hlt).
  assert (cached_bundle now1 (Some b) = Some url) as Hhit.
  { apply cached_bundle_Some. exists b, e. repeat split; try done. lia. }
  by rewrite Hhit in Hnone.
Qed.
End bundle_requests.

(** X10: a bundle is served only to the owner of a completed batch, under
    the file name of the batch, with a URL that is not empty.  The URL is
    either that of a bundle record found for the batch, whose expiry is
    more than a minute after the clock of the request, and then nothing is
    built; or the signed URL of an archive that the request built from
    the completed images of the batch, at least one, and stored. *)
Theorem zip_POST_serves_owner_of_completed (env : zip_env)
    (user : option uuid) (jobId : uuid) (db : Db) (url filename : string) :
  zr_response (zip_POST env user jobId db) = zip_ok url filename →
  ∃ user_id job,
    user = Some user_id ∧ processing_jobs db !! jobId = Some job ∧
    job_user_id job = user_id ∧ status job = completed ∧
    filename = zip_filename jobId ∧ url ≠ EmptyString ∧
    ((zr_stored (zip_POST env user jobId db) = None ∧
      ∃ b expiry, zip_bundles db !! jobId = Some b ∧
                  signed_url b = Some url ∧ signed_url_exp b = Some expiry ∧
                  zip_now env + 60000 < expiry) ∨
     (∃ folder, zr_stored (zip_POST env user jobId db) = Some folder ∧
                build_zip env (completed_images db jobId) = inr folder ∧
                completed_images db jobId ≠ [] ∧
                zips_signed env = Some url)).
Proof.
  unfold zip_POST. destruct user as [user_id|]; [|done].
  destruct (processing_jobs db !! jobId) as [job|] eqn:Hjob; [|done].
  case_bool_decide as Hu; [|done]. case_bool_decide as Hs; [|done]. simpl.
  destruct (cached_bundle (zip_now env) (zip_bundles db !! jobId))
    as [cached|] eqn:Hc.
  - simpl. intros [= -> <-].
    apply cached_bundle_Some in Hc as (b & e & Hb & Hurl & He & Hne & Hlt).
    exists user_id, job. do 5 (split; [done|]). split; [done|].
    left. split; [done|]. by exists b, e.
  - case_bool_decide as Himg; [done|].
    destruct (build_zip env (completed_images db jobId)) as [m|folder];
      [done|].
    destruct (uploadErr env); [done|].
    destruct (zips_signed env) as [u|]; [|done].
    simpl. case_bool_decide as Hne; simpl; [done|].
    intros [= -> <-].
    exists user_id, job. do 5 (split; [done|]). split; [done|].
    right. by exists folder.
Qed.

Lemma zip_POST_serves_owner_of_completed_witness :
  ∃ folder, zr_stored (zip_POST one_missing_output (Some 1%N) 7 two_image_db)
            = Some folder ∧
            zips_signed one_missing_output = Some "https://signed/bundle".
Proof.
  destruct (zip_POST_serves_owner_of_completed one_missing_output (Some 1%N) 7
              two_image_db "https://signed/bundle" "nomnom-batch-7.zip")
    as (u & job & _ & _ & _ & _ & _ & _ & [[Hnone _]|(folder & Hf & _ & _ & Hs)]);
    [vm_compute; reflexivity| |].
  - exfalso.
    assert (is_Some (zr_stored (zip_POST one_missing_output (Some 1%N) 7
                                  two_image_db))) as [x Hx]
      by (vm_compute; eauto).
    rewrite Hnone in Hx. discriminate Hx.
  - exists folder. split; [exact Hf|exact Hs].
Defined.

(** X11: a bundle request writes one thing at most.  It never changes a
    wallet, the ledger, a batch, an image row or a notification, nor the
    bundle record of another batch; and when it does not answer with a
    URL, the database is as it was. *)
Theorem zip_POST_writes_one_record (env : zip_env) (user : option uuid)
    (jobId : uuid) (db : Db) :
  let res := zip_POST env user jobId db in
  profiles (zr_db res) = profiles db ∧
  credit_transactions (zr_db res) = credit_transactions db ∧
  processing_jobs (zr_db res) = processing_jobs db ∧
  processed_images (zr_db res) = processed_images db ∧
  notifications (zr_db res) = notifications db ∧
  (∀ id, id ≠ jobId → zip_bundles (zr_db res) !! id = zip_bundles db !! id) ∧
  ((∀ url filename, zr_response res ≠ zip_ok url filename) → zr_db res = db).
Proof.
  intros res. subst res. by rewrite zip_POST_db.
Qed.

(** X12: a build leaves no cache behind.  The upsert of the bundle record
    names [job_id] as its conflict target, a column without a unique index,
    so it is refused and the database after a request is the database
    before it.  After a request that built and stored an archive, the same
    request at any later clock, with the same answers from the blob
    store, therefore builds and stores the archive again and answers as
    the first did. *)
Theorem zip_POST_leaves_no_cache (env : zip_env) (user : option uuid)
    (jobId : uuid) (db : Db) (folder : gmap string string) (later : Z) :
  let first := zip_POST env user jobId db in
  let again := mk_zip_env later (outputs_signed env) (output_res env)
                 (generateAsync env) (uploadErr env) (zips_signed env) in
  let second := zip_POST again user jobId (zr_db first) in
  zr_stored first = Some folder →
  zip_now env ≤ later →
  zr_db first = db ∧
  zr_stored second = Some folder ∧
  zr_response second = zr_response first ∧
  zr_db second = db.
Proof.
  intros first again second Hstored Hlater. subst first second.
  rewrite !zip_POST_db. split; [done|]. split; [|split; [|done]];
    revert Hstored; unfold zip_POST;
    (destruct user as [user_id|]; [|done]);
    (destruct (processing_jobs db !! jobId) as [job|]; [|done]);
    (case_bool_decide; [|done]); (case_bool_decide; [|done]); simpl;
    (destruct (cached_bundle (zip_now env) (zip_bundles db !! jobId))
       as [cached|] eqn:Hc; [done|]);
    rewrite (cached_bundle_later (zip_now env) later _ Hlater Hc);
    (case_bool_decide; [done|]);
    change (build_zip again (completed_images db jobId))
      with (build_zip env (completed_images db jobId));
    (destruct (build_zip env (completed_images db jobId)); [done|]);
    (destruct (uploadErr env); [done|]);
    (destruct (zips_signed env) as [u|]; [|done]); simpl;
    (case_bool_decide; simpl; done).
Qed.

Lemma zip_POST_leaves_no_cache_witness :
  let first := zip_POST one_missing_output (Some 1%N) 7 two_image_db in
  let again := mk_zip_env 2000 (outputs_signed one_missing_output)
                 (output_res one_missing_output)
                 (generateAsync one_missing_output)
                 (uploadErr one_missing_output)
                 (zips_signed one_missing_output) in
  zr_db first = two_image_db ∧
  zr_stored (zip_POST again (Some 1%N) 7 (zr_db first))
  = Some {["01_nomnom_a_4k.jpg" := "JPEG"]}.
Proof.
  intros first again.
  destruct (zip_POST_leaves_no_cache one_missing_output (Some 1%N) 7
              two_image_db {["01_nomnom_a_4k.jpg" := "JPEG"]} 2000)
    as (H1 & H2 & _); [vm_compute; reflexivity|simpl; lia|].
  split; [exact H1|exact H2].
Defined.

(** ** Bundle: batches and entry names *)

Section batches.
Context {A : Type}.

Lemma slices_spec fuel (l : list A) :
  (length l ≤ fuel)%nat →
  Forall (λ b, (1 ≤ length b ≤ BATCH_SIZE)%nat) (slices fuel l) ∧
  length (slices fuel l) = ((length l + 4) / 5)%nat.
Proof.
  revert l. induction fuel as [|fuel IH]; intros l Hl.
  { destruct l; [by split; [constructor|]|simpl in Hl; lia]. }
  destruct l as [|a l]; [by split; [constructor|]|].
  change (slices (S fuel) (a :: l))
    with (take BATCH_SIZE (a :: l) :: slices fuel (drop BATCH_SIZE (a :: l))).
  destruct (IH (drop BATCH_SIZE (a :: l))) as [Hall Hlen].
  { rewrite length_drop. simpl in *. unfold BATCH_SIZE. lia. }
  split.
  - constructor; [|exact Hall]. rewrite length_take. simpl length.
    unfold BATCH_SIZE. lia.
  - rewrite length_cons, Hlen, length_drop. unfold BATCH_SIZE.
    generalize (length (a :: l)) (eq_refl : length (a :: l) = S (length l)).
    intros n Hn.
    destruct (decide (n < 5)%nat) as [Hlt|Hge].
    + replace (n - 5)%nat with 0%nat by lia.
      assert (n = 1 ∨ n = 2 ∨ n = 3 ∨ n = 4)%nat as Hcases by lia.
      by destruct Hcases as [Hc|[Hc|[Hc|Hc]]]; rewrite Hc.
    + replace (n + 4)%nat with ((n - 5 + 4) + 1 * 5)%nat by lia.
      rewrite Nat.div_add by done. lia.
Qed.

Lemma no_dot_strip_ext s : no_dot s = true → strip_ext s = None.
Proof.
  induction s as [|c s IH]; [done|]. simpl.
  intros [Hc Hs]%andb_true_iff. rewrite (IH Hs).
  apply negb_true_iff in Hc. by rewrite Hc.
Qed.
End batches.

(** X13: the download loop goes over the images in batches of at most
    five: no batch is empty, there are ⌈n/5⌉ of them, and in order they
    make up the list of images, none left out and none twice. *)
Theorem slices_cover_images {A} (images : list A) :
  let batches := slices (length images) images in
  concat batches = images ∧
  Forall (λ b, (1 ≤ length b ≤ BATCH_SIZE)%nat) batches ∧
  length batches = ((length images + 4) / 5)%nat.
Proof.
  intros batches. subst batches.
  split; [by apply concat_slices|]. by apply slices_spec.
Qed.

(** X14: the archive name of an image drops the extension of the
    uploaded file name, which is what follows the last dot, when
    something follows it: [strip_ext] answers [p] exactly for the names
    [p.ext] with [ext] not empty and without a dot. *)
Theorem strip_ext_spec (s p : string) :
  strip_ext s = Some p ↔
  ∃ ext, s = p +:+ "." +:+ ext ∧ ext ≠ EmptyString ∧ no_dot ext = true.
Proof.
  split.
  - revert p. induction s as [|c s IH]; intros p; [done|]. simpl.
    destruct (strip_ext s) as [p'|].
    + intros [= <-]. destruct (IH p' eq_refl) as (ext & -> & Hne & Hnd).
      by exists ext.
    + destruct (Ascii.eqb_spec c "."%char) as [->|]; [|done]. simpl.
      case_bool_decide as Hs; [done|]. simpl.
      destruct (no_dot s) eqn:Hnd; [|done]. intros [= <-]. by exists s.
  - intros (ext & -> & Hne & Hnd). induction p as [|c p IH].
    + change (strip_ext (String "."%char ext) = Some EmptyString). simpl.
      rewrite (no_dot_strip_ext ext Hnd), Hnd.
      by rewrite bool_decide_false.
    + change (String c p +:+ "." +:+ ext) with (String c (p +:+ "." +:+ ext)).
      simpl. simpl in IH. by rewrite IH.
Qed.

(** ** The dashboard form against the server *)

Section client.
Implicit Types (files incoming : list file) (st : upload_zone).

Lemma validate_files_Forall files :
  validate_files files = None ↔
  Forall (λ f, f_type f ∈ ACCEPTED_TYPES ∧ f_size f ≤ 52428800) files.
Proof.
  induction files as [|f files IH]; [by split; [constructor|]|].
  simpl. rewrite Forall_cons, <-IH.
  case_bool_decide as Ht; simpl.
  - destruct (Z.ltb_spec (MAX_FILE_SIZE_MB * 1024 * 1024) (f_size f)) as [Hs|Hs];
      unfold MAX_FILE_SIZE_MB in Hs.
    + split; [done|]. intros [[_ ?] _]. lia.
    + split; [intros ?; repeat split; (done || lia)|by intros [_ ?]].
  - split; [done|]. by intros [[? _] _].
Qed.

Lemma validate_files_app files1 files2 :
  validate_files (files1 ++ files2) = None ↔
  validate_files files1 = None ∧ validate_files files2 = None.
Proof. by rewrite !validate_files_Forall, Forall_app. Qed.

(** The zone's validation from any accumulator. *)
Lemma validate_foldl incoming valid errors :
  let step := λ (acc : list file * list string) f,
    if negb (bool_decide (f_type f ∈ ACCEPTED_TYPES)) then
      (acc.1, acc.2 ++ [f_name f +:+ ": unsupported format"])
    else if MAX_FILE_SIZE_MB * 1024 * 1024 <? f_size f then
      (acc.1, acc.2 ++ [f_name f +:+ ": exceeds 50 MB"])
    else (acc.1 ++ [f], acc.2) in
  let res := foldl step (valid, errors) incoming in
  (length errors ≤ length res.2)%nat ∧
  (validate_files incoming = None → res = (valid ++ incoming, errors)) ∧
  (validate_files incoming ≠ None → (length errors < length res.2)%nat).
Proof.
  intros step. revert valid errors.
  induction incoming as [|f incoming IH]; intros valid errors.
  { simpl. split; [done|]. split; [by rewrite app_nil_r|done]. }
  cbn [foldl validate_files].
  destruct (decide (f_type f ∈ ACCEPTED_TYPES)) as [Ht|Ht].
  - rewrite (bool_decide_true _ Ht). simpl negb. cbv iota.
    destruct (MAX_FILE_SIZE_MB * 1024 * 1024 <? f_size f) eqn:Hs.
    + assert (step (valid, errors) f
              = (valid, errors ++ [f_name f +:+ ": exceeds 50 MB"])) as ->.
      { unfold step. simpl. by rewrite (bool_decide_true _ Ht), Hs. }
      destruct (IH valid (errors ++ [f_name f +:+ ": exceeds 50 MB"]))
        as (Hle & _ & _).
      rewrite length_app in Hle. simpl in Hle.
      split; [lia|]. split; [done|]. intros _. lia.
    + assert (step (valid, errors) f = (valid ++ [f], errors)) as ->.
      { unfold step. simpl. by rewrite (bool_decide_true _ Ht), Hs. }
      destruct (IH (valid ++ [f]) errors) as (Hle & Hnone & Hsome).
      split; [exact Hle|]. split; [|exact Hsome].
      intros Hv. rewrite (Hnone Hv). by rewrite <-app_assoc.
  - rewrite (bool_decide_false _ Ht). simpl negb. cbv iota.
    assert (step (valid, errors) f
            = (valid, errors ++ [f_name f +:+ ": unsupported format"])) as ->.
    { unfold step. simpl. by rewrite (bool_decide_false _ Ht). }
    destruct (IH valid (errors ++ [f_name f +:+ ": unsupported format"]))
      as (Hle & _ & _).
    rewrite length_app in Hle. simpl in Hle.
    split; [lia|]. split; [done|]. intros _. lia.
Qed.

(** [addFiles] takes the whole selection or none of it. *)
Lemma addFiles_files st incoming :
  zone_files (addFiles st incoming)
  = match validate_files incoming with
    | None => take 20 (zone_files st ++ incoming)
    | Some _ => zone_files st
    end.
Proof.
  unfold addFiles, validate.
  destruct (validate_foldl incoming [] []) as (_ & H1 & H2).
  cbv zeta in H1, H2.
  destruct (validate_files incoming) as [r|] eqn:Hv.
  - destruct (foldl _ _ incoming) as [valid errors]. simpl in H2.
    rewrite bool_decide_false; [done|].
    assert (0 < length errors)%nat by (by apply H2). lia.
  - rewrite (H1 eq_refl). simpl.
    destruct (Z.ltb_spec MAX_FILES (Z.of_nat (length (zone_files st ++ incoming))))
      as [Hlt|Hge]; simpl; [done|].
    rewrite take_ge; [done|]. unfold MAX_FILES in Hge. lia.
Qed.

Lemma zone_step_ok st op :
  (length (zone_files st) ≤ 20)%nat ∧ validate_files (zone_files st) = None →
  (length (zone_files (zone_step st op)) ≤ 20)%nat ∧
  validate_files (zone_files (zone_step st op)) = None.
Proof.
  intros [Hlen Hok]. destruct op as [incoming|index|]; simpl;
    [| |split; [lia|done]].
  - rewrite addFiles_files. destruct (validate_files incoming) eqn:Hv; [done|].
    split; [rewrite length_take; lia|].
    apply validate_files_Forall, Forall_take, validate_files_Forall.
    by apply validate_files_app.
  - split.
    + pose proof (sublist_length _ _ (sublist_delete (zone_files st) index)).
      lia.
    + apply validate_files_Forall, Forall_delete, validate_files_Forall, Hok.
Qed.
End client.

Section form_and_route.
Implicit Types (db : Db) (env : process_env) (files : list file).

(** The wallet after the route has charged a valid, funded submission,
    whatever happens to the job and the uploads afterwards. *)
Lemma process_POST_profiles env user_id files vibe ratio db p :
  valid_submission files vibe ratio →
  profiles db !! user_id = Some p →
  Z.of_nat (length files) ≤ monthly_credits p + topup_credits p →
  let n := Z.of_nat (length files) in
  let res := process_POST env (Some user_id) files vibe ratio db in
  profiles res.2
  = <[user_id := mk_profile (plan p)
                   (monthly_credits p - Z.min n (monthly_credits p))
                   (topup_credits p - (n - Z.min n (monthly_credits p)))
                   (credits_used_cycle p + n)]> (profiles db) ∧
  ∀ st message, res.1 = process_error st message → st = 500.
Proof.
  intros ([Hn1 Hn2] & Hval & Hv & Hr) Hp Hfunds n res. subst res.
  unfold process_POST.
  replace ((Z.of_nat (length files) =? 0)
           || (MAX_FILES <? Z.of_nat (length files))) with false
    by (symmetry; apply orb_false_iff; split;
        [apply Z.eqb_neq|apply Z.ltb_ge]; lia).
  rewrite Hval, !bool_decide_true by done. fold n. simpl. rewrite Hp. simpl.
  replace (monthly_credits p + topup_credits p <? n) with false
    by (symmetry; apply Z.ltb_ge; lia).
  rewrite (deduct_credits_accepts db user_id p n Hp Hfunds). simpl.
  repeat case_match; simpl;
    rewrite ?(proj1 (insert_images_frame _ _)); simpl;
    (split; [done|]); intros st message; by intros [= <- _].
Qed.
End form_and_route.

(** X15: the drop zone takes a selection whole or not at all, and it
    judges files as the route does.  A selection with a file that the
    route's validation would refuse leaves the list as it was and shows an
    error; a selection without one is appended, and the list is cut to its
    first 20 files. *)
Theorem addFiles_all_or_nothing (st : upload_zone) (incoming : list file) :
  (validate_files incoming = None →
   zone_files (addFiles st incoming) = take 20 (zone_files st ++ incoming)) ∧
  (validate_files incoming ≠ None →
   zone_files (addFiles st incoming) = zone_files st ∧
   is_Some (zone_error (addFiles st incoming))).
Proof.
  pose proof (addFiles_files st incoming) as Hfiles.
  destruct (validate_files incoming) as [r|] eqn:Hv.
  - split; [done|]. intros _. split; [exact Hfiles|].
    unfold addFiles, validate.
    destruct (validate_foldl incoming [] []) as (_ & _ & H2).
    cbv zeta in H2. rewrite Hv in H2.
    destruct (foldl _ _ incoming) as [valid errors]. simpl in H2.
    rewrite bool_decide_false; [by eexists|].
    assert (0 < length errors)%nat by (by apply H2). lia.
  - split; [by intros _|done].
Qed.

(** X16: whatever files are added to and removed from the form, and
    however often it is cleared, starting from the empty form, the list it
    holds has at most 20 files and passes the route's validation of types
    and sizes. *)
Theorem zone_files_pass_validation (ops : list zone_op) :
  let st := foldl zone_step empty_zone ops in
  (length (zone_files st) ≤ 20)%nat ∧ validate_files (zone_files st) = None.
Proof.
  intros st. subst st.
  assert ((length (zone_files empty_zone) ≤ 20)%nat
          ∧ validate_files (zone_files empty_zone) = None) as Hinit
    by (simpl; split; [lia|done]).
  revert Hinit. generalize empty_zone.
  induction ops as [|op ops IH]; intros st Hst; [exact Hst|].
  simpl. apply IH. by apply zone_step_ok.
Qed.

(** X17: the optimistic display agrees with the charge.  When the form
    may submit ([canSubmit]) a valid selection and the profile it holds is
    the one in the database, the route does not answer 400, 401 or 402,
    and the wallet it leaves is the [optimisticProfile] for an offset of
    the number of files: monthly credits first, the rest from the
    top-ups. *)
Theorem optimistic_profile_matches_charge (env : process_env) (u : uuid)
    (files : list file) (vibe ratio : string) (db : Db) (p : profile) :
  profiles db !! u = Some p →
  0 ≤ topup_credits p →
  canSubmit p files false = true →
  valid_submission files vibe ratio →
  let res := process_POST env (Some u) files vibe ratio db in
  profiles res.2 !! u = Some (optimisticProfile p (Z.of_nat (length files))) ∧
  ∀ st message, res.1 = process_error st message → st = 500.
Proof.
  intros Hp Ht Hcan Hvalid res. subst res.
  unfold canSubmit in Hcan.
  apply andb_true_iff in Hcan as [Hcan _].
  apply andb_true_iff in Hcan as [Hpos%Z.ltb_lt Hfunds%Z.leb_le].
  destruct (process_POST_profiles env u files vibe ratio db p Hvalid Hp Hfunds)
    as [Hprof Hresp].
  split; [|exact Hresp].
  rewrite Hprof, lookup_insert_eq. unfold optimisticProfile.
  f_equal. f_equal; lia.
Qed.

Lemma optimistic_profile_matches_charge_witness :
  let p := mk_profile free 3 4 0 in
  let files := five_files in
  profiles (process_POST failing_storage (Some 1%N) files "natural_light"
              "AUTO" (wallet_db 1 3 4)).2 !! 1%N
  = Some (mk_profile free 0 2 5).
Proof.
  intros p files.
  destruct (optimistic_profile_matches_charge failing_storage 1 files
              "natural_light" "AUTO" (wallet_db 1 3 4) p) as [H _].
  - reflexivity.
  - simpl. lia.
  - reflexivity.
  - unfold valid_submission. simpl.
    split; [unfold MAX_FILES; lia|]. split; [reflexivity|].
    split; apply elem_of_cons; by left.
  - exact H.
Defined.

(** ** From the submission to the end of the worker *)

Section submission_to_worker.
Implicit Types (db : Db) (r : processed_image) (j : processing_job).

(** The image that brings the counters up to [total_images] completes
    the batch. *)
Lemma count_item_hits now s j :
  item_terminal s = true →
  completed_count j + failed_count j + 1 = total_images j →
  let j' := count_item now s j in
  status j' = completed ∧ completed_at j' = Some now ∧
  completed_count j' + failed_count j' = total_images j'.
Proof.
  intros Hs Hsum. destruct s; try discriminate Hs; unfold count_item; simpl;
    rewrite bool_decide_true by lia; repeat split; lia.
Qed.

Lemma count_item_keeps now s j :
  let j' := count_item now s j in
  job_user_id j' = job_user_id j ∧ total_images j' = total_images j ∧
  credits_charged j' = credits_charged j.
Proof. done. Qed.

(** The loop of the worker over a batch whose counters are short of
    [total_images] by exactly the number of rows: the last row completes
    the batch. *)
Lemma process_images_completes (env : worker_env) user jobId
    (images : list (uuid * processed_image)) db j :
  NoDup images.*1 →
  (∀ img, img ∈ images →
          processed_images db !! img.1 = Some img.2 ∧ job_id img.2 = jobId
          ∧ progress_check img.2 = true) →
  processing_jobs db !! jobId = Some j →
  images ≠ [] →
  completed_count j + failed_count j + Z.of_nat (length images)
  = total_images j →
  let db' := process_images env user jobId images db in
  ∃ j', processing_jobs db' !! jobId = Some j' ∧
        status j' = completed ∧
        completed_at j' = Some (worker_now env) ∧
        completed_count j' + failed_count j' = total_images j' ∧
        job_user_id j' = job_user_id j ∧ total_images j' = total_images j ∧
        credits_charged j' = credits_charged j.
Proof.
  revert db j. induction images as [|[id r] images IH];
    intros db j Hnd Hrows Hj Hne Hsum; [done|].
  simpl in Hnd. apply NoDup_cons in Hnd as [Hid Hnd].
  destruct (Hrows (id, r)) as (Hr & Hjr & Hck); [left|]. simpl in Hr, Hjr, Hck.
  cbv zeta. unfold process_images. simpl.
  fold (process_images env user jobId images).
  rewrite <-Hjr in Hj.
  destruct (run_processImage (worker_now env) id (image_envs env id) user jobId
              (position r) db r j Hr Hck Hj)
    as (r1 & Hrows1 & Hjr1 & Hterm1 & Hck1 & Hjobs1).
  rewrite Hjr in Hj, Hjobs1.
  set (db1 := run_image_updates (worker_now env) id
                (processImage (image_envs env id) user jobId (position r)) db)
    in *.
  set (j1 := count_item (worker_now env) (img_status r1) j).
  assert (processing_jobs db1 !! jobId = Some j1) as Hj1.
  { by rewrite Hjobs1, lookup_alter_eq, Hj. }
  destruct (count_item_counts (worker_now env) (img_status r1) j Hterm1)
    as (Hc1 & Hc2 & _). fold j1 in Hc1, Hc2.
  destruct (count_item_keeps (worker_now env) (img_status r1) j)
    as (Hk1 & Hk2 & Hk3). fold j1 in Hk1, Hk2, Hk3.
  destruct images as [|img images].
  - exists j1. split; [exact Hj1|].
    destruct (count_item_hits (worker_now env) (img_status r1) j Hterm1)
      as (Hs & Hat & Htot); [simpl in Hsum; lia|].
    fold j1 in Hs, Hat, Htot. done.
  - destruct (IH db1 j1 Hnd) as (j' & Hj' & Hs & Hat & Htot & G1 & G2 & G3);
      [|exact Hj1|done| |].
    + intros img' Himg. destruct (Hrows img') as (H1 & H2 & H3); [by right|].
      split; [|done]. rewrite Hrows1, lookup_insert_ne; [done|].
      intros ->. apply Hid. by apply list_elem_of_fmap_2.
    + rewrite Hc1, Hc2. rewrite <-Hsum. simpl length. lia.
    + exists j'. split; [exact Hj'|]. split; [exact Hs|]. split; [exact Hat|].
      split; [exact Htot|]. split; [congruence|]. split; congruence.
Qed.
End submission_to_worker.

Section accepted_submission.
Implicit Types (db : Db) (env : process_env) (files : list file).

Lemma deduct_credits_frame db u a :
  processing_jobs (deduct_credits db u a).2 = processing_jobs db ∧
  processed_images (deduct_credits db u a).2 = processed_images db.
Proof. unfold deduct_credits. by repeat case_match. Qed.

Lemma filter_ur_error_length (l : list upload_result) :
  (length (filter (λ r, ur_error r = true) l)
   + length (filter (λ r, ur_error r = false) l) = length l)%nat.
Proof.
  induction l as [|r l IH]; [done|]. rewrite !filter_cons.
  destruct (ur_error r); simpl; lia.
Qed.

(** What the route leaves behind when it answers with a job: the job row,
    with [total_images] the number of stored uploads, and the insert of
    one queued row per stored upload. *)
Lemma process_POST_ok env user files vibe ratio db jid stored :
  (process_POST env user files vibe ratio db).1 = process_ok jid stored →
  let db' := (process_POST env user files vibe ratio db).2 in
  ∃ user_id (uploads : list upload_result),
    user = Some user_id ∧ jid = new_job_id env ∧
    processing_jobs db !! jid = None ∧
    stored = Z.of_nat (length uploads) ∧
    (0 < length uploads ≤ length files)%nat ∧
    processing_jobs db' !! jid
    = Some (mk_job user_id stored 0 0 queued (Z.of_nat (length files))
              None None None) ∧
    let rows := imap (λ k u, (new_image_id env k,
                              mk_image jid user_id (ur_path u) (ur_filename u)
                                None None queued (ur_position u) (Some 0)
                                None None None)) uploads in
    processed_images db'
    = if bool_decide (NoDup rows.*1)
         && bool_decide (Forall (λ k, processed_images db !! k = None) rows.*1)
      then list_to_map rows ∪ processed_images db
      else processed_images db.
Proof.
  unfold process_POST. destruct user as [user_id|]; [|done].
  set (n := Z.of_nat (length files)).
  destruct ((n =? 0) || (MAX_FILES <? n)); [done|].
  destruct (validate_files files) as [r|] eqn:Hval;
    [by destruct (validate_files_error files r Hval) as [message ->]|].
  case_bool_decide; [|done]. case_bool_decide; [|done]. simpl.
  case_match; [done|].
  destruct (deduct_credits_frame db user_id n) as [Hjobs Himgs].
  destruct (deduct_credits db user_id n) as [deducted db1]. simpl in Hjobs, Himgs.
  destruct (truthy deducted); [|done]. simpl.
  rewrite Hjobs. destruct (processing_jobs db !! new_job_id env) eqn:Hfresh;
    [done|].
  set (results := imap _ files).
  pose proof (filter_ur_error_length results) as Hsplit.
  assert (length results = length files) as Hlen by apply length_imap.
  case_bool_decide as Hall; [done|].
  set (uploads := filter (λ r, ur_error r = false) results) in *.
  intros [= <- <-]. exists user_id, uploads.
  split; [done|]. split; [done|]. split; [done|]. split; [done|].
  split; [lia|].
  split.
  - case_bool_decide as Hsome; simpl.
    + rewrite (proj1 (proj2 (proj2 (insert_images_frame _ _)))). simpl.
      by rewrite lookup_alter_eq, lookup_insert_eq.
    + rewrite (proj1 (proj2 (proj2 (insert_images_frame _ _)))). simpl.
      rewrite lookup_insert_eq. do 2 f_equal. lia.
  - case_bool_decide as Hsome; simpl; unfold insert_images; simpl;
      rewrite Himgs; destruct (bool_decide _ && bool_decide _); simpl;
      by rewrite Himgs.
Qed.
End accepted_submission.

Section batch_life.
Implicit Types (db : Db) (r : processed_image) (j : processing_job).

(** The rows the worker loads for a job whose rows were just inserted. *)
Lemma job_images_inserted db db' jid (rows : list (uuid * processed_image)) :
  NoDup rows.*1 →
  Forall (λ kr, job_id kr.2 = jid) rows →
  (∀ id r, processed_images db !! id = Some r → job_id r ≠ jid) →
  processed_images db' = list_to_map rows ∪ processed_images db →
  job_images db' jid ≡ₚ rows.
Proof.
  intros Hnd Hjob Hold Hdb'. apply NoDup_Permutation.
  - eapply NoDup_fmap_1, NoDup_job_images.
  - by eapply NoDup_fmap_1.
  - intros [id r]. rewrite elem_of_job_images. simpl. rewrite Hdb'.
    rewrite lookup_union_Some_raw. split.
    + intros [[Hin|[_ Hin]] Hj].
      * by apply elem_of_list_to_map_2 in Hin.
      * by apply Hold in Hin.
    + intros Hin. split.
      * left. by apply elem_of_list_to_map_1.
      * rewrite Forall_forall in Hjob. by apply (Hjob (id, r)).
Qed.

Lemma seq_prefix_sublist (a b : nat) :
  (a ≤ b)%nat → seq 0 a `sublist_of` seq 0 b.
Proof.
  intros Hab. replace b with (a + (b - a))%nat by lia.
  rewrite seq_app. by apply sublist_inserts_r.
Qed.
End batch_life.

(** X18: a batch from its submission to the end of the worker.  When the
    route answers a submission with a job and the number of stored
    uploads, the keys generated for the new rows being distinct and
    unused and no older row referring to the new job, a run of the worker
    on that job ends with the batch [completed] and stamped: every one of
    its rows is [completed] or [failed], the two counters add up to
    [total_images], which is the number of stored uploads, and
    [credits_charged] is the number of files submitted. *)
Theorem submitted_batch_completes (penv : process_env) (wenv : worker_env)
    (user : option uuid) (files : list file) (vibe ratio : string) (db : Db)
    (jid : uuid) (stored : Z) :
  let sub := process_POST penv user files vibe ratio db in
  sub.1 = process_ok jid stored →
  NoDup (new_image_id penv <$> seq 0 (length files)) →
  (∀ k, (k < length files)%nat →
        processed_images db !! new_image_id penv k = None) →
  (∀ id r, processed_images db !! id = Some r → job_id r ≠ jid) →
  let run := worker_POST wenv true (Some jid) sub.2 in
  1 ≤ stored ≤ Z.of_nat (length files) ∧
  Z.of_nat (length (job_images sub.2 jid)) = stored ∧
  ∃ j, processing_jobs run.2 !! jid = Some j ∧
    run.1 = worker_ok (completed_count j) (failed_count j) ∧
    completed_count j + failed_count j = stored ∧
    total_images j = stored ∧
    credits_charged j = Z.of_nat (length files) ∧
    Some (job_user_id j) = user ∧
    status j = completed ∧
    started_at j = Some (worker_now wenv) ∧
    completed_at j = Some (worker_now wenv) ∧
    (∀ id r, processed_images sub.2 !! id = Some r → job_id r = jid →
             ∃ r', processed_images run.2 !! id = Some r'
                   ∧ item_terminal (img_status r') = true).
Proof.
  intros sub Hok Hnd Hfresh Hold run. subst run.
  destruct (process_POST_ok penv user files vibe ratio db jid stored Hok)
    as (user_id & uploads & -> & -> & Hnone & -> & Hlen & Hjob & Himgs).
  fold sub in Hjob, Himgs. cbv zeta in Himgs.
  set (rows := imap _ uploads) in Himgs.
  assert (rows.*1 = new_image_id penv <$> seq 0 (length uploads)) as Hkeys.
  { unfold rows. rewrite fmap_imap.
    rewrite <-(imap_seq_0 uploads (new_image_id penv)). by apply imap_ext. }
  assert (NoDup rows.*1) as Hnd'.
  { rewrite Hkeys. eapply sublist_NoDup; [exact Hnd|].
    apply fmap_sublist, seq_prefix_sublist. lia. }
  assert (Forall (λ k, processed_images db !! k = None) rows.*1) as Hfresh'.
  { rewrite Hkeys. apply Forall_fmap, Forall_forall.
    intros k Hk%elem_of_seq. apply Hfresh. lia. }
  rewrite !bool_decide_true in Himgs by done. simpl in Himgs.
  assert (Forall (λ kr : uuid * processed_image,
                    job_id kr.2 = new_job_id penv
                    ∧ progress_check kr.2 = true) rows) as Hrows.
  { apply Forall_forall. intros kr Hkr. unfold rows in Hkr.
    apply elem_of_lookup_imap in Hkr as (k & u & -> & _). done. }
  pose proof (job_images_inserted db sub.2 (new_job_id penv) rows Hnd'
                (Forall_impl _ _ _ Hrows (λ _ H, proj1 H)) Hold Himgs)
    as Hperm.
  assert (length rows = length uploads) as Hlr by apply length_imap.
  split; [lia|]. split; [by rewrite Hperm, Hlr|].
  unfold worker_POST. simpl. rewrite Hjob.
  set (job := mk_job user_id (Z.of_nat (length uploads)) 0 0 queued
                (Z.of_nat (length files)) None None None) in *.
  set (db1 := set_processing_jobs
                (alter (mark_processing (worker_now wenv)) (new_job_id penv))
                sub.2).
  change (job_images db1 (new_job_id penv))
    with (job_images sub.2 (new_job_id penv)).
  set (images := job_images sub.2 (new_job_id penv)) in *.
  assert (processing_jobs db1 !! new_job_id penv
          = Some (mark_processing (worker_now wenv) job)) as Hjob1.
  { unfold db1. simpl. by rewrite lookup_alter_eq, Hjob. }
  assert (images ≠ []) as Hne.
  { intros Heq. rewrite Heq in Hperm. apply Permutation_nil_l in Hperm.
    rewrite <-Hperm in Hlr. simpl in Hlr. lia. }
  rewrite bool_decide_false by done.
  assert (∀ img, img ∈ images →
            processed_images db1 !! img.1 = Some img.2
            ∧ job_id img.2 = new_job_id penv ∧ progress_check img.2 = true)
    as Hvalid.
  { intros img Himg. pose proof Himg as [Hrow Hj]%elem_of_job_images.
    split; [exact Hrow|]. split; [exact Hj|].
    rewrite Forall_forall in Hrows. apply (Hrows img).
    by rewrite <-Hperm. }
  destruct (process_images_completes wenv user_id (new_job_id penv) images db1
              (mark_processing (worker_now wenv) job))
    as (j' & Hj' & Hs & Hat & Htot & G1 & G2 & G3);
    [apply NoDup_job_images|exact Hvalid|exact Hjob1|exact Hne| |].
  { simpl. rewrite Hperm, Hlr. lia. }
  destruct (process_images_counts wenv user_id (new_job_id penv) images db1
              (mark_processing (worker_now wenv) job))
    as (j'' & Hj'' & _ & Hst & _ & _ & Hterm & _);
    [apply NoDup_job_images|exact Hvalid|exact Hjob1|].
  change (job_user_id job) with user_id.
  rewrite Hj' in Hj''. injection Hj'' as <-.
  exists j'. simpl. rewrite Hj'. simpl.
  split; [done|]. split; [done|]. split; [by rewrite Htot, G2|].
  split; [exact G2|]. split; [exact G3|]. split; [by rewrite G1|].
  split; [exact Hs|]. split; [exact Hst|]. split; [exact Hat|].
  intros id r Hrow Hj. apply (Hterm (id, r)). by apply elem_of_job_images.
Qed.

Lemma submitted_batch_completes_witness :
  let sub := process_POST half_failing_storage (Some 1%N) two_files
               "natural_light" "AUTO" (wallet_db 1 5 0) in
  let run := worker_POST second_run true (Some 7%N) sub.2 in
  ∃ j, processing_jobs run.2 !! 7%N = Some j ∧
       status j = completed ∧ total_images j = 1 ∧ credits_charged j = 2.
Proof.
  intros sub run.
  destruct (submitted_batch_completes half_failing_storage second_run
              (Some 1%N) two_files "natural_light" "AUTO" (wallet_db 1 5 0)
              7 1)
    as (_ & _ & j & Hj & _ & _ & Ht & Hc & _ & Hs & _).
  - vm_compute. reflexivity.
  - simpl. apply NoDup_cons. split; [|apply NoDup_singleton].
    intros Hin%list_elem_of_singleton. discriminate Hin.
  - intros k Hk. apply lookup_empty.
  - intros id r Hr. simpl in Hr. by rewrite lookup_empty in Hr.
  - exists j. split; [exact Hj|]. split; [exact Hs|]. split; [exact Ht|exact Hc].
Defined.

(** ** Stripe webhook: what an event can do to a wallet *)

Section wallet_changes.
Implicit Types (db : Db) (o : stripe_event_object) (p : profile).

Lemma TOPUP_CREDITS_values priceId credits :
  TOPUP_CREDITS priceId = Some credits →
  credits = 10 ∨ credits = 50 ∨ credits = 100.
Proof.
  unfold TOPUP_CREDITS. repeat case_decide; intros [= <-]; auto.
Qed.

Lemma PLAN_CREDITS_values priceId config :
  PLAN_CREDITS priceId = Some config →
  monthly config = 20 ∨ monthly config = 100 ∨ monthly config = 500.
Proof.
  unfold PLAN_CREDITS. repeat case_decide; intros [= <-]; auto.
Qed.

Lemma handle_event_wallet db o u p :
  profiles db !! u = Some p →
  ∃ p', profiles (handle_event db o) !! u = Some p' ∧
    (topup_credits p' = topup_credits p ∨
     monthly_credits p' = monthly_credits p ∧
     credits_used_cycle p' = credits_used_cycle p ∧
     (topup_credits p' = topup_credits p + 10 ∨
      topup_credits p' = topup_credits p + 50 ∨
      topup_credits p' = topup_credits p + 100)) ∧
    (monthly_credits p' = monthly_credits p ∨
     credits_used_cycle p' = 0 ∧
     (monthly_credits p' = 3 ∨ monthly_credits p' = 20 ∨
      monthly_credits p' = 100 ∨ monthly_credits p' = 500)).
Proof.
  intros Hp.
  assert (∃ p', profiles db !! u = Some p' ∧
    (topup_credits p' = topup_credits p ∨
     monthly_credits p' = monthly_credits p ∧
     credits_used_cycle p' = credits_used_cycle p ∧
     (topup_credits p' = topup_credits p + 10 ∨
      topup_credits p' = topup_credits p + 50 ∨
      topup_credits p' = topup_credits p + 100)) ∧
    (monthly_credits p' = monthly_credits p ∨
     credits_used_cycle p' = 0 ∧
     (monthly_credits p' = 3 ∨ monthly_credits p' = 20 ∨
      monthly_credits p' = 100 ∨ monthly_credits p' = 500))) as Hsame.
  { exists p. split; [done|]. split; by left. }
  destruct o as [reason price user invoice|mode user price intent|user| |reason];
    simpl; [| | |exact Hsame|exact Hsame].
  - case_match; [|exact Hsame].
    destruct (price ≫= PLAN_CREDITS) as [config|] eqn:Hc; [|exact Hsame].
    destruct user as [userId|]; [|exact Hsame].
    unfold grant_monthly. destruct (profiles db !! userId) as [q|] eqn:Hq;
      [|exact Hsame]. simpl.
    destruct (decide (userId = u)) as [->|Hne];
      [|by rewrite lookup_insert_ne]. simplify_eq.
    rewrite lookup_insert_eq. eexists. split; [done|]. simpl.
    split; [by left|]. right. split; [done|].
    destruct price as [priceId|]; [|done]. simpl in Hc.
    apply PLAN_CREDITS_values in Hc. tauto.
  - case_match; [|exact Hsame].
    destruct user as [userId|]; [|exact Hsame].
    destruct price as [priceId|]; [|exact Hsame].
    destruct (TOPUP_CREDITS priceId) as [credits|] eqn:Hc; [|exact Hsame].
    unfold grant_topup. destruct (profiles db !! userId) as [q|] eqn:Hq;
      [|exact Hsame]. simpl.
    destruct (decide (userId = u)) as [->|Hne];
      [|by rewrite lookup_insert_ne]. simplify_eq.
    rewrite lookup_insert_eq. eexists. split; [done|]. simpl.
    split; [|by left]. right. split; [done|]. split; [done|].
    apply TOPUP_CREDITS_values in Hc. destruct Hc as [-> | [-> | ->]]; auto.
  - destruct user as [userId|]; [|exact Hsame].
    unfold subscription_deleted.
    destruct (profiles db !! userId) as [q|] eqn:Hq; [|exact Hsame]. simpl.
    destruct (decide (userId = u)) as [->|Hne];
      [|by rewrite lookup_insert_ne]. simplify_eq.
    rewrite lookup_insert_eq. eexists. split; [done|]. simpl.
    split; [by left|]. right. split; [done|]. by left.
Qed.
End wallet_changes.

(** X19: what a delivered event can do to a wallet.  The profile stays;
    top-up credits change only by a purchased pack of 10, 50 or 100 being
    added, with the monthly balance and the cycle usage untouched; and the
    monthly balance changes only by being set to an allowance (3 on
    cancellation, 20, 100 or 500 on a paid invoice), the cycle usage going
    back to 0: what was left of the month is not carried over, and no
    event takes top-up credits away. *)
Theorem stripe_event_wallet_changes (db : Db) (event : stripe_event)
    (u : uuid) (p : profile) :
  profiles db !! u = Some p →
  ∃ p', profiles (stripe_POST db event) !! u = Some p' ∧
    (topup_credits p' = topup_credits p ∨
     monthly_credits p' = monthly_credits p ∧
     credits_used_cycle p' = credits_used_cycle p ∧
     (topup_credits p' = topup_credits p + 10 ∨
      topup_credits p' = topup_credits p + 50 ∨
      topup_credits p' = topup_credits p + 100)) ∧
    (monthly_credits p' = monthly_credits p ∨
     credits_used_cycle p' = 0 ∧
     (monthly_credits p' = 3 ∨ monthly_credits p' = 20 ∨
      monthly_credits p' = 100 ∨ monthly_credits p' = 500)).
Proof.
  intros Hp. unfold stripe_POST.
  assert (∃ p', profiles db !! u = Some p' ∧
    (topup_credits p' = topup_credits p ∨
     monthly_credits p' = monthly_credits p ∧
     credits_used_cycle p' = credits_used_cycle p ∧
     (topup_credits p' = topup_credits p + 10 ∨
      topup_credits p' = topup_credits p + 50 ∨
      topup_credits p' = topup_credits p + 100)) ∧
    (monthly_credits p' = monthly_credits p ∨
     credits_used_cycle p' = 0 ∧
     (monthly_credits p' = 3 ∨ monthly_credits p' = 20 ∨
      monthly_credits p' = 100 ∨ monthly_credits p' = 500))) as Hsame.
  { exists p. split; [done|]. split; by left. }
  case_decide; [exact Hsame|].
  destruct (handling_throws (event_object event)); [exact Hsame|].
  simpl. by apply handle_event_wallet.
Qed.

Lemma stripe_event_wallet_changes_witness :
  let db := mk_db {[2%N := mk_profile pro 40 5 60]} [] ∅ ∅ ∅ [] ∅ in
  let event := mk_event "evt_9" (customer_subscription_deleted (Some 2%N)) in
  ∃ p', profiles (stripe_POST db event) !! 2%N = Some p' ∧
        topup_credits p' = 5.
Proof.
  intros db event.
  destruct (stripe_event_wallet_changes db event 2 (mk_profile pro 40 5 60))
    as (p' & Hp' & Ht & _); [reflexivity|].
  exists p'. split; [exact Hp'|].
  assert (profiles (stripe_POST db event) !! 2%N = Some (mk_profile free 3 5 0))
    as Heq by (vm_compute; reflexivity).
  rewrite Heq in Hp'. by injection Hp' as <-.
Defined.

(** ** The progress hook *)

Section progress_hook.
Implicit Types (images : list processed_image).

Lemma mean_table : forallb mean_ok (seq 1 20) = true.
Proof. vm_compute. reflexivity. Qed.

Lemma image_pct_bounds (img : processed_image) :
  progress_check img = true → 0 ≤ image_pct img ≤ 100.
Proof.
  unfold progress_check, image_pct.
  destruct (item_terminal (img_status img)); [lia|].
  destruct (progress_pct img) as [v|]; simpl; lia.
Qed.

Lemma sum_pct_bounds images :
  Forall (λ img, progress_check img = true) images →
  0 ≤ sum_pct images ≤ 100 * Z.of_nat (length images) ∧
  (Forall (λ img, item_terminal (img_status img) = true) images →
   sum_pct images = 100 * Z.of_nat (length images)).
Proof.
  induction 1 as [|img images Hck _ IH]; [done|].
  destruct IH as [IH1 IH2].
  pose proof (image_pct_bounds img Hck) as Hb.
  unfold sum_pct in *. simpl foldr. simpl length. split; [lia|].
  intros [Ht Hall]%Forall_cons. rewrite (IH2 Hall).
  unfold image_pct. rewrite Ht. lia.
Qed.

(** The reducer of the hook adds up what the images count for. *)
Lemma reduce_sum_pct images acc :
  foldl (λ acc img,
           if decide (img_status img = completed) then acc + 100
           else if decide (img_status img = failed) then acc + 100
           else acc + default 0 (progress_pct img)) acc images
  = acc + sum_pct images.
Proof.
  revert acc. induction images as [|img images IH]; intros acc.
  { unfold sum_pct. simpl. lia. }
  simpl. rewrite IH. unfold sum_pct. simpl. unfold image_pct.
  destruct (img_status img); simpl; lia.
Qed.
End progress_hook.

(** X20: the percentage shown for a batch that is under way.  For a
    batch that is neither [queued] nor [completed], with between 1 and
    20 rows loaded, the hook shows the mean of what the rows count for
    (100 once terminal, else the progress written), rounded to the
    nearest integer with a half going up; it lies between 0 and 100, and
    is 100 once every row is terminal. *)
Theorem computeProgress_rounded_mean (job : processing_job)
    (images : list processed_image) :
  status job ≠ completed → status job ≠ queued →
  (1 ≤ length images ≤ 20)%nat →
  Forall (λ img, progress_check img = true) images →
  let n := Z.of_nat (length images) in
  let shown := (2 * sum_pct images + n) / (2 * n) in
  json_int (computeProgress (Some job) images) = Some shown ∧
  0 ≤ shown ≤ 100 ∧
  (Forall (λ img, item_terminal (img_status img) = true) images →
   shown = 100).
Proof.
  intros Hc Hq Hlen Hck n shown.
  destruct (sum_pct_bounds images Hck) as [Hsum Hall].
  fold n in Hsum, Hall.
  assert (0 ≤ shown ≤ 100) as Hshown.
  { unfold shown. split.
    - apply Z.div_pos; lia.
    - apply Z.lt_succ_r, Z.div_lt_upper_bound; lia. }
  split; [|split; [exact Hshown|]].
  - unfold computeProgress.
    rewrite decide_False, decide_False by done.
    rewrite bool_decide_false by lia. cbv zeta.
    rewrite (reduce_sum_pct images 0), Z.add_0_l.
    assert (mean_ok (length images) = true) as Hok.
    { apply (proj1 (forallb_forall mean_ok (seq 1 20)) mean_table).
      apply in_seq. lia. }
    unfold mean_ok in Hok. rewrite forallb_forall in Hok.
    specialize (Hok (Z.to_nat (sum_pct images))).
    rewrite Z2Nat.id in Hok by lia. fold n in Hok |- *.
    destruct (json_int _) as [v|].
    + f_equal. apply Z.eqb_eq. apply Hok. apply in_seq. lia.
    + exfalso. assert (false = true) as Hf; [|discriminate Hf].
      apply Hok. apply in_seq. lia.
  - intros Hterm. unfold shown. rewrite (Hall Hterm).
    replace (2 * (100 * n) + n) with (100 * (2 * n) + n) by lia.
    rewrite Z.div_add_l by lia. rewrite Z.div_small; lia.
Qed.

Lemma computeProgress_rounded_mean_witness :
  let job := mk_job 1 3 1 0 processing 3 (Some 10) None None in
  let row := λ s pct, mk_image 7 1 "uploads/1/7/original_1.jpg" "a.jpg"
                        None None s 1 pct None None None in
  json_int (computeProgress (Some job)
              [row completed (Some 100); row processing (Some 40);
               row queued (Some 0)])
  = Some 47.
Proof.
  intros job row.
  destruct (computeProgress_rounded_mean job
              [row completed (Some 100); row processing (Some 40);
               row queued (Some 0)]) as (H & _);
    [discriminate|discriminate|simpl; lia| |exact H].
  repeat constructor.
Defined.

(** X21: the form after a first submission, against the wallet.  The
    hypotheses: the profile the form holds is the user's row in the
    database, with non-negative monthly and top-up balances; the form has
    no pending offset; it may submit ([canSubmit]) and its selection is
    a valid submission.  Then the route has charged the wallet for the
    files whatever it answers.  When it answers with a job, the form is
    emptied, the job heads the active list and the profile shown is the
    one in the database.  When it answers with an error, the offset is
    rolled back, the files and the error stay in the form, the profile
    shown is the uncharged one, ahead of the charged wallet by the number
    of files, and the form still may submit: its profile is then no
    longer the one in the database, and the property says nothing of the
    next submission. *)
Theorem handleSubmit_display_and_wallet (env : process_env) (u : uuid)
    (vibe ratio : string) (db : Db) (p : profile) (st : dashboard) :
  profiles db !! u = Some p →
  0 ≤ monthly_credits p → 0 ≤ topup_credits p →
  d_creditOffset st = 0 →
  canSubmit p (d_files st) false = true →
  valid_submission (d_files st) vibe ratio →
  let n := Z.of_nat (length (d_files st)) in
  let res := process_POST env (Some u) (d_files st) vibe ratio db in
  let st' := handleSubmit p false (inr res.1) st in
  let shown := optimisticProfile p (d_creditOffset st') in
  wallet_balance res.2 u = wallet_balance db u - n ∧
  (∀ jobId creditsCharged, res.1 = process_ok jobId creditsCharged →
     profiles res.2 !! u = Some shown ∧ d_files st' = [] ∧
     d_activeJobIds st' = jobId :: d_activeJobIds st ∧
     d_submitError st' = None) ∧
  (∀ status message, res.1 = process_error status message →
     shown = p ∧ d_files st' = d_files st ∧
     d_activeJobIds st' = d_activeJobIds st ∧
     d_submitError st' = Some message ∧
     monthly_credits shown + topup_credits shown
     = wallet_balance res.2 u + n ∧
     canSubmit p (d_files st') false = true ∧
     profiles res.2 !! u ≠ Some p).
Proof.
  intros Hp Hm Ht Hoff Hcan Hvalid n res st' shown.
  pose proof Hcan as Hcan'. unfold canSubmit in Hcan'.
  apply andb_true_iff in Hcan' as [Hcan' _].
  apply andb_true_iff in Hcan' as [Hpos%Z.ltb_lt Hfunds%Z.leb_le].
  destruct (process_POST_profiles env u (d_files st) vibe ratio db p
              Hvalid Hp Hfunds) as [Hprof _].
  fold res n in Hprof.
  assert (wallet_balance db u = monthly_credits p + topup_credits p) as Hw.
  { unfold wallet_balance, get_available_credits. by rewrite Hp. }
  assert (wallet_balance res.2 u = wallet_balance db u - n) as Hw'.
  { unfold wallet_balance at 1, get_available_credits.
    rewrite Hprof, lookup_insert_eq. simpl. lia. }
  split; [exact Hw'|].
  unfold shown, st', handleSubmit. rewrite Hcan. simpl. rewrite Hoff.
  split.
  - intros jobId c ->. simpl. split; [|done].
    rewrite Hprof, lookup_insert_eq. unfold optimisticProfile.
    fold n. f_equal. f_equal; lia.
  - intros status message ->. simpl. fold n.
    replace (0 + n - n) with 0 by lia.
    assert (optimisticProfile p 0 = p) as ->.
    { unfold optimisticProfile. destruct p as [pl m t used]. simpl in *.
      f_equal; lia. }
    do 4 (split; [done|]). split; [lia|]. split; [exact Hcan|].
    rewrite Hprof, lookup_insert_eq. intros [= Heq].
    destruct p as [pl m t used]. simpl in *. injection Heq as Hm' Ht' Hu'.
    lia.
Qed.

Lemma handleSubmit_display_and_wallet_witness :
  let p := mk_profile free 5 0 0 in
  let st := mk_dashboard five_files 0 [] None in
  let res := process_POST failing_storage (Some 1%N) five_files
               "natural_light" "AUTO" (wallet_db 1 5 0) in
  let st' := handleSubmit p false (inr res.1) st in
  optimisticProfile p (d_creditOffset st') = p ∧
  wallet_balance res.2 1 = 0.
Proof.
  intros p st res st'.
  destruct (handleSubmit_display_and_wallet failing_storage 1 "natural_light"
              "AUTO" (wallet_db 1 5 0) p st) as (Hw & _ & Herr).
  - reflexivity.
  - simpl. lia.
  - simpl. lia.
  - reflexivity.
  - reflexivity.
  - unfold valid_submission. simpl.
    split; [unfold MAX_FILES; lia|]. split; [reflexivity|].
    split; apply elem_of_cons; by left.
  - split; [|exact Hw].
    destruct (Herr 500 "All uploads failed. Credits refunded.") as [H _];
      [vm_compute; reflexivity|exact H].
Defined.

(** ** Polling: reported progress *)

Section reported_progress.

Lemma reported_table : forallb reported_ok (seq 0 101) = true.
Proof. vm_compute. reflexivity. Qed.

Lemma poll_progress_reported (x : float) (i maxAttempts : nat) :
  poll_progress (Some x) i maxAttempts = poll_progress (Some x) 0 60.
Proof. reflexivity. Qed.

Lemma reported_pct_spec (p : Z) (i maxAttempts : nat) :
  0 ≤ p ≤ 100 →
  poll_progress (Some (number_of_Z p)) i maxAttempts = Some (reported_pct p) ∧
  40 ≤ reported_pct p ≤ 74 ∧ reported_pct p ≤ reported_pct (p + 1).
Proof.
  intros Hp. rewrite poll_progress_reported.
  assert (reported_ok (Z.to_nat p) = true) as Hok.
  { apply (proj1 (forallb_forall reported_ok (seq 0 101)) reported_table).
    apply in_seq. lia. }
  unfold reported_ok in Hok. rewrite Z2Nat.id in Hok by lia.
  replace (Z.of_nat (S (Z.to_nat p))) with (p + 1) in Hok by lia.
  unfold reported_pct at 1 2 3 4.
  destruct (poll_progress (Some (number_of_Z p)) 0 60) as [v|]; [|done].
  simpl. apply andb_true_iff in Hok as [Hok H3].
  apply andb_true_iff in Hok as [H1 H2].
  split; [done|]. lia.
Qed.

Lemma reported_pct_mono (p q : Z) :
  0 ≤ p ≤ q → q ≤ 100 → reported_pct p ≤ reported_pct q.
Proof.
  intros [Hp Hpq] Hq. revert Hq.
  pattern q. apply (Zlt_lower_bound_ind _ p); [|exact Hpq].
  intros x IH Hpx Hx.
  destruct (decide (x = p)) as [->|Hne]; [lia|].
  etrans; [apply (IH (x - 1)); lia|].
  replace x with (x - 1 + 1) at 2 by lia.
  apply (reported_pct_spec (x - 1) 0 60). lia.
Qed.

(** The values written by the loop when every response reports an
    integer progress that never falls. *)
Lemma poll_loop_reported polls (reported : nat → Z) maxAttempts intervalMs
    left i :
  (∀ k data, polls k = poll_ok data →
             nb_progress data = Some (number_of_Z (reported k))
             ∧ 0 ≤ reported k ≤ 100) →
  (∀ k1 k2 d1 d2, (k1 ≤ k2)%nat → polls k1 = poll_ok d1 →
                  polls k2 = poll_ok d2 → reported k1 ≤ reported k2) →
  let vals := progress_values
                (poll_updates (poll_loop polls maxAttempts intervalMs left i)) in
  nondecreasing vals ∧
  ∀ x, x ∈ vals → ∃ k data, (i ≤ k)%nat ∧ polls k = poll_ok data
                            ∧ x = Some (reported_pct (reported k)).
Proof.
  intros Hrep Hmono. revert i.
  induction left as [|left IH]; intros i; simpl.
  { split; [constructor|]. by intros x ?%elem_of_nil. }
  destruct (IH (S i)) as [IHs IHe].
  assert (∀ x, x ∈ progress_values
                 (poll_updates
                    (poll_loop polls maxAttempts intervalMs left (S i))) →
               ∃ k data, (i ≤ k)%nat ∧ polls k = poll_ok data
                         ∧ x = Some (reported_pct (reported k))) as IHe'.
  { intros x (k & d & ? & ? & ?)%IHe. exists k, d. split; [lia|done]. }
  destruct (polls i) as [m| |data] eqn:Hp; simpl.
  - split; [constructor|]. by intros x ?%elem_of_nil.
  - done.
  - destruct (Hrep i data Hp) as [-> Hb].
    destruct (reported_pct_spec (reported i) i maxAttempts Hb) as (-> & _ & _).
    assert (∀ x, x ∈ [Some (reported_pct (reported i))] →
                 ∃ k d, (i ≤ k)%nat ∧ polls k = poll_ok d
                        ∧ x = Some (reported_pct (reported k))) as Hone.
    { intros x ->%list_elem_of_singleton. by exists i, data. }
    repeat case_match; simpl; unfold progress_values; simpl;
      try (split; [repeat constructor|exact Hone]).
    split.
    + apply StronglySorted_cons. split; [|exact IHs].
      apply Forall_forall. intros x (k & d & Hk & Hd & ->)%IHe. simpl.
      destruct (Hrep k d Hd) as [_ Hbk].
      apply reported_pct_mono; [|lia]. split; [lia|].
      apply (Hmono i k data d); [lia|done|done].
    + intros x [->|Hx]%elem_of_cons; [apply Hone; left|by apply IHe'].
Qed.

(** The values of [processImage] around those of the polling loop. *)
Lemma processImage_sorted (env : image_env) (user job : uuid) (pos : Z) :
  nondecreasing (progress_values (poll_updates (pollNanoBanana (polls env)))) →
  (∀ x, x ∈ progress_values (poll_updates (pollNanoBanana (polls env))) →
        ∃ v, x = Some v ∧ 40 ≤ v ≤ 74) →
  nondecreasing (progress_values (processImage env user job pos)).
Proof.
  unfold processImage. generalize (pollNanoBanana (polls env)). intros o Hs Hb.
  assert (∀ tail,
            nondecreasing tail →
            (∀ x, x ∈ tail → ∃ v, x = Some v ∧ 75 ≤ v) →
            nondecreasing (Some 5 :: Some 15 :: Some 40
                           :: progress_values (poll_updates o) ++ tail))
    as Hfull by (intros; by apply checkpoints_sorted).
  assert (∀ x : option Z, x ∈ [Some 75; Some 100] → ∃ v, x = Some v ∧ 75 ≤ v)
    as Hge2.
  { intros x [->|Hx]%elem_of_cons; [exists 75; split; [done|lia]|].
    apply list_elem_of_singleton in Hx as ->. exists 100. split; [done|lia]. }
  assert (∀ x : option Z, x ∈ [Some 75] → ∃ v, x = Some v ∧ 75 ≤ v) as Hge1.
  { intros x ->%list_elem_of_singleton. exists 75. split; [done|lia]. }
  assert (nondecreasing [Some 75; Some 100]) as H2.
  { repeat constructor. simpl. lia. }
  assert (nondecreasing [Some 75]) as H1 by repeat constructor.
  destruct (js_truthy (sign_original env)); simpl; [|repeat constructor].
  destruct (submit env) as [m|st txt|[ext|m]]; simpl;
    [repeat constructor; simpl; lia..| |repeat constructor; simpl; lia].
  rewrite progress_values_app.
  destruct (poll_result o) as [url|m]; simpl.
  - destruct (output_fetch env) as [m|st txt|len]; simpl;
      [by apply Hfull..|].
    destruct (storeErr env); simpl; by apply Hfull.
  - apply Hfull; [constructor|]. by intros x ?%elem_of_nil.
Qed.
End reported_progress.

(** X22: the progress of an item never falls when the provider's reports
    do not.  If every poll response reports an integer progress between
    0 and 100 and no response reports less than an earlier one, every
    value written while polling lies between 40 and 74, and the values
    written for the item over the whole of [processImage] never
    decrease. *)
Theorem progress_nondecreasing_with_rising_reports (env : image_env)
    (user job : uuid) (pos : Z) (reported : nat → Z) :
  (∀ k data, polls env k = poll_ok data →
             nb_progress data = Some (number_of_Z (reported k))
             ∧ 0 ≤ reported k ≤ 100) →
  (∀ k1 k2 d1 d2, (k1 ≤ k2)%nat → polls env k1 = poll_ok d1 →
                  polls env k2 = poll_ok d2 → reported k1 ≤ reported k2) →
  (∀ x, x ∈ progress_values (poll_updates (pollNanoBanana (polls env))) →
        ∃ v, x = Some v ∧ 40 ≤ v ≤ 74) ∧
  nondecreasing (progress_values (processImage env user job pos)).
Proof.
  intros Hrep Hmono.
  destruct (poll_loop_reported (polls env) reported 60 5000 60 0 Hrep Hmono)
    as [Hs He].
  rewrite <-pollNanoBanana_eq in Hs, He.
  assert (∀ x, x ∈ progress_values (poll_updates (pollNanoBanana (polls env))) →
               ∃ v, x = Some v ∧ 40 ≤ v ≤ 74) as Hb.
  { intros x (k & d & _ & Hd & ->)%He. eexists. split; [done|].
    destruct (Hrep k d Hd) as [_ Hbk].
    by apply (reported_pct_spec (reported k) 0 60). }
  split; [exact Hb|]. by apply processImage_sorted.
Qed.

Lemma progress_nondecreasing_with_rising_reports_witness :
  nondecreasing (progress_values (processImage rising_provider 1 7 1)).
Proof.
  apply (progress_nondecreasing_with_rising_reports rising_provider 1 7 1
           (λ k, match k with O => 10 | S O => 20 | _ => 100 end)).
  - intros k data Hk. destruct k as [|[|k]]; simpl in Hk;
      injection Hk as <-; simpl; (split; [reflexivity|lia]).
  - intros k1 k2 d1 d2 Hle _ _.
    destruct k1 as [|[|k1]], k2 as [|[|k2]]; lia.
Defined.
